(** * Poker training engine: cards, hand evaluation, starting hands,
      question synthesis and progression.

    A shallow embedding of the Python rules engine.  Every Python module is a
    Rocq module of the same name (classes become nested modules), fallible code
    returns [Py.result], code that draws random numbers runs in the [Py.rnd]
    monad over an explicit tape of random draws, [float] values are IEEE
    binary64 numbers ([spec_float] with precision 53), and the SQL tables are
    lists of rows threaded through the calls. *)

From Stdlib Require Import ZArith List String Ascii Lia Bool DecimalString.
From Stdlib Require Import Floats.SpecFloat.
From stdpp Require Import base option list gmap sets strings sorting.

Local Open Scope Z_scope.

(** ** The Python runtime the engine relies on *)

Module Py.

(** Exceptions raised by the modelled code. *)
Inductive exn := ValueError | KeyError | IndexError | TypeError | AttributeError.

(** A call either returns a value or raises. *)
Inductive result (A : Type) := Ok (a : A) | Raise (e : exn).
Arguments Ok {A} a.
Arguments Raise {A} e.

#[global] Instance result_ret : MRet result := @Ok.
#[global] Instance result_bind : MBind result :=
  fun A B f m => match m with Ok a => f a | Raise e => Raise e end.
#[global] Instance result_fmap : FMap result :=
  fun A B f m => match m with Ok a => Ok (f a) | Raise e => Raise e end.

(** [l[i]] for a non-negative index. *)
Definition getitem {A} (l : list A) (i : nat) : result A :=
  match l !! i with Some a => Ok a | None => Raise IndexError end.

(** [d[k]] on a dict. *)
Definition dict_getitem {A} (d : gmap string A) (k : string) : result A :=
  match d !! k with Some a => Ok a | None => Raise KeyError end.

(** *** [str]: strings of ASCII code points *)

Definition is_ascii_char (c : ascii) : bool := (nat_of_ascii c <? 128)%nat.

Fixpoint is_ascii (s : string) : bool :=
  match s with
  | EmptyString => true
  | String c s' => is_ascii_char c && is_ascii s'
  end.

Definition upper_char (c : ascii) : ascii :=
  let n := nat_of_ascii c in
  if ((97 <=? n) && (n <=? 122))%nat then ascii_of_nat (n - 32) else c.

Definition lower_char (c : ascii) : ascii :=
  let n := nat_of_ascii c in
  if ((65 <=? n) && (n <=? 90))%nat then ascii_of_nat (n + 32) else c.

Fixpoint upper (s : string) : string :=
  match s with
  | EmptyString => EmptyString
  | String c s' => String (upper_char c) (upper s')
  end.

Fixpoint lower (s : string) : string :=
  match s with
  | EmptyString => EmptyString
  | String c s' => String (lower_char c) (lower s')
  end.

Definition isdigit_char (c : ascii) : bool :=
  let n := nat_of_ascii c in ((48 <=? n) && (n <=? 57))%nat.

Fixpoint all_digits (s : string) : bool :=
  match s with
  | EmptyString => true
  | String c s' => isdigit_char c && all_digits s'
  end.

(** [s.isdigit()]: at least one character, all of them digits. *)
Definition isdigit (s : string) : bool :=
  match s with
  | EmptyString => false
  | _ => all_digits s
  end.

Fixpoint int_acc (acc : Z) (s : string) : Z :=
  match s with
  | EmptyString => acc
  | String c s' => int_acc (10 * acc + (Z.of_nat (nat_of_ascii c) - 48)) s'
  end.

(** The interpreter's limit on the number of digits that [int] converts
    ([sys.int_info.default_max_str_digits]). *)
Definition int_max_str_digits : Z := 4300.

(** [int(s)] for a string on which [isdigit] holds (leading zeros allowed
    and counted): [ValueError] when the digits are more than the limit. *)
Definition int (s : string) : result Z :=
  if int_max_str_digits <? Z.of_nat (String.length s) then Raise ValueError
  else Ok (int_acc 0 s).

(** [str(n)] for an integer. *)
Definition str (n : Z) : string := NilZero.string_of_int (Z.to_int n).

(** [s[:-1]] and [s[-1]]. *)
Definition drop_last (s : string) : string :=
  String.substring 0 (String.length s - 1) s.

Definition last_char (s : string) : result string :=
  match String.length s with
  | O => Raise IndexError
  | S n => Ok (String.substring n 1 s)
  end.

(** [s[i]] for a non-negative index: a one-character string. *)
Definition str_getitem (s : string) (i : nat) : result string :=
  if (i <? String.length s)%nat then Ok (String.substring i 1 s)
  else Raise IndexError.

(** *** Tuples of integers and their comparison *)

Fixpoint tuple_compare (a b : list Z) : comparison :=
  match a, b with
  | [], [] => Eq
  | [], _ :: _ => Lt
  | _ :: _, [] => Gt
  | x :: a', y :: b' =>
      match x ?= y with
      | Eq => tuple_compare a' b'
      | c => c
      end
  end.

Definition tuple_lt (a b : list Z) : bool :=
  match tuple_compare a b with Lt => true | _ => false end.

Definition tuple_gt (a b : list Z) : bool :=
  match tuple_compare a b with Gt => true | _ => false end.

(** *** [sorted] *)

Fixpoint insert_desc (x : Z) (l : list Z) : list Z :=
  match l with
  | [] => [x]
  | y :: l' => if y <? x then x :: l else y :: insert_desc x l'
  end.

(** [sorted(l, reverse=True)] on integers. *)
Definition sorted_desc (l : list Z) : list Z := foldr insert_desc [] l.

Fixpoint insert_by {A} (key : A -> Z) (x : A) (l : list A) : list A :=
  match l with
  | [] => [x]
  | y :: l' => if key x <=? key y then x :: l else y :: insert_by key x l'
  end.

(** [sorted(l, key=key)]: stable, ascending. *)
Definition sorted_by {A} (key : A -> Z) (l : list A) : list A :=
  foldr (insert_by key) [] l.

(** *** [collections.Counter] over integers: keys in first-seen order *)

Fixpoint counter_incr (k : Z) (d : list (Z * nat)) : list (Z * nat) :=
  match d with
  | [] => [(k, 1%nat)]
  | (k', c) :: d' =>
      if k' =? k then (k', S c) :: d' else (k', c) :: counter_incr k d'
  end.

Definition Counter (l : list Z) : list (Z * nat) :=
  fold_left (fun d k => counter_incr k d) l [].

(** *** [itertools.combinations]: index-lexicographic order *)

Fixpoint combinations {A} (l : list A) (k : nat) : list (list A) :=
  match k with
  | O => [[]]
  | S k' =>
      match l with
      | [] => []
      | x :: l' => map (cons x) (combinations l' k') ++ combinations l' k
      end
  end.

(** *** [list.remove]: drops the first equal element *)

Fixpoint list_remove `{EqDecision A} (x : A) (l : list A) : list A :=
  match l with
  | [] => []
  | y :: l' => if decide (y = x) then l' else y :: list_remove x l'
  end.

(** *** [random]

    Every draw [_randbelow(n)] reads the next entry of a tape of naturals
    and reduces it modulo [n], so each tape is one run of the generator and
    every result of a draw is produced by some tape.  A [while] loop is
    unrolled under a bound and reports [Diverge] when the bound is hit. *)

Definition tape := nat -> nat.

Inductive outcome (A : Type) :=
  | Done (a : A) (next : nat)
  | Fail (e : exn)
  | Diverge.
Arguments Done {A} a next.
Arguments Fail {A} e.
Arguments Diverge {A}.

Definition rnd (A : Type) := tape -> nat -> outcome A.

#[global] Instance rnd_ret : MRet rnd := fun A a _ pos => Done a pos.
#[global] Instance rnd_bind : MBind rnd :=
  fun A B f m tp pos =>
    match m tp pos with
    | Done a pos' => f a tp pos'
    | Fail e => Fail e
    | Diverge => Diverge
    end.

Definition lift {A} (r : result A) : rnd A :=
  fun _ pos => match r with Ok a => Done a pos | Raise e => Fail e end.

Definition diverge {A} : rnd A := fun _ _ => Diverge.

Definition randbelow (n : nat) : rnd nat :=
  fun tp pos => Done (tp pos mod n)%nat (S pos).

(** [random.choice(seq)] *)
Definition choice {A} (l : list A) : rnd A :=
  match l with
  | [] => lift (Raise IndexError)
  | _ => j ← randbelow (length l); lift (getitem l j)
  end.

(** [random.randint(a, b)] *)
Definition randint (a b : Z) : rnd Z :=
  if b <? a then lift (Raise ValueError)
  else j ← randbelow (Z.to_nat (b - a + 1)); mret (a + Z.of_nat j).

(** [x[i], x[j] = x[j], x[i]] *)
Definition swap {A} (x : list A) (i j : nat) : list A :=
  match x !! i, x !! j with
  | Some a, Some b => <[j := a]> (<[i := b]> x)
  | _, _ => x
  end.

(** The loop of [random.shuffle]: for [i] from [len(x) - 1] down to 1,
    swap [x[i]] with [x[_randbelow(i + 1)]]. *)
Fixpoint shuffle_from {A} (i : nat) (x : list A) : rnd (list A) :=
  match i with
  | O => mret x
  | S i' => j ← randbelow (S i); shuffle_from i' (swap x i j)
  end.

Definition shuffle {A} (x : list A) : rnd (list A) :=
  shuffle_from (length x - 1) x.

(** The pool loop of [random.sample], taken for populations of at most 21
    elements: pick [pool[j]], then move the last live element into slot [j]. *)
Fixpoint sample_pool {A} (k n : nat) (pool : list A) : rnd (list A) :=
  match k with
  | O => mret []
  | S k' =>
      j ← randbelow n;
      a ← lift (getitem pool j);
      b ← lift (getitem pool (n - 1));
      rest ← sample_pool k' (n - 1) (<[j := b]> pool);
      mret (a :: rest)
  end.

Definition sample {A} (population : list A) (k : nat) : rnd (list A) :=
  if (length population <? k)%nat then lift (Raise ValueError)
  else sample_pool k (length population) population.

End Py.

Import Py.

(** ** card.py *)

Module Suit.

Inductive t := HEARTS | DIAMONDS | CLUBS | SPADES.

#[global] Instance eq_dec : EqDecision t.
Proof. solve_decision. Defined.

Definition value (s : t) : Z :=
  match s with HEARTS => 0 | DIAMONDS => 1 | CLUBS => 2 | SPADES => 3 end.

(** [list(Suit)] *)
Definition members : list t := [HEARTS; DIAMONDS; CLUBS; SPADES].

Definition letter (s : t) : string :=
  match s with HEARTS => "h" | DIAMONDS => "d" | CLUBS => "c" | SPADES => "s" end.

Definition mapping : gmap string t :=
  {[ "h" := HEARTS; "d" := DIAMONDS; "c" := CLUBS; "s" := SPADES ]}.

Definition from_letter (letter : string) : result t :=
  dict_getitem mapping (lower letter).

End Suit.

Module Rank.

Inductive t :=
  | TWO | THREE | FOUR | FIVE | SIX | SEVEN | EIGHT | NINE | TEN
  | JACK | QUEEN | KING | ACE.

#[global] Instance eq_dec : EqDecision t.
Proof. solve_decision. Defined.

Definition value (r : t) : Z :=
  match r with
  | TWO => 2 | THREE => 3 | FOUR => 4 | FIVE => 5 | SIX => 6 | SEVEN => 7
  | EIGHT => 8 | NINE => 9 | TEN => 10 | JACK => 11 | QUEEN => 12
  | KING => 13 | ACE => 14
  end.

(** [list(Rank)] *)
Definition members : list t :=
  [TWO; THREE; FOUR; FIVE; SIX; SEVEN; EIGHT; NINE; TEN; JACK; QUEEN; KING; ACE].

(** [Rank(n)]: the member of value [n], [ValueError] when there is none. *)
Definition of_value (n : Z) : result t :=
  match find (fun r => bool_decide (value r = n)) members with
  | Some r => Ok r
  | None => Raise ValueError
  end.

(** Ranks up to ten print their value; the [symbols] dict covers the four
    ranks above ten. *)
Definition symbol (r : t) : string :=
  match r with
  | JACK => "J" | QUEEN => "Q" | KING => "K" | ACE => "A"
  | _ => str (value r)
  end.

Definition mapping : gmap string t :=
  {[ "T" := TEN; "J" := JACK; "Q" := QUEEN; "K" := KING; "A" := ACE ]}.

Definition from_symbol (symbol : string) : result t :=
  let symbol := upper symbol in
  if isdigit symbol then n ← int symbol; of_value n
  else dict_getitem mapping symbol.

End Rank.

Module Card.

Record t := mk { rank : Rank.t; suit : Suit.t }.

#[global] Instance eq_dec : EqDecision t.
Proof. solve_decision. Defined.

(** [str(card)] *)
Definition to_str (c : t) : string := Rank.symbol (rank c) +:+ Suit.letter (suit c).

Definition from_string (s : string) : result t :=
  if (String.length s <? 2)%nat then Raise ValueError
  else
    let rank_str := drop_last s in
    suit_str ← last_char s;
    r ← Rank.from_symbol rank_str;
    su ← Suit.from_letter suit_str;
    mret (mk r su).

End Card.

(** [parse_cards]: the list comprehension stops at the first card that
    fails to parse. *)
Definition parse_cards (card_strings : list string) : result (list Card.t) :=
  foldr (fun s acc => c ← Card.from_string s; cs ← acc; mret (c :: cs))
        (mret []) card_strings.

Module Deck.

(** The deck object: its [cards] attribute. *)
Record t := mk { cards : list Card.t }.

(** [[Card(rank, suit) for suit in Suit for rank in Rank]] *)
Definition fresh_cards : list Card.t :=
  s ← Suit.members; r ← Rank.members; [Card.mk r s].

Definition reset (self : t) : rnd t :=
  cs ← shuffle fresh_cards; mret (mk cs).

(** [Deck()] *)
Definition new : rnd t := reset (mk []).

Definition draw (self : t) (n : nat) : result (list Card.t * t) :=
  if (length (cards self) <? n)%nat then Raise ValueError
  else Ok (take n (cards self), mk (drop n (cards self))).


(** The removal loop of [draw_specific]: each wanted card present in the
    deck is removed in turn; the first absent one raises, and the removals
    made before it stay. *)
Fixpoint remove_each (wanted : list Card.t) (self : t) : t * result unit :=
  match wanted with
  | [] => (self, Ok tt)
  | card :: rest =>
      if decide (card ∈ cards self)
      then remove_each rest (mk (list_remove card (cards self)))
      else (self, Raise ValueError)
  end.

(** [deck.draw_specific(card_strings)]: the deck after the call and the
    outcome of the call.  All the strings are parsed before the deck is
    touched. *)
Definition draw_specific (self : t) (card_strings : list string)
  : t * result (list Card.t) :=
  match parse_cards card_strings with
  | Raise e => (self, Raise e)
  | Ok wanted =>
      let '(self, r) := remove_each wanted self in
      (self, match r with Ok _ => Ok wanted | Raise e => Raise e end)
  end.

End Deck.

(** ** hand_rankings.py *)

Module HandRank.

Inductive t :=
  | HIGH_CARD | ONE_PAIR | TWO_PAIR | THREE_OF_A_KIND | STRAIGHT | FLUSH
  | FULL_HOUSE | FOUR_OF_A_KIND | STRAIGHT_FLUSH | ROYAL_FLUSH.

#[global] Instance eq_dec : EqDecision t.
Proof. solve_decision. Defined.

Definition value (r : t) : Z :=
  match r with
  | HIGH_CARD => 1 | ONE_PAIR => 2 | TWO_PAIR => 3 | THREE_OF_A_KIND => 4
  | STRAIGHT => 5 | FLUSH => 6 | FULL_HOUSE => 7 | FOUR_OF_A_KIND => 8
  | STRAIGHT_FLUSH => 9 | ROYAL_FLUSH => 10
  end.

(** [list(HandRank)] *)
Definition members : list t :=
  [HIGH_CARD; ONE_PAIR; TWO_PAIR; THREE_OF_A_KIND; STRAIGHT; FLUSH;
   FULL_HOUSE; FOUR_OF_A_KIND; STRAIGHT_FLUSH; ROYAL_FLUSH].

Definition display_name (r : t) : string :=
  match r with
  | HIGH_CARD => "High Card" | ONE_PAIR => "One Pair" | TWO_PAIR => "Two Pair"
  | THREE_OF_A_KIND => "Three of a Kind" | STRAIGHT => "Straight"
  | FLUSH => "Flush" | FULL_HOUSE => "Full House"
  | FOUR_OF_A_KIND => "Four of a Kind" | STRAIGHT_FLUSH => "Straight Flush"
  | ROYAL_FLUSH => "Royal Flush"
  end.

End HandRank.

(** ** hand_evaluator.py *)

Module EvaluatedHand.

Record t := mk {
  rank : HandRank.t;
  primary_values : list Z;
  kickers : list Z;
  cards : list Card.t
}.

Definition score (self : t) : list Z :=
  HandRank.value (rank self) :: primary_values self ++ kickers self.

(** [__lt__], [__gt__] and [__eq__] compare the score tuples. *)
Definition lt (self other : t) : bool := tuple_lt (score self) (score other).
Definition gt (self other : t) : bool := tuple_gt (score self) (score other).
Definition eq (self other : t) : bool := bool_decide (score self = score other).

End EvaluatedHand.

Module HandEvaluator.

Import EvaluatedHand.

(** The suits enter [set(suits)] by their integer value. *)
Definition suit_code (s : Suit.t) : Z := Suit.value s.

Definition _check_straight (ranks : list Z) : result (bool * Z) :=
  let unique_ranks := sorted_desc (elements (list_to_set ranks : gset Z)) in
  if negb (length unique_ranks =? 5)%nat then mret (false, 0)
  else
    hi ← getitem unique_ranks 0;
    lo ← getitem unique_ranks 4;
    if hi - lo =? 4 then mret (true, hi)
    else if bool_decide (unique_ranks = [14; 5; 4; 3; 2]) then mret (true, 5)
    else mret (false, 0).

(** [[r for r, c in rank_counts.items() if c == n]] *)
Definition ranks_with_count (rank_counts : list (Z * nat)) (n : nat) : list Z :=
  map fst (filter (fun rc => snd rc = n) rank_counts).

(** [n in rank_counts.values()] *)
Definition has_count (rank_counts : list (Z * nat)) (n : nat) : bool :=
  bool_decide (n ∈ map snd rank_counts).

Definition _evaluate_five (cards : list Card.t) : result EvaluatedHand.t :=
  let ranks := sorted_desc (map (fun c => Rank.value (Card.rank c)) cards) in
  let suits := map Card.suit cards in
  let rank_counts := Counter ranks in
  let is_flush :=
    bool_decide (size (list_to_set (map suit_code suits) : gset Z) = 1%nat) in
  '(is_straight, straight_high) ← _check_straight ranks;
  if is_flush && is_straight then
    if straight_high =? 14 then
      mret (mk HandRank.ROYAL_FLUSH [14] [] cards)
    else
      mret (mk HandRank.STRAIGHT_FLUSH [straight_high] [] cards)
  else if has_count rank_counts 4 then
    quad_rank ← getitem (ranks_with_count rank_counts 4) 0;
    kicker ← getitem (filter (fun r => r ≠ quad_rank) ranks) 0;
    mret (mk HandRank.FOUR_OF_A_KIND [quad_rank] [kicker] cards)
  else if has_count rank_counts 3 && has_count rank_counts 2 then
    trips_rank ← getitem (ranks_with_count rank_counts 3) 0;
    pair_rank ← getitem (ranks_with_count rank_counts 2) 0;
    mret (mk HandRank.FULL_HOUSE [trips_rank; pair_rank] [] cards)
  else if is_flush then
    mret (mk HandRank.FLUSH ranks [] cards)
  else if is_straight then
    mret (mk HandRank.STRAIGHT [straight_high] [] cards)
  else if has_count rank_counts 3 then
    trips_rank ← getitem (ranks_with_count rank_counts 3) 0;
    let kickers := sorted_desc (filter (fun r => r ≠ trips_rank) ranks) in
    mret (mk HandRank.THREE_OF_A_KIND [trips_rank] kickers cards)
  else
    let pairs := ranks_with_count rank_counts 2 in
    if (length pairs =? 2)%nat then
      let pairs := sorted_desc pairs in
      kicker ← getitem (filter (fun r => r ∉ pairs) ranks) 0;
      mret (mk HandRank.TWO_PAIR pairs [kicker] cards)
    else if (length pairs =? 1)%nat then
      pair_rank ← getitem pairs 0;
      let kickers := sorted_desc (filter (fun r => r ≠ pair_rank) ranks) in
      mret (mk HandRank.ONE_PAIR [pair_rank] kickers cards)
    else
      top ← getitem ranks 0;
      mret (mk HandRank.HIGH_CARD [top] (drop 1 ranks) cards).

(** One turn of the loop over the 5-card combinations: [best_hand] is
    replaced when it is [None] or when the new hand is strictly greater. *)
Definition keep_best (best_hand : option EvaluatedHand.t) (combo : list Card.t)
  : result (option EvaluatedHand.t) :=
  hand ← _evaluate_five combo;
  match best_hand with
  | None => mret (Some hand)
  | Some b => mret (if gt hand b then Some hand else Some b)
  end.

Fixpoint best_of (combos : list (list Card.t)) (best_hand : option EvaluatedHand.t)
  : result (option EvaluatedHand.t) :=
  match combos with
  | [] => mret best_hand
  | combo :: rest => b ← keep_best best_hand combo; best_of rest b
  end.

(** The returned value is [best_hand], an [Optional[EvaluatedHand]]. *)
Definition evaluate (cards : list Card.t) : result (option EvaluatedHand.t) :=
  if (length cards <? 5)%nat then Raise ValueError
  else if (length cards =? 5)%nat then Some <$> _evaluate_five cards
  else best_of (combinations cards 5) None.

(** [eval1 > eval2] and [eval1 < eval2] on the results of [evaluate]: a [None]
    operand has no [score] attribute (or, with [None] on both sides, no
    ordering at all). *)
Definition compare_evaluated (eval1 eval2 : option EvaluatedHand.t) : result Z :=
  match eval1, eval2 with
  | Some e1, Some e2 =>
      if gt e1 e2 then mret 1
      else if lt e1 e2 then mret (-1)
      else mret 0
  | None, None => Raise TypeError
  | _, _ => Raise AttributeError
  end.

Definition compare_hands (hand1 hand2 : list Card.t) : result Z :=
  eval1 ← evaluate hand1;
  eval2 ← evaluate hand2;
  compare_evaluated eval1 eval2.

End HandEvaluator.

(** ** starting_hands.py *)

Module HandCategory.

Inductive t := PREMIUM | STRONG | PLAYABLE | MARGINAL | WEAK.

#[global] Instance eq_dec : EqDecision t.
Proof. solve_decision. Defined.

Definition value (c : t) : Z :=
  match c with PREMIUM => 4 | STRONG => 3 | PLAYABLE => 2 | MARGINAL => 1 | WEAK => 0 end.

End HandCategory.

Module StartingHand.

Record t := mk { card1 : string; card2 : string; suited : bool }.

Definition notation (self : t) : string :=
  if decide (card1 self = card2 self) then card1 self +:+ card2 self
  else
    let suffix := if suited self then "s" else "o" in
    card1 self +:+ card2 self +:+ suffix.

End StartingHand.

Module StartingHands.

Definition PREMIUM : gset string := {[ "AA"; "KK"; "QQ"; "AKs" ]}.

Definition STRONG : gset string :=
  {[ "JJ"; "TT"; "AKo"; "AQs"; "AQo"; "AJs"; "KQs" ]}.

Definition PLAYABLE : gset string :=
  {[ "99"; "88"; "77"; "ATs"; "AJo"; "KQo"; "KJs"; "KTs"; "QJs"; "QTs";
     "JTs"; "T9s"; "98s"; "87s"; "76s" ]}.

Definition MARGINAL : gset string :=
  {[ "66"; "55"; "44"; "33"; "22"; "A9s"; "A8s"; "A7s"; "A6s"; "A5s"; "A4s";
     "A3s"; "A2s"; "ATo"; "KJo"; "KTo"; "QJo"; "QTo"; "JTo"; "K9s"; "Q9s";
     "J9s"; "T8s"; "97s"; "86s"; "75s"; "65s"; "54s" ]}.

Definition RANK_ORDER : string := "AKQJT98765432".

Definition category_of_notation (notation : string) : HandCategory.t :=
  if decide (notation ∈ PREMIUM) then HandCategory.PREMIUM
  else if decide (notation ∈ STRONG) then HandCategory.STRONG
  else if decide (notation ∈ PLAYABLE) then HandCategory.PLAYABLE
  else if decide (notation ∈ MARGINAL) then HandCategory.MARGINAL
  else HandCategory.WEAK.

Definition get_category (hand : StartingHand.t) : HandCategory.t :=
  category_of_notation (StartingHand.notation hand).

Definition from_cards (card1 card2 : Card.t) : StartingHand.t :=
  let r1 := Card.rank card1 in
  let r2 := Card.rank card2 in
  let '(r1, r2) := if Rank.value r2 >? Rank.value r1 then (r2, r1) else (r1, r2) in
  let suited := bool_decide (Card.suit card1 = Card.suit card2) in
  StartingHand.mk (Rank.symbol r1) (Rank.symbol r2) suited.

Definition from_notation (notation : string) : result StartingHand.t :=
  if (String.length notation =? 2)%nat then
    c1 ← str_getitem notation 0;
    c2 ← str_getitem notation 1;
    mret (StartingHand.mk c1 c2 false)
  else if (String.length notation =? 3)%nat then
    c3 ← str_getitem notation 2;
    let suited := bool_decide (lower c3 = "s") in
    c1 ← str_getitem notation 0;
    c2 ← str_getitem notation 1;
    mret (StartingHand.mk c1 c2 suited)
  else Raise ValueError.

Definition _notation_to_cards (hand : StartingHand.t) : rnd (list Card.t) :=
  rank1 ← lift (Rank.from_symbol (StartingHand.card1 hand));
  rank2 ← lift (Rank.from_symbol (StartingHand.card2 hand));
  suits ← shuffle Suit.members;
  if StartingHand.suited hand then
    suit ← lift (getitem suits 0);
    mret [Card.mk rank1 suit; Card.mk rank2 suit]
  else
    s0 ← lift (getitem suits 0);
    s1 ← lift (getitem suits 1);
    mret [Card.mk rank1 s0; Card.mk rank2 s1].

Definition get_category_name (category : HandCategory.t) : string :=
  match category with
  | HandCategory.PREMIUM => "Premium"
  | HandCategory.STRONG => "Strong"
  | HandCategory.PLAYABLE => "Playable"
  | HandCategory.MARGINAL => "Marginal"
  | HandCategory.WEAK => "Weak"
  end.

(** The [category_hands] dict of [generate_random]: it has no entry for the
    weak category. *)
Definition category_hands (category : HandCategory.t) : option (gset string) :=
  match category with
  | HandCategory.PREMIUM => Some PREMIUM
  | HandCategory.STRONG => Some STRONG
  | HandCategory.PLAYABLE => Some PLAYABLE
  | HandCategory.MARGINAL => Some MARGINAL
  | HandCategory.WEAK => None
  end.

(** [PREMIUM | STRONG | PLAYABLE | MARGINAL] *)
Definition categorized : gset string := PREMIUM ∪ STRONG ∪ PLAYABLE ∪ MARGINAL.

(** The [while True] loop that draws a weak hand: two rank indices put in
    order, a suitedness, and the notation they spell; the loop ends on the
    first notation outside the four sets. *)
Fixpoint random_weak_hand (fuel : nat) : rnd StartingHand.t :=
  match fuel with
  | O => diverge
  | S fuel' =>
      r1_idx ← randint 0 12;
      r2_idx ← randint 0 12;
      let '(r1_idx, r2_idx) :=
        if r1_idx >? r2_idx then (r2_idx, r1_idx) else (r1_idx, r2_idx) in
      c1 ← lift (str_getitem RANK_ORDER (Z.to_nat r1_idx));
      c2 ← lift (str_getitem RANK_ORDER (Z.to_nat r2_idx));
      suited ← choice [true; false];
      let notation :=
        if decide (c1 = c2) then c1 +:+ c2
        else c1 +:+ c2 +:+ (if suited : bool then "s" else "o") in
      if decide (notation ∉ categorized) then lift (from_notation notation)
      else random_weak_hand fuel'
  end.

(** [list(some_set)] lists the set in an order of its own; every order is
    covered by the draws of [random.choice]. *)
Definition generate_random (fuel : nat) (category : option HandCategory.t)
  : rnd (StartingHand.t * list Card.t) :=
  hand ← match category with
         | Some category =>
             if decide (category = HandCategory.WEAK) then random_weak_hand fuel
             else
               hands ← lift (match category_hands category with
                             | Some hands => Ok hands
                             | None => Raise KeyError
                             end);
               notation ← choice (elements hands);
               lift (from_notation notation)
         | None =>
             notation ← choice (elements categorized);
             lift (from_notation notation)
         end;
  cards ← _notation_to_cards hand;
  mret (hand, cards).

Definition should_play (hand : StartingHand.t) (position : string) : bool :=
  let category := HandCategory.value (get_category hand) in
  if decide (position = "early") then
    HandCategory.value HandCategory.STRONG <=? category
  else if decide (position = "middle") then
    HandCategory.value HandCategory.PLAYABLE <=? category
  else if decide (position = "late" ∨ position = "blinds") then
    HandCategory.value HandCategory.MARGINAL <=? category
  else HandCategory.value HandCategory.PLAYABLE <=? category.

End StartingHands.

(** ** question_generator.py *)

Module GeneratedQuestion.

(** The identifier, the explanation text and the audit payload are computed
    from the fields kept here and are never read back by the engine. *)
Record t := mk {
  question_type : string;
  prompt : string;
  cards : list Card.t;
  cards2 : option (list Card.t);
  choices : list string;
  correct_answer : string;
  difficulty : Z
}.

End GeneratedQuestion.

Module QuestionGenerator.

(** [while cond: body] over the variables [s] of the loop. *)
Fixpoint while {S : Type} (fuel : nat) (cond : S -> result bool)
    (body : S -> rnd S) (s : S) : rnd S :=
  match fuel with
  | O => diverge
  | S fuel' =>
      c ← lift (cond s);
      if c : bool then s' ← body s; while fuel' cond body s' else mret s
  end.

(** [range(high, high - 5, -1)] *)
Definition range_down5 (high : Z) : list Z :=
  map (fun i => high - Z.of_nat i) (seq 0 5).

(** [sorted(ranks, reverse=True)] on rank members. *)
Definition sorted_ranks_desc (ranks : list Rank.t) : list Rank.t :=
  sorted_by (fun r => - Rank.value r) ranks.

(** [[r for r in Rank if r != rank]] *)
Definition ranks_other_than (rank : Rank.t) : list Rank.t :=
  filter (fun r => r ≠ rank) Rank.members.

(** [[random.choice(suits) for _ in range(5)]] *)
Definition five_suits (suits : list Suit.t) : rnd (list Suit.t) :=
  mapM (fun _ => choice suits) (seq 0 5).

(** [len(set(card_suits)) == 1] *)
Definition one_suit (card_suits : list Suit.t) : bool :=
  bool_decide (size (list_to_set (map Suit.value card_suits) : gset Z) = 1%nat).

(** [ranks[0].value - ranks[4].value == 4] *)
Definition spans_four (ranks : list Rank.t) : result bool :=
  hi ← getitem ranks 0;
  lo ← getitem ranks 4;
  mret (Rank.value hi - Rank.value lo =? 4).

(** [zip] of ranks and suits into cards. *)
Definition zip_cards (ranks : list Rank.t) (card_suits : list Suit.t) : list Card.t :=
  zip_with Card.mk ranks card_suits.

(** Every constructor receives the deck and none of them reads it. *)

Definition _make_royal_flush (deck : Deck.t) : rnd (list Card.t) :=
  suit ← choice Suit.members;
  mret [Card.mk Rank.ACE suit; Card.mk Rank.KING suit; Card.mk Rank.QUEEN suit;
        Card.mk Rank.JACK suit; Card.mk Rank.TEN suit].

Definition _make_straight_flush (deck : Deck.t) : rnd (list Card.t) :=
  suit ← choice Suit.members;
  high_rank ← randint 5 9;
  lift (mapM (fun r => rk ← Rank.of_value r; mret (Card.mk rk suit))
             (range_down5 high_rank)).

Definition _make_four_of_a_kind (deck : Deck.t) : rnd (list Card.t) :=
  quad_rank ← choice Rank.members;
  let cards := map (Card.mk quad_rank) Suit.members in
  kicker_rank ← choice (ranks_other_than quad_rank);
  kicker_suit ← choice Suit.members;
  mret (take 5 (cards ++ [Card.mk kicker_rank kicker_suit])).

Definition _make_full_house (deck : Deck.t) : rnd (list Card.t) :=
  trips_rank ← choice Rank.members;
  pair_rank ← choice (ranks_other_than trips_rank);
  suits ← shuffle Suit.members;
  trips ← lift (mapM (fun i => s ← getitem suits i; mret (Card.mk trips_rank s)) (seq 0 3));
  pair ← lift (mapM (fun i => s ← getitem suits i; mret (Card.mk pair_rank s)) (seq 0 2));
  mret (trips ++ pair).

Definition _make_flush (fuel : nat) (deck : Deck.t) : rnd (list Card.t) :=
  suit ← choice Suit.members;
  available_ranks ← shuffle Rank.members;
  let ranks := sorted_ranks_desc (take 5 available_ranks) in
  '(_, ranks) ← while fuel (fun '(_, ranks) => spans_four ranks)
      (fun '(available_ranks, _) =>
         available_ranks ← shuffle available_ranks;
         mret (available_ranks, sorted_ranks_desc (take 5 available_ranks)))
      (available_ranks, ranks);
  mret (map (fun r => Card.mk r suit) ranks).

Definition _make_straight (fuel : nat) (deck : Deck.t) : rnd (list Card.t) :=
  high_rank ← randint 5 14;
  let ranks :=
    if high_rank =? 14 then [14; 13; 12; 11; 10]
    else if high_rank =? 5 then [5; 4; 3; 2; 14]
    else range_down5 high_rank in
  let suits := Suit.members in
  card_suits ← five_suits suits;
  card_suits ← while fuel (fun card_suits => mret (one_suit card_suits))
      (fun _ => five_suits suits) card_suits;
  rks ← lift (mapM Rank.of_value ranks);
  mret (zip_cards rks card_suits).

Definition _make_three_of_a_kind (deck : Deck.t) : rnd (list Card.t) :=
  trips_rank ← choice Rank.members;
  suits ← shuffle Suit.members;
  cards ← lift (mapM (fun i => s ← getitem suits i; mret (Card.mk trips_rank s)) (seq 0 3));
  other_ranks ← shuffle (ranks_other_than trips_rank);
  k0 ← lift (getitem other_ranks 0);
  s0 ← choice suits;
  k1 ← lift (getitem other_ranks 1);
  s1 ← choice suits;
  mret (cards ++ [Card.mk k0 s0] ++ [Card.mk k1 s1]).

Definition _make_two_pair (deck : Deck.t) : rnd (list Card.t) :=
  ranks ← sample Rank.members 3;
  pair1_rank ← lift (getitem ranks 0);
  pair2_rank ← lift (getitem ranks 1);
  kicker_rank ← lift (getitem ranks 2);
  suits ← shuffle Suit.members;
  s0 ← lift (getitem suits 0);
  s1 ← lift (getitem suits 1);
  s2 ← lift (getitem suits 2);
  s3 ← lift (getitem suits 3);
  sk ← choice suits;
  mret [Card.mk pair1_rank s0; Card.mk pair1_rank s1; Card.mk pair2_rank s2;
        Card.mk pair2_rank s3; Card.mk kicker_rank sk].

Definition _make_one_pair (deck : Deck.t) : rnd (list Card.t) :=
  pair_rank ← choice Rank.members;
  suits ← shuffle Suit.members;
  s0 ← lift (getitem suits 0);
  s1 ← lift (getitem suits 1);
  let cards := [Card.mk pair_rank s0; Card.mk pair_rank s1] in
  other_ranks ← shuffle (ranks_other_than pair_rank);
  kickers ← mapM (fun i => r ← lift (getitem other_ranks i); s ← choice suits;
                           mret (Card.mk r s)) (seq 0 3);
  mret (cards ++ kickers).

(** [set(ranks) == {14, 5, 4, 3, 2}] *)
Definition is_wheel_set (ranks : list Rank.t) : bool :=
  bool_decide ((list_to_set (map Rank.value ranks) : gset Z) = {[ 14; 5; 4; 3; 2 ]}).

Definition _make_high_card (fuel : nat) (deck : Deck.t) : rnd (list Card.t) :=
  available_ranks ← shuffle Rank.members;
  let ranks := sorted_ranks_desc (take 5 available_ranks) in
  '(_, ranks) ← while fuel
      (fun '(_, ranks) => run ← spans_four ranks; mret (run || is_wheel_set ranks))
      (fun '(available_ranks, _) =>
         available_ranks ← shuffle available_ranks;
         mret (available_ranks, sorted_ranks_desc (take 5 available_ranks)))
      (available_ranks, ranks);
  let suits := Suit.members in
  card_suits ← five_suits suits;
  card_suits ← while fuel (fun card_suits => mret (one_suit card_suits))
      (fun _ => five_suits suits) card_suits;
  mret (zip_cards ranks card_suits).

(** The loop that drops the excluded cards from the deck, run when
    [exclude_cards] is a non-empty list. *)
Definition remove_excluded (deck : Deck.t) (exclude_cards : option (list Card.t)) : Deck.t :=
  match exclude_cards with
  | Some (_ :: _ as ex) =>
      fold_left (fun d card =>
                   if decide (card ∈ Deck.cards d)
                   then Deck.mk (list_remove card (Deck.cards d)) else d)
                ex deck
  | _ => deck
  end.

Definition make_hand (fuel : nat) (target_rank : HandRank.t) (deck : Deck.t)
  : rnd (list Card.t) :=
  match target_rank with
  | HandRank.ROYAL_FLUSH => _make_royal_flush deck
  | HandRank.STRAIGHT_FLUSH => _make_straight_flush deck
  | HandRank.FOUR_OF_A_KIND => _make_four_of_a_kind deck
  | HandRank.FULL_HOUSE => _make_full_house deck
  | HandRank.FLUSH => _make_flush fuel deck
  | HandRank.STRAIGHT => _make_straight fuel deck
  | HandRank.THREE_OF_A_KIND => _make_three_of_a_kind deck
  | HandRank.TWO_PAIR => _make_two_pair deck
  | HandRank.ONE_PAIR => _make_one_pair deck
  | HandRank.HIGH_CARD => _make_high_card fuel deck
  end.

(** [eval_result.rank] on the value returned by [evaluate]. *)
Definition rank_of (eval_result : option EvaluatedHand.t) : result HandRank.t :=
  match eval_result with
  | Some e => Ok (EvaluatedHand.rank e)
  | None => Raise AttributeError
  end.

(** The [for _ in range(max_attempts)] loop; [None] when it runs out. *)
Fixpoint attempts (n : nat) (fuel : nat) (target_rank : HandRank.t)
    (exclude_cards : option (list Card.t)) (deck : Deck.t)
  : rnd (option (list Card.t) * Deck.t) :=
  match n with
  | O => mret (None, deck)
  | S n' =>
      deck ← Deck.reset deck;
      let deck := remove_excluded deck exclude_cards in
      cards ← make_hand fuel target_rank deck;
      found ← match cards with
              | [] => mret false
              | _ => eval_result ← lift (HandEvaluator.evaluate cards);
                     r ← lift (rank_of eval_result);
                     mret (bool_decide (r = target_rank))
              end;
      if found : bool then mret (Some cards, deck)
      else attempts n' fuel target_rank exclude_cards deck
  end.

Definition max_attempts : nat := 100.

Definition _generate_hand_of_rank (fuel : nat) (target_rank : HandRank.t)
    (exclude_cards : option (list Card.t)) : rnd (list Card.t) :=
  deck ← Deck.new;
  let deck := remove_excluded deck exclude_cards in
  '(found, deck) ← attempts max_attempts fuel target_rank exclude_cards deck;
  match found with
  | Some cards => mret cards
  | None =>
      deck ← Deck.reset deck;
      '(drawn, _) ← lift (Deck.draw deck 5);
      mret drawn
  end.

Definition _generate_which_wins_question (fuel : nat) (difficulty : Z)
  : rnd GeneratedQuestion.t :=
  '(rank1, rank2) ←
    (if difficulty <=? 2 then
       rank1 ← choice [HandRank.ONE_PAIR; HandRank.TWO_PAIR; HandRank.FLUSH];
       let rank2_options :=
         filter (fun r => 2 ≤ Z.abs (HandRank.value r - HandRank.value rank1))
                HandRank.members in
       rank2 ← match rank2_options with
               | [] => mret HandRank.HIGH_CARD
               | _ => choice rank2_options
               end;
       mret (rank1, rank2)
     else
       rank1 ← choice HandRank.members;
       mret (rank1, rank1));
  cards1 ← _generate_hand_of_rank fuel rank1 None;
  cards2 ← _generate_hand_of_rank fuel rank2 (Some cards1);
  eval1 ← lift (HandEvaluator.evaluate cards1);
  eval2 ← lift (HandEvaluator.evaluate cards2);
  correct ← lift (match eval1, eval2 with
                  | Some e1, Some e2 =>
                      if EvaluatedHand.gt e1 e2 then mret "Hand 1"
                      else if EvaluatedHand.gt e2 e1 then mret "Hand 2"
                      else mret "Tie"
                  | None, None => Raise TypeError
                  | _, _ => Raise AttributeError
                  end);
  mret (GeneratedQuestion.mk "which_wins" "Which hand wins?" cards1 (Some cards2)
          ["Hand 1"; "Hand 2"; "Tie"] correct difficulty).

Definition QUESTION_TYPES : list string :=
  ["hand_ranking"; "which_wins"; "starting_hand"].

Definition POSITIONS : list string := ["early"; "middle"; "late"; "blinds"].

(** The ranks a hand-ranking question may target at a difficulty. *)
Definition target_ranks (difficulty : Z) : list HandRank.t :=
  if difficulty <=? 2 then
    [HandRank.ONE_PAIR; HandRank.TWO_PAIR; HandRank.THREE_OF_A_KIND;
     HandRank.STRAIGHT; HandRank.FLUSH; HandRank.FULL_HOUSE]
  else if difficulty <=? 4 then HandRank.members
  else
    [HandRank.HIGH_CARD; HandRank.ONE_PAIR; HandRank.TWO_PAIR;
     HandRank.STRAIGHT; HandRank.FLUSH].

(** [[r for r in HandRank if abs(r.value - target.value) <= 2 and r != target]] *)
Definition nearby_ranks (target_rank : HandRank.t) : list HandRank.t :=
  filter (fun r => Z.abs (HandRank.value r - HandRank.value target_rank) ≤ 2
                   ∧ r ≠ target_rank)
         HandRank.members.

(** One turn of the loop that fills the choices up to four. *)
Definition fill_choice (choices : list string) : rnd (list string) :=
  r ← choice HandRank.members;
  if decide (HandRank.display_name r ∉ choices)
  then mret (choices ++ [HandRank.display_name r])
  else mret choices.

Definition _generate_hand_ranking_question (fuel : nat) (difficulty : Z)
  : rnd GeneratedQuestion.t :=
  target_rank ← choice (target_ranks difficulty);
  cards ← _generate_hand_of_rank fuel target_rank None;
  let choices := [HandRank.display_name target_rank] in
  let nearby := nearby_ranks target_rank in
  picked ← sample nearby (Nat.min 2 (length nearby));
  let choices := choices ++ map HandRank.display_name picked in
  choices ← while fuel (fun choices => mret (length choices <? 4)%nat)
                 fill_choice choices;
  choices ← shuffle choices;
  mret (GeneratedQuestion.mk "hand_ranking" "What hand is this?" cards None
          choices (HandRank.display_name target_rank) difficulty).

(** The categories a starting-hand question may draw at a difficulty. *)
Definition categories_for (difficulty : Z) : list HandCategory.t :=
  if difficulty <=? 2 then
    [HandCategory.PREMIUM; HandCategory.STRONG; HandCategory.WEAK]
  else if difficulty <=? 4 then
    [HandCategory.PLAYABLE; HandCategory.MARGINAL; HandCategory.WEAK]
  else [HandCategory.MARGINAL; HandCategory.WEAK].

Definition _generate_starting_hand_question (fuel : nat) (difficulty : Z)
  : rnd GeneratedQuestion.t :=
  category ← choice (categories_for difficulty);
  '(hand, cards) ← StartingHands.generate_random fuel (Some category);
  if 3 <=? difficulty then
    position ← choice POSITIONS;
    let should_play := StartingHands.should_play hand position in
    let prompt := "Should you play " +:+ StartingHand.notation hand +:+ " from "
                  +:+ position +:+ " position?" in
    mret (GeneratedQuestion.mk "starting_hand" prompt cards None ["Play"; "Fold"]
            (if should_play then "Play" else "Fold") difficulty)
  else
    let prompt := "How strong is " +:+ StartingHand.notation hand +:+ "?" in
    mret (GeneratedQuestion.mk "starting_hand" prompt cards None
            ["Premium"; "Strong"; "Playable"; "Marginal"; "Weak"]
            (StartingHands.get_category_name category) difficulty).

(** The [generators] dict of [generate]. *)
Definition generators : gmap string (nat -> Z -> rnd GeneratedQuestion.t) :=
  {[ "hand_ranking" := _generate_hand_ranking_question;
     "which_wins" := _generate_which_wins_question;
     "starting_hand" := _generate_starting_hand_question ]}.

Definition generate (fuel : nat) (question_type : string) (difficulty : Z)
  : rnd GeneratedQuestion.t :=
  match generators !! question_type with
  | None => lift (Raise ValueError)
  | Some generator => generator fuel difficulty
  end.

(** [exclude_types or []]: no list and the empty list exclude nothing. *)
Definition generate_random (fuel : nat) (difficulty : Z)
    (exclude_types : option (list string)) : rnd GeneratedQuestion.t :=
  let excluded := default [] exclude_types in
  let types := filter (fun t => t ∉ excluded) QUESTION_TYPES in
  question_type ← choice types;
  generate fuel question_type difficulty.

End QuestionGenerator.

(** ** Python [float]: IEEE binary64 *)

Module Float.

Definition prec : Z := 53.
Definition emax : Z := 1024.

(** An integer read as a binary64 number with exponent 0; the arithmetic
    below rounds once, from the exact result, as [int / int] does. *)
Definition of_int (n : Z) : spec_float :=
  match n with
  | Z0 => S754_zero false
  | Zpos p => S754_finite false p 0
  | Zneg p => S754_finite true p 0
  end.

(** The float nearest to an integer. *)
Definition const (n : Z) : spec_float := binary_normalize prec emax n 0 false.

(** [a / b] on integers, for [b] other than zero. *)
Definition truediv (a b : Z) : spec_float := SFdiv prec emax (of_int a) (of_int b).

Definition mul (x y : spec_float) : spec_float := SFmul prec emax x y.

Definition ltb (x y : spec_float) : bool := SFltb x y.
Definition geb (x y : spec_float) : bool := SFleb y x.

End Float.

(** ** models/training.py *)

Module KnowledgeScore.

(** A row of [knowledge_scores]; [last_reviewed] is a clock reading. *)
Record t := mk {
  user_id : string;
  topic : string;
  total_attempts : Z;
  correct_attempts : Z;
  current_streak : Z;
  best_streak : Z;
  current_difficulty : Z;
  last_reviewed : Z
}.

Definition accuracy (self : t) : spec_float :=
  if total_attempts self =? 0 then S754_zero false
  else Float.mul (Float.truediv (correct_attempts self) (total_attempts self))
                 (Float.const 100).

End KnowledgeScore.

Module QuestionAttempt.

(** A row of [question_attempts], without its opaque payload. *)
Record t := mk {
  user_id : string;
  question_type : string;
  correct : bool;
  response_time_ms : option Z;
  difficulty : Z;
  created_at : Z
}.

End QuestionAttempt.

(** The database session: the two tables, rows in insertion order. *)
Module Session.

Record t := mk {
  knowledge_scores : list KnowledgeScore.t;
  question_attempts : list QuestionAttempt.t
}.

Definition empty : t := mk [] [].

End Session.

(** ** progression.py *)

Module ProgressionEngine.

Definition ACCURACY_INCREASE_THRESHOLD : Z := 80.
Definition ACCURACY_DECREASE_THRESHOLD : Z := 50.
Definition STREAK_FOR_INCREASE : Z := 5.
Definition MIN_ATTEMPTS_FOR_ADJUSTMENT : Z := 5.
Definition MAX_DIFFICULTY : Z := 5.
Definition MIN_DIFFICULTY : Z := 1.

Definition TOPICS : list string := ["hand_ranking"; "which_wins"; "starting_hand"].

Definition default_user_id : string := "anonymous".

(** [user_id or settings.default_user_id] *)
Definition user_or_default (user_id : option string) : string :=
  match user_id with
  | None => default_user_id
  | Some u => if decide (u = EmptyString) then default_user_id else u
  end.

Definition matches (user_id topic : string) (s : KnowledgeScore.t) : bool :=
  bool_decide (KnowledgeScore.user_id s = user_id) &&
  bool_decide (KnowledgeScore.topic s = topic).

(** Position of the first row with the given predicate, as [.first()]
    finds it. *)
Fixpoint first_index {A} (p : A -> bool) (l : list A) : option nat :=
  match l with
  | [] => None
  | x :: l' => if p x then Some O else S <$> first_index p l'
  end.

(** Returns the session, the position of the row and the row itself: the
    caller's later assignments to the row land at that position. *)
Definition get_or_create_score (db : Session.t) (topic : string)
    (user_id : option string) (now : Z) : Session.t * nat * KnowledgeScore.t :=
  let user_id := user_or_default user_id in
  let rows := Session.knowledge_scores db in
  match first_index (matches user_id topic) rows with
  | Some i =>
      (db, i, default (KnowledgeScore.mk user_id topic 0 0 0 0 1 now) (rows !! i))
  | None =>
      let score := KnowledgeScore.mk user_id topic 0 0 0 0 1 now in
      (Session.mk (rows ++ [score]) (Session.question_attempts db), length rows, score)
  end.

Definition _calculate_new_difficulty (score : KnowledgeScore.t) : Z :=
  let current := KnowledgeScore.current_difficulty score in
  if KnowledgeScore.total_attempts score <? MIN_ATTEMPTS_FOR_ADJUSTMENT then current
  else
    let accuracy := KnowledgeScore.accuracy score in
    if Float.geb accuracy (Float.const ACCURACY_INCREASE_THRESHOLD)
       || (STREAK_FOR_INCREASE <=? KnowledgeScore.current_streak score)
    then Z.min (current + 1) MAX_DIFFICULTY
    else if Float.ltb accuracy (Float.const ACCURACY_DECREASE_THRESHOLD)
    then Z.max (current - 1) MIN_DIFFICULTY
    else current.

(** The assignments of [record_attempt] to the score it holds, in order. *)
Definition update_score (score : KnowledgeScore.t) (correct : bool) (now : Z)
  : KnowledgeScore.t :=
  let '(KnowledgeScore.mk u tp total corr streak best diff _) := score in
  let total := total + 1 in
  let '(corr, streak, best) :=
    if correct then
      let corr := corr + 1 in
      let streak := streak + 1 in
      (corr, streak, if streak >? best then streak else best)
    else (corr, 0, best) in
  let score := KnowledgeScore.mk u tp total corr streak best diff now in
  KnowledgeScore.mk u tp total corr streak best (_calculate_new_difficulty score) now.

Definition record_attempt (db : Session.t) (question_type : string) (correct : bool)
    (response_time_ms : option Z) (difficulty : Z) (user_id : option string)
    (now : Z) : Session.t * KnowledgeScore.t :=
  let user_id' := user_or_default user_id in
  let attempt :=
    QuestionAttempt.mk user_id' question_type correct response_time_ms difficulty now in
  let db := Session.mk (Session.knowledge_scores db)
                       (Session.question_attempts db ++ [attempt]) in
  let '(db, i, score) := get_or_create_score db question_type (Some user_id') now in
  let score := update_score score correct now in
  (Session.mk (<[i := score]> (Session.knowledge_scores db))
              (Session.question_attempts db), score).

(** The loop over the user's scores: [(weakest, lowest_accuracy)]. *)
Definition weakest_step (acc : option string * spec_float) (score : KnowledgeScore.t)
  : option string * spec_float :=
  let '(weakest, lowest_accuracy) := acc in
  if (3 <=? KnowledgeScore.total_attempts score)
     && Float.ltb (KnowledgeScore.accuracy score) lowest_accuracy
  then (Some (KnowledgeScore.topic score), KnowledgeScore.accuracy score)
  else (weakest, lowest_accuracy).

Definition get_recommended_topic (db : Session.t) (user_id : option string)
  : result string :=
  let user_id := user_or_default user_id in
  let scores :=
    filter (fun s => KnowledgeScore.user_id s = user_id) (Session.knowledge_scores db) in
  match scores with
  | [] => mret "hand_ranking"
  | _ =>
      let '(weakest, _) := fold_left weakest_step scores (None, Float.const 100) in
      match weakest with
      | None =>
          let practiced_topics : gset string :=
            list_to_set (map KnowledgeScore.topic scores) in
          match find (fun topic => bool_decide (topic ∉ practiced_topics)) TOPICS with
          | Some topic => mret topic
          | None =>
              let scores := sorted_by KnowledgeScore.total_attempts scores in
              KnowledgeScore.topic <$> getitem scores 0
          end
      | Some topic => mret topic
      end
  end.

(** Deletes the attempts, then the scores, of the user. *)
Definition reset_stats (db : Session.t) (user_id : option string) : Session.t * bool :=
  let user_id := user_or_default user_id in
  let attempts :=
    filter (fun a => QuestionAttempt.user_id a ≠ user_id) (Session.question_attempts db) in
  let scores :=
    filter (fun s => KnowledgeScore.user_id s ≠ user_id) (Session.knowledge_scores db) in
  (Session.mk scores attempts, true).

End ProgressionEngine.

(** ** Notions used to state the properties *)

(** [a] is not above [b] in the order of score tuples. *)
Definition tuple_le (a b : list Z) : Prop := tuple_compare a b ≠ Gt.

(** Number of occurrences of [r] in [l]. *)
Definition occ (r : Z) (l : list Z) : nat := length (filter (λ x, x = r) l).

(** Pascal's rule, for the number of [k]-element combinations of [n] items. *)
Fixpoint binom (n k : nat) : nat :=
  match k, n with
  | O, _ => 1
  | S _, O => 0
  | S k', S n' => binom n' k' + binom n' k
  end.

(** [h] is the hand kept by a scan of [combos]: it is the evaluation of
    [combos[i]], no combination evaluates above it, and every combination
    before position [i] evaluates strictly below it. *)
Definition first_best (combos : list (list Card.t)) (h : EvaluatedHand.t) (i : nat) : Prop :=
  combos !! i = Some (EvaluatedHand.cards h) ∧
  HandEvaluator._evaluate_five (EvaluatedHand.cards h) = Ok h ∧
  ∀ j c h', combos !! j = Some c → HandEvaluator._evaluate_five c = Ok h' →
    tuple_le (EvaluatedHand.score h') (EvaluatedHand.score h) ∧
    ((j < i)%nat → tuple_compare (EvaluatedHand.score h') (EvaluatedHand.score h) = Lt).


(** The integer [compare_hands] returns for an outcome of the comparison. *)
Definition sign_of (c : comparison) : Z :=
  match c with Gt => 1 | Lt => -1 | Eq => 0 end.

(** Sample hands. *)
Definition card (r : Rank.t) (s : Suit.t) : Card.t := Card.mk r s.

Definition six_cards : list Card.t :=
  [card Rank.ACE Suit.HEARTS; card Rank.KING Suit.HEARTS; card Rank.QUEEN Suit.HEARTS;
   card Rank.JACK Suit.HEARTS; card Rank.TEN Suit.HEARTS; card Rank.TWO Suit.DIAMONDS].

Definition seven_cards : list Card.t := six_cards ++ [card Rank.THREE Suit.CLUBS].

Definition eight_cards : list Card.t := seven_cards ++ [card Rank.TWO Suit.SPADES].

Definition pair_of_aces : list Card.t :=
  [card Rank.ACE Suit.HEARTS; card Rank.ACE Suit.DIAMONDS; card Rank.KING Suit.CLUBS;
   card Rank.QUEEN Suit.SPADES; card Rank.JACK Suit.HEARTS].


(** *** Progression *)

(** The accuracy of the specification: [correct / total × 100], 0 when
    nothing was attempted, computed in floating point like the code's. *)
Definition rule_accuracy (correct total : Z) : spec_float :=
  if total =? 0 then S754_zero false
  else Float.mul (Float.truediv correct total) (Float.const 100).

(** The difficulty transition rule, steps 3 to 6 of the specification,
    applied to the counters after their update. *)
Definition difficulty_rule (old total correct streak : Z) : Z :=
  if total <? 5 then old
  else if Float.geb (rule_accuracy correct total) (Float.const 80) || (5 <=? streak)
  then Z.min (old + 1) 5
  else if Float.ltb (rule_accuracy correct total) (Float.const 50)
  then Z.max (old - 1) 1
  else old.

(** The invariant of a score row. *)
Definition score_invariant (s : KnowledgeScore.t) : Prop :=
  0 ≤ KnowledgeScore.total_attempts s ∧
  KnowledgeScore.correct_attempts s ≤ KnowledgeScore.total_attempts s ∧
  0 ≤ KnowledgeScore.current_streak s ∧
  KnowledgeScore.current_streak s ≤ KnowledgeScore.best_streak s ∧
  1 ≤ KnowledgeScore.current_difficulty s ≤ 5.

(** The sessions reached from the empty database by recording attempts. *)
Inductive reachable : Session.t → Prop :=
  | reachable_empty : reachable Session.empty
  | reachable_record db question_type correct response_time_ms difficulty user_id now :
      reachable db →
      reachable (ProgressionEngine.record_attempt db question_type correct
                   response_time_ms difficulty user_id now).1.

(** The rows of one user, as the query of [get_recommended_topic] lists them. *)
Definition scores_of (db : Session.t) (user_id : option string) : list KnowledgeScore.t :=
  filter (λ s, KnowledgeScore.user_id s = ProgressionEngine.user_or_default user_id)
         (Session.knowledge_scores db).

(** A row that the weakest-topic scan can select. *)
Definition weak_candidate (s : KnowledgeScore.t) : Prop :=
  3 ≤ KnowledgeScore.total_attempts s ∧
  Float.ltb (KnowledgeScore.accuracy s) (Float.const 100) = true.

(** A user with one topic, answered three times, always correctly. *)
Definition perfect_db : Session.t :=
  Session.mk [KnowledgeScore.mk "anonymous" "hand_ranking" 3 3 3 3 1 0] [].

(** A user with two practised topics, one of them weak. *)
Definition mixed_db : Session.t :=
  Session.mk [KnowledgeScore.mk "anonymous" "hand_ranking" 4 3 0 3 1 0;
              KnowledgeScore.mk "anonymous" "which_wins" 5 1 0 1 1 0] [].

(** The session after a correct and then an incorrect answer on one topic. *)
Definition two_attempts_db : Session.t :=
  (ProgressionEngine.record_attempt
     (ProgressionEngine.record_attempt Session.empty "hand_ranking" true None 1 None 0).1
     "hand_ranking" false None 1 None 1).1.

(** The fallback of [get_recommended_topic] when the scan selects nothing:
    the default topic without history, else the first topic of the fixed
    order that has no row, else the topic of the first row with the fewest
    attempts. *)
Definition fallback_topic (scores : list KnowledgeScore.t) : result string :=
  match scores with
  | [] => Ok "hand_ranking"
  | _ =>
      match find (λ topic, bool_decide (topic ∉ map KnowledgeScore.topic scores))
                 ProgressionEngine.TOPICS with
      | Some topic => Ok topic
      | None =>
          KnowledgeScore.topic <$>
            getitem (sorted_by KnowledgeScore.total_attempts scores) 0
      end
  end.

(** *** Card notation *)

(** The grammar of the specification: a rank token among 2 to 9, 10, J, Q,
    K, A, then a suit letter among h, d, c, s; with the card each denotes. *)
Definition grammar_ranks : list (string * Rank.t) :=
  [("2", Rank.TWO); ("3", Rank.THREE); ("4", Rank.FOUR); ("5", Rank.FIVE);
   ("6", Rank.SIX); ("7", Rank.SEVEN); ("8", Rank.EIGHT); ("9", Rank.NINE);
   ("10", Rank.TEN); ("J", Rank.JACK); ("Q", Rank.QUEEN); ("K", Rank.KING);
   ("A", Rank.ACE)].

Definition grammar_suits : list (string * Suit.t) :=
  [("h", Suit.HEARTS); ("d", Suit.DIAMONDS); ("c", Suit.CLUBS); ("s", Suit.SPADES)].

Definition grammar : list (string * Card.t) :=
  r ← grammar_ranks; s ← grammar_suits; [(r.1 +:+ s.1, Card.mk r.2 s.2)].

Definition matches_grammar (s : string) : Prop := s ∈ map fst grammar.

(** The letters that [Rank.from_symbol] and [Suit.from_letter] look up. *)
Definition rank_letters : list (string * Rank.t) :=
  [("T", Rank.TEN); ("J", Rank.JACK); ("Q", Rank.QUEEN); ("K", Rank.KING);
   ("A", Rank.ACE)].

Definition suit_letters : list (string * Suit.t) :=
  [("h", Suit.HEARTS); ("d", Suit.DIAMONDS); ("c", Suit.CLUBS); ("s", Suit.SPADES)].

(** The rank letters and the suit letters, in either case. *)
Definition rank_spellings : list (string * Rank.t) :=
  [("T", Rank.TEN); ("t", Rank.TEN); ("J", Rank.JACK); ("j", Rank.JACK);
   ("Q", Rank.QUEEN); ("q", Rank.QUEEN); ("K", Rank.KING); ("k", Rank.KING);
   ("A", Rank.ACE); ("a", Rank.ACE)].

Definition suit_spellings : list (ascii * Suit.t) :=
  [("h"%char, Suit.HEARTS); ("H"%char, Suit.HEARTS);
   ("d"%char, Suit.DIAMONDS); ("D"%char, Suit.DIAMONDS);
   ("c"%char, Suit.CLUBS); ("C"%char, Suit.CLUBS);
   ("s"%char, Suit.SPADES); ("S"%char, Suit.SPADES)].

(** The integer that a non-empty string of decimal digits writes, leading
    zeros allowed, as the standard library reads it; no value on any other
    string. *)
Definition decimal_value (s : string) : option Z :=
  Z.of_uint <$> NilZero.uint_of_string s.

(** The digits [int] agrees to convert. *)
Definition digit_limit : nat := 4300.

(** The rank that a rank part denotes: a rank letter in either case, or
    digits within the limit whose value is the value of the rank. *)
Definition rank_denoted (rank_str : string) (r : Rank.t) : Prop :=
  (rank_str, r) ∈ rank_spellings ∨
  ((String.length rank_str ≤ digit_limit)%nat ∧
   decimal_value rank_str = Some (Rank.value r)).

Definition suit_denoted (suit_chr : ascii) (su : Suit.t) : Prop :=
  (suit_chr, su) ∈ suit_spellings.

(** The strings that [Card.from_string] turns into the card [c]: a rank
    part that denotes the rank, then one character that denotes the suit. *)
Definition accepted (s : string) (c : Card.t) : Prop :=
  ∃ rank_str suit_chr,
    s = rank_str +:+ String suit_chr EmptyString ∧
    rank_denoted rank_str (Card.rank c) ∧ suit_denoted suit_chr (Card.suit c).

(** The strings on which [ValueError] is due: fewer than two characters,
    or a rank part made of digits that are too many or whose value is no
    rank value. *)
Definition value_error (s : string) : Prop :=
  (String.length s < 2)%nat ∨
  ∃ rank_str suit_chr v,
    s = rank_str +:+ String suit_chr EmptyString ∧
    decimal_value rank_str = Some v ∧
    ((digit_limit < String.length rank_str)%nat ∨ v < 2 ∨ 14 < v).

(** The strings on which [KeyError] is due: a rank part, not empty, that
    is neither digits nor a rank letter; or a rank part that denotes a rank
    before a last character that denotes no suit. *)
Definition key_error (s : string) : Prop :=
  ∃ rank_str suit_chr,
    s = rank_str +:+ String suit_chr EmptyString ∧ rank_str ≠ EmptyString ∧
    ((decimal_value rank_str = None ∧ ∀ r, (rank_str, r) ∉ rank_spellings) ∨
     ((∃ r, rank_denoted rank_str r) ∧ ∀ su, ¬ suit_denoted suit_chr su)).

(** A string of 4300 zeros and a 2: 4301 digits that write the number 2. *)
Definition long_two : string :=
  fold_right (λ _ s, String "0"%char s) "2"%string (seq 0 4300).

(** *** Starting hands *)

(** The notation holds the letter T, the ten of the category sets. *)
Fixpoint contains_T (s : string) : bool :=
  match s with
  | EmptyString => false
  | String c s' => bool_decide (c = "T"%char) || contains_T s'
  end.

(** The union of the four category sets. *)
Definition all_categorized : gset string :=
  StartingHands.PREMIUM ∪ StartingHands.STRONG ∪ StartingHands.PLAYABLE ∪
  StartingHands.MARGINAL.

(** The round trip of a notation on fixed suits: hearts twice when the hand
    is suited, hearts and diamonds otherwise.  Returns the category of the
    notation and the category found again from the two cards. *)
Definition round_trip (notation : string) : result (HandCategory.t * HandCategory.t) :=
  hand ← StartingHands.from_notation notation;
  r1 ← Rank.from_symbol (StartingHand.card1 hand);
  r2 ← Rank.from_symbol (StartingHand.card2 hand);
  let s1 := if StartingHand.suited hand then Suit.HEARTS else Suit.DIAMONDS in
  mret (StartingHands.get_category hand,
        StartingHands.get_category
          (StartingHands.from_cards (Card.mk r1 Suit.HEARTS) (Card.mk r2 s1))).

(** The round trip as the code runs it, on a tape of random draws. *)
Definition round_trip_on (notation : string) : rnd (HandCategory.t * HandCategory.t) :=
  hand ← lift (StartingHands.from_notation notation);
  cards ← StartingHands._notation_to_cards hand;
  c1 ← lift (getitem cards 0);
  c2 ← lift (getitem cards 1);
  mret (StartingHands.get_category hand,
        StartingHands.get_category (StartingHands.from_cards c1 c2)).

(** *** Tapes of random draws *)

(** Every draw is 0. *)
Definition zero_tape : tape := λ _, 0%nat.

(** The first draw is 9, every other draw is 0. *)
Definition royal_tape : tape := λ n, match n with O => 9%nat | _ => 0%nat end.

(** The two card lists share a card. *)
Definition share_a_card (cards1 cards2 : list Card.t) : Prop :=
  ∃ c, c ∈ cards1 ∧ c ∈ cards2.

(** The two threshold tests on the floating-point accuracy agree with the
    same tests in exact arithmetic, for one pair of counters and for every
    pair with at most [n] attempts. *)
Definition thresholds_agree (correct total : Z) : bool :=
  let accuracy := rule_accuracy correct total in
  Bool.eqb (Float.geb accuracy (Float.const 80)) (80 * total <=? 100 * correct) &&
  Bool.eqb (Float.ltb accuracy (Float.const 50)) (100 * correct <? 50 * total).

Definition thresholds_agree_upto (n : nat) : bool :=
  forallb (λ t, forallb (λ c, thresholds_agree (Z.of_nat c) (Z.of_nat t)) (seq 0 (S t)))
          (seq 1 n).

(** *** The five-card classifier, by rank values and flush test *)

(** All the cards are of one suit: the flush test of [_evaluate_five]. *)
Definition single_suit (cards : list Card.t) : bool :=
  bool_decide (size (list_to_set (map HandEvaluator.suit_code (map Card.suit cards))
                     : gset Z) = 1%nat).

(** The rank values of the cards, in the order of the cards. *)
Definition values_of (cards : list Card.t) : list Z :=
  map (λ c, Rank.value (Card.rank c)) cards.

(** What [_evaluate_five] computes from the rank values and the flush test:
    the category, the primary values and the kickers. *)
Definition classify (values : list Z) (is_flush : bool)
  : result (HandRank.t * list Z * list Z) :=
  let ranks := sorted_desc values in
  let rank_counts := Counter ranks in
  '(is_straight, straight_high) ← HandEvaluator._check_straight ranks;
  if is_flush && is_straight then
    if straight_high =? 14 then mret (HandRank.ROYAL_FLUSH, [14], [])
    else mret (HandRank.STRAIGHT_FLUSH, [straight_high], [])
  else if HandEvaluator.has_count rank_counts 4 then
    quad_rank ← getitem (HandEvaluator.ranks_with_count rank_counts 4) 0;
    kicker ← getitem (filter (λ r, r ≠ quad_rank) ranks) 0;
    mret (HandRank.FOUR_OF_A_KIND, [quad_rank], [kicker])
  else if HandEvaluator.has_count rank_counts 3 && HandEvaluator.has_count rank_counts 2 then
    trips_rank ← getitem (HandEvaluator.ranks_with_count rank_counts 3) 0;
    pair_rank ← getitem (HandEvaluator.ranks_with_count rank_counts 2) 0;
    mret (HandRank.FULL_HOUSE, [trips_rank; pair_rank], [])
  else if is_flush then mret (HandRank.FLUSH, ranks, [])
  else if is_straight then mret (HandRank.STRAIGHT, [straight_high], [])
  else if HandEvaluator.has_count rank_counts 3 then
    trips_rank ← getitem (HandEvaluator.ranks_with_count rank_counts 3) 0;
    mret (HandRank.THREE_OF_A_KIND, [trips_rank],
          sorted_desc (filter (λ r, r ≠ trips_rank) ranks))
  else
    let pairs := HandEvaluator.ranks_with_count rank_counts 2 in
    if (length pairs =? 2)%nat then
      let pairs := sorted_desc pairs in
      kicker ← getitem (filter (λ r, r ∉ pairs) ranks) 0;
      mret (HandRank.TWO_PAIR, pairs, [kicker])
    else if (length pairs =? 1)%nat then
      pair_rank ← getitem pairs 0;
      mret (HandRank.ONE_PAIR, [pair_rank],
            sorted_desc (filter (λ r, r ≠ pair_rank) ranks))
    else
      top ← getitem ranks 0;
      mret (HandRank.HIGH_CARD, [top], drop 1 ranks).

(** The category alone, for ranks given as members. *)
Definition category_of (ranks : list Rank.t) (is_flush : bool) : option HandRank.t :=
  match classify (map Rank.value ranks) is_flush with
  | Ok (r, _, _) => Some r
  | Raise _ => None
  end.

(** The three categories that need one suit. *)
Definition flush_family (r : HandRank.t) : bool :=
  match r with
  | HandRank.FLUSH | HandRank.STRAIGHT_FLUSH | HandRank.ROYAL_FLUSH => true
  | _ => false
  end.

(** Every five distinct ranks, in one suit, classify in the flush family. *)
Definition check_one_suit : bool :=
  forallb (λ rs, match category_of rs true with
                 | Some r => flush_family r
                 | None => false
                 end)
          (combinations Rank.members 5).

(** *** Exhaustive checks of the rank patterns of the hand constructors *)

Definition for_ranks (P : Rank.t → bool) : bool := forallb P Rank.members.

Definition distinct_ranks (l : list Rank.t) : bool := bool_decide (NoDup l).

(** The ranks [l], with the given flush test, classify as [r]. *)
Definition pattern_is (l : list Rank.t) (flush : bool) (r : HandRank.t) : bool :=
  bool_decide (category_of l flush = Some r).

Definition check_four_of_a_kind : bool :=
  for_ranks (λ q, for_ranks (λ k,
    negb (distinct_ranks [q; k])
    || pattern_is [q; q; q; q; k] false HandRank.FOUR_OF_A_KIND)).

Definition check_full_house : bool :=
  for_ranks (λ t, for_ranks (λ p,
    negb (distinct_ranks [t; p])
    || pattern_is [t; t; t; p; p] false HandRank.FULL_HOUSE)).

Definition check_three_of_a_kind : bool :=
  for_ranks (λ t, for_ranks (λ k0, for_ranks (λ k1,
    negb (distinct_ranks [t; k0; k1])
    || pattern_is [t; t; t; k0; k1] false HandRank.THREE_OF_A_KIND))).

Definition check_two_pair : bool :=
  for_ranks (λ p1, for_ranks (λ p2, for_ranks (λ k,
    negb (distinct_ranks [p1; p2; k])
    || pattern_is [p1; p1; p2; p2; k] false HandRank.TWO_PAIR))).

Definition check_one_pair : bool :=
  for_ranks (λ p, for_ranks (λ k0, for_ranks (λ k1, for_ranks (λ k2,
    negb (distinct_ranks [p; k0; k1; k2])
    || pattern_is [p; p; k0; k1; k2] false HandRank.ONE_PAIR)))).

(** Five distinct ranks, put in descending order: when they do not span
    four, they are the wheel and make a straight flush in one suit, or
    they make a flush in one suit and a high card otherwise. *)
Definition check_five_distinct : bool :=
  forallb (λ c0,
    let ranks := QuestionGenerator.sorted_ranks_desc c0 in
    match QuestionGenerator.spans_four ranks with
    | Ok true => true
    | Ok false =>
        if QuestionGenerator.is_wheel_set ranks
        then pattern_is ranks true HandRank.STRAIGHT_FLUSH
        else pattern_is ranks true HandRank.FLUSH
             && pattern_is ranks false HandRank.HIGH_CARD
    | Raise _ => false
    end) (combinations Rank.members 5).

(** The five ranks of the straight whose high card has value [high]. *)
Definition straight_values (high : Z) : list Z :=
  if high =? 14 then [14; 13; 12; 11; 10]
  else if high =? 5 then [5; 4; 3; 2; 14]
  else QuestionGenerator.range_down5 high.

(** The targets whose constructor has no loop and cannot fail. *)
Definition loop_free (r : HandRank.t) : bool :=
  match r with
  | HandRank.ROYAL_FLUSH | HandRank.FOUR_OF_A_KIND | HandRank.FULL_HOUSE
  | HandRank.THREE_OF_A_KIND | HandRank.TWO_PAIR | HandRank.ONE_PAIR => true
  | _ => false
  end.

(** A tape that counts: its [n]-th entry is [n]. *)
Definition counting_tape : tape := λ n, n.

(** [cs] is a hand of category [r]: five distinct cards that [evaluate]
    puts in that category. *)
Definition hand_of (r : HandRank.t) (cs : list Card.t) : Prop :=
  length cs = 5%nat ∧ NoDup cs ∧
  ∃ h, HandEvaluator.evaluate cs = Ok (Some h) ∧ EvaluatedHand.rank h = r.

(** The hand found by the attempts loop, without the deck it leaves. *)
Definition found_of {A B} (o : outcome (A * B)) : outcome A :=
  match o with
  | Done (a, _) next => Done a next
  | Fail e => Fail e
  | Diverge => Diverge
  end.

(** *** Starting hands drawn at random *)

(** A hand of category [cat] whose two symbols are rank symbols, of two
    ranks when the hand is suited. *)
Definition hand_in (cat : HandCategory.t) (hand : StartingHand.t) : bool :=
  bool_decide (StartingHands.get_category hand = cat) &&
  match Rank.from_symbol (StartingHand.card1 hand),
        Rank.from_symbol (StartingHand.card2 hand) with
  | Ok r1, Ok r2 => negb (StartingHand.suited hand) || bool_decide (r1 ≠ r2)
  | _, _ => false
  end.

Definition notation_in (cat : HandCategory.t) (notation : string) : bool :=
  match StartingHands.from_notation notation with
  | Ok hand => hand_in cat hand
  | Raise _ => false
  end.

(** Every notation of a category set reads as a hand of that category. *)
Definition check_category_hands : bool :=
  forallb (λ cat, match StartingHands.category_hands cat with
                  | Some hands => forallb (notation_in cat) (elements hands)
                  | None => true
                  end)
          [HandCategory.PREMIUM; HandCategory.STRONG; HandCategory.PLAYABLE;
           HandCategory.MARGINAL; HandCategory.WEAK].

(** The notation that the weak-hand loop spells from two rank indices and
    a suitedness. *)
Definition weak_notation (r1_idx r2_idx : Z) (suited : bool) : result string :=
  let '(r1_idx, r2_idx) :=
    if r1_idx >? r2_idx then (r2_idx, r1_idx) else (r1_idx, r2_idx) in
  c1 ← str_getitem StartingHands.RANK_ORDER (Z.to_nat r1_idx);
  c2 ← str_getitem StartingHands.RANK_ORDER (Z.to_nat r2_idx);
  mret (if decide (c1 = c2) then c1 +:+ c2
        else c1 +:+ c2 +:+ (if suited then "s" else "o")).

(** Every notation the loop can spell is in a category set or reads as a
    weak hand. *)
Definition check_weak_hands : bool :=
  forallb (λ i, forallb (λ j, forallb (λ b,
    match weak_notation (Z.of_nat i) (Z.of_nat j) b with
    | Ok notation =>
        bool_decide (notation ∈ StartingHands.categorized)
        || notation_in HandCategory.WEAK notation
    | Raise _ => false
    end) [true; false]) (seq 0 13)) (seq 0 13).

(** The two cards dealt for a starting hand: different cards, of the ranks
    of its two symbols, of one suit exactly when the hand is suited. *)
Definition dealt_for (hand : StartingHand.t) (cards : list Card.t) : Prop :=
  ∃ c1 c2, cards = [c1; c2] ∧ c1 ≠ c2 ∧
    Rank.from_symbol (StartingHand.card1 hand) = Ok (Card.rank c1) ∧
    Rank.from_symbol (StartingHand.card2 hand) = Ok (Card.rank c2) ∧
    (StartingHand.suited hand = true ↔ Card.suit c1 = Card.suit c2).

(** *** Generated questions *)

(** The answer of a which-hand-wins question for a result of
    [compare_hands]. *)
Definition answer_of_sign (z : Z) : string :=
  if z =? 1 then "Hand 1" else if z =? -1 then "Hand 2" else "Tie".

(** The choices are distinct and the keyed answer is one of them. *)
Definition well_posed (q : GeneratedQuestion.t) : Prop :=
  NoDup (GeneratedQuestion.choices q) ∧
  GeneratedQuestion.correct_answer q ∈ GeneratedQuestion.choices q.

(** *** The log of attempts and the counters *)

(** The user and the topic of a row, and of an attempt. *)
Definition key_of (s : KnowledgeScore.t) : string * string :=
  (KnowledgeScore.user_id s, KnowledgeScore.topic s).

Definition attempt_key (a : QuestionAttempt.t) : string * string :=
  (QuestionAttempt.user_id a, QuestionAttempt.question_type a).

(** The attempts of the log by one user on one topic, oldest first. *)
Definition attempts_on (db : Session.t) (key : string * string)
  : list QuestionAttempt.t :=
  filter (λ a, attempt_key a = key) (Session.question_attempts db).

Definition count_correct (l : list QuestionAttempt.t) : Z :=
  Z.of_nat (length (filter (λ a, QuestionAttempt.correct a = true) l)).

(** The run of correct answers that ends the attempts, and the longest
    run among them, from a current and a best run. *)
Fixpoint streaks (l : list QuestionAttempt.t) (current best : Z) : Z * Z :=
  match l with
  | [] => (current, best)
  | a :: l' =>
      if QuestionAttempt.correct a
      then streaks l' (current + 1) (Z.max best (current + 1))
      else streaks l' 0 best
  end.

(** The counters of the row are those of the log. *)
Definition counted (db : Session.t) (s : KnowledgeScore.t) : Prop :=
  let l := attempts_on db (key_of s) in
  KnowledgeScore.total_attempts s = Z.of_nat (length l) ∧
  KnowledgeScore.correct_attempts s = count_correct l ∧
  (KnowledgeScore.current_streak s, KnowledgeScore.best_streak s) = streaks l 0 0.

(** The scores agree with the log: one row for a user and a topic, its
    counters those of the log, and a row for every attempt. *)
Definition consistent (db : Session.t) : Prop :=
  NoDup (map key_of (Session.knowledge_scores db)) ∧
  Forall (counted db) (Session.knowledge_scores db) ∧
  ∀ a, a ∈ Session.question_attempts db →
       attempt_key a ∈ map key_of (Session.knowledge_scores db).

(** The row a first attempt starts from. *)
Definition creation_row (key : string * string) (now : Z) : KnowledgeScore.t :=
  KnowledgeScore.mk key.1 key.2 0 0 0 0 1 now.


(** * Properties *)
(** ** Order on score tuples *)

Section TupleOrder.

Lemma tuple_compare_refl a : tuple_compare a a = Eq.
Proof. induction a as [|x a IH]; simpl; [done|]. by rewrite Z.compare_refl. Qed.

Lemma tuple_compare_antisym a b :
  tuple_compare b a = CompOpp (tuple_compare a b).
Proof.
  revert b. induction a as [|x a IH]; intros [|y b]; simpl; try done.
  rewrite (Z.compare_antisym x y).
  destruct (x ?= y); simpl; auto.
Qed.

Lemma tuple_compare_eq a b : tuple_compare a b = Eq → a = b.
Proof.
  revert b. induction a as [|x a IH]; intros [|y b]; simpl; try done.
  destruct (Z.compare_spec x y) as [Hxy| |]; try done.
  intros Hab. f_equal; auto.
Qed.

Lemma tuple_compare_lt_trans a b c :
  tuple_compare a b = Lt → tuple_compare b c = Lt → tuple_compare a c = Lt.
Proof.
  revert b c. induction a as [|x a IH]; intros [|y b] [|z c]; simpl; try done.
  destruct (Z.compare_spec x y), (Z.compare_spec y z); try done; subst.
  - rewrite Z.compare_refl. eauto.
  - intros _ _. by destruct (Z.compare_spec y z); try lia.
  - intros _ _. by destruct (Z.compare_spec x z); try lia.
  - intros _ _. by destruct (Z.compare_spec x z); try lia.
Qed.

Lemma tuple_gt_lt a b : tuple_gt a b = tuple_lt b a.
Proof.
  unfold tuple_gt, tuple_lt. rewrite (tuple_compare_antisym a b).
  by destruct (tuple_compare a b).
Qed.


Lemma tuple_lt_le_trans a b c :
  tuple_compare a b = Lt → tuple_le b c → tuple_compare a c = Lt.
Proof.
  unfold tuple_le. intros E1 Hbc.
  destruct (tuple_compare b c) eqn:E2; [| |done].
  - apply tuple_compare_eq in E2. by subst.
  - by apply tuple_compare_lt_trans with b.
Qed.

Lemma tuple_le_lt_trans a b c :
  tuple_le a b → tuple_compare b c = Lt → tuple_compare a c = Lt.
Proof.
  unfold tuple_le. intros Hab E2.
  destruct (tuple_compare a b) eqn:E1; [| |done].
  - apply tuple_compare_eq in E1. by subst.
  - by apply tuple_compare_lt_trans with b.
Qed.

End TupleOrder.

(** ** Sorting and counting *)

Section SortCount.

Lemma insert_desc_perm x l : insert_desc x l ≡ₚ x :: l.
Proof.
  induction l as [|y l IH]; simpl; [done|].
  destruct (y <? x); [done|]. rewrite IH. apply Permutation_swap.
Qed.

Lemma sorted_desc_perm l : sorted_desc l ≡ₚ l.
Proof.
  induction l as [|x l IH]; simpl; [done|].
  rewrite insert_desc_perm. by rewrite IH.
Qed.

Lemma sorted_desc_length l : length (sorted_desc l) = length l.
Proof. by rewrite sorted_desc_perm. Qed.

Lemma occ_nil r : occ r [] = 0%nat.
Proof. done. Qed.

Lemma occ_cons r x l :
  occ r (x :: l) = ((if decide (x = r) then 1 else 0) + occ r l)%nat.
Proof. unfold occ. rewrite filter_cons. by destruct (decide (x = r)). Qed.

Lemma occ_app r l k : occ r (l ++ k) = (occ r l + occ r k)%nat.
Proof. unfold occ. by rewrite filter_app, length_app. Qed.

Lemma occ_zero r l : r ∉ l → occ r l = 0%nat.
Proof.
  induction l as [|x l IH]; [done|]. rewrite not_elem_of_cons, occ_cons.
  intros [? ?]. rewrite IH by done. by destruct (decide (x = r)); [congruence|].
Qed.

Lemma occ_all r l : (∀ x, x ∈ l → x = r) → occ r l = length l.
Proof.
  induction l as [|x l IH]; intros Hall; [done|].
  rewrite occ_cons, IH by (intros; apply Hall; by right).
  rewrite decide_True by (apply Hall; by left). done.
Qed.

Lemma occ_two p q l :
  p ≠ q → (∀ x, x ∈ l → x = p ∨ x = q) → (occ p l + occ q l)%nat = length l.
Proof.
  intros Hpq. induction l as [|x l IH]; intros Hall; [done|].
  rewrite !occ_cons. simpl.
  assert (length l = (occ p l + occ q l)%nat) as IH'.
  { symmetry. apply IH. intros y Hy. apply Hall. by right. }
  destruct (Hall x) as [-> | ->]; [by left| |].
  - rewrite decide_True, decide_False by done. lia.
  - rewrite decide_False, decide_True by done. lia.
Qed.

Lemma filter_nil_inv {A} (P : A → Prop) `{∀ x, Decision (P x)} (l : list A) :
  filter P l = [] → ∀ x, x ∈ l → ¬ P x.
Proof.
  intros Hnil x Hx HP.
  assert (x ∈ filter P l) as Hin by (apply list_elem_of_filter; done).
  rewrite Hnil in Hin. by apply not_elem_of_nil in Hin.
Qed.

Lemma counter_incr_keys k d :
  map fst (counter_incr k d) =
  if decide (k ∈ map fst d) then map fst d else map fst d ++ [k].
Proof.
  induction d as [|[k' c] d IH].
  - destruct (decide (k ∈ map fst [])) as [Hin|]; [|done].
    by apply elem_of_nil in Hin.
  - cbn [counter_incr map fst].
    destruct (Z.eqb_spec k' k) as [->|Hne]; cbn [map fst].
    + destruct (decide (k ∈ k :: map fst d)) as [|Hnin]; [done|].
      exfalso. apply Hnin. by left.
    + rewrite IH. destruct (decide (k ∈ map fst d)) as [Hin|Hnin];
        destruct (decide (k ∈ k' :: map fst d)) as [Hin'|Hnin']; try done.
      * exfalso. apply Hnin'. by right.
      * apply elem_of_cons in Hin' as [?|?]; congruence.
Qed.

Lemma counter_incr_other k d r c :
  (r, c) ∈ counter_incr k d → r ≠ k → (r, c) ∈ d.
Proof.
  induction d as [|[k' c'] d IH]; simpl; intros Hin Hne.
  - apply list_elem_of_singleton in Hin. congruence.
  - destruct (Z.eqb_spec k' k) as [->|Hk].
    + apply elem_of_cons in Hin as [Heq|Hin]; [congruence|by right].
    + apply elem_of_cons in Hin as [Heq|Hin]; [rewrite Heq; by left|].
      right. by apply IH.
Qed.

Lemma counter_incr_same k d c :
  NoDup (map fst d) → (k, c) ∈ counter_incr k d →
  (c = 1%nat ∧ k ∉ map fst d) ∨ (∃ c0, c = S c0 ∧ (k, c0) ∈ d).
Proof.
  induction d as [|[k' c'] d IH]; simpl; intros Hnd Hin.
  - apply list_elem_of_singleton in Hin. left. split; [congruence|apply not_elem_of_nil].
  - apply NoDup_cons in Hnd as [Hk' Hnd].
    destruct (Z.eqb_spec k' k) as [->|Hk].
    + apply elem_of_cons in Hin as [Heq|Hin].
      * right. exists c'. split; [congruence|by left].
      * exfalso. apply Hk'. apply list_elem_of_In, in_map_iff.
        exists (k, c). split; [done|]. by apply list_elem_of_In.
    + apply elem_of_cons in Hin as [Heq|Hin]; [congruence|].
      destruct (IH Hnd Hin) as [[-> Hnin]|(c0 & -> & Hc0)].
      * left. split; [done|]. rewrite not_elem_of_cons. split; congruence.
      * right. exists c0. split; [done|by right].
Qed.

Lemma Counter_snoc l k : Counter (l ++ [k]) = counter_incr k (Counter l).
Proof. unfold Counter. by rewrite fold_left_app. Qed.

Lemma Counter_inv l :
  NoDup (map fst (Counter l)) ∧
  (∀ r, r ∈ l → r ∈ map fst (Counter l)) ∧
  (∀ r c, (r, c) ∈ Counter l → c = occ r l).
Proof.
  induction l as [|k l (Hnd & Hkeys & Hocc)] using rev_ind.
  - split; [constructor|]. split; [by intros ? ?%not_elem_of_nil|].
    by intros ? ? ?%not_elem_of_nil.
  - rewrite Counter_snoc. split; [|split].
    + rewrite counter_incr_keys. destruct (decide (k ∈ map fst (Counter l))); [done|].
      apply NoDup_app. split; [done|]. split; [|apply NoDup_singleton].
      intros x Hx ->%list_elem_of_singleton. done.
    + intros r Hr. rewrite counter_incr_keys.
      apply elem_of_app in Hr as [Hr| ->%list_elem_of_singleton].
      * specialize (Hkeys r Hr). destruct (decide (k ∈ map fst (Counter l))); [done|].
        apply elem_of_app. by left.
      * destruct (decide (k ∈ map fst (Counter l))); [done|].
        apply elem_of_app. right. by apply list_elem_of_singleton.
    + intros r c Hin. rewrite occ_app, occ_cons, occ_nil.
      destruct (decide (k = r)) as [<-|Hne].
      * destruct (counter_incr_same _ _ _ Hnd Hin) as [[-> Hnin]|(c0 & -> & Hc0)].
        -- rewrite occ_zero; [done|]. intros Hk. by apply Hnin, Hkeys.
        -- rewrite <- (Hocc _ _ Hc0). lia.
      * rewrite <- (Hocc r c); [lia|]. apply counter_incr_other with k; [done|congruence].
Qed.

End SortCount.

(** ** The five-card classifier returns a hand *)

Section EvaluateFive.

Import EvaluatedHand HandEvaluator.

Lemma bind_Ok {A B} (a : A) (f : A → result B) : (Ok a ≫= f) = f a.
Proof. done. Qed.

Lemma getitem_head {A} (l : list A) :
  l ≠ [] → ∃ a, getitem l 0 = Ok a ∧ a ∈ l.
Proof. destruct l as [|a l]; [done|]. intros _. exists a. split; [done|by left]. Qed.

Lemma getitem_lt {A} (l : list A) i :
  (i < length l)%nat → ∃ a, getitem l i = Ok a.
Proof.
  intros Hi. unfold getitem. destruct (lookup_lt_is_Some_2 l i Hi) as [a ->]. eauto.
Qed.

Lemma check_straight_total ranks : ∃ b h, _check_straight ranks = Ok (b, h).
Proof.
  unfold _check_straight.
  set (u := sorted_desc _).
  destruct (Nat.eqb_spec (length u) 5) as [Hlen|]; simpl; [|eauto].
  destruct (getitem_lt u 0) as [hi ->]; [lia|].
  destruct (getitem_lt u 4) as [lo ->]; [lia|].
  rewrite !bind_Ok.
  destruct (hi - lo =? 4); [eauto|].
  destruct (bool_decide _); eauto.
Qed.

Lemma ranks_with_count_elem rc n r :
  r ∈ ranks_with_count rc n ↔ (r, n) ∈ rc.
Proof.
  unfold ranks_with_count. rewrite list_elem_of_In, in_map_iff. split.
  - intros ([r' c] & <- & Hin). apply list_elem_of_In, list_elem_of_filter in Hin.
    simpl in *. destruct Hin as [-> ?]. done.
  - intros Hin. exists (r, n). split; [done|].
    apply list_elem_of_In, list_elem_of_filter. done.
Qed.

Lemma has_count_true rc n :
  has_count rc n = true → ranks_with_count rc n ≠ [].
Proof.
  unfold has_count. intros Hin%bool_decide_eq_true.
  apply list_elem_of_In, in_map_iff in Hin as ([r c] & Hc & Hin). simpl in Hc. subst c.
  intros Hnil. apply list_elem_of_In in Hin.
  apply ranks_with_count_elem in Hin. rewrite Hnil in Hin.
  by apply elem_of_nil in Hin.
Qed.

Lemma ranks_with_count_NoDup l n : NoDup (ranks_with_count (Counter l) n).
Proof.
  unfold ranks_with_count.
  destruct (Counter_inv l) as (Hnd & _ & _).
  induction (Counter l) as [|[r c] d IH]; [constructor|].
  simpl in Hnd. apply NoDup_cons in Hnd as [Hr Hnd].
  rewrite filter_cons. destruct (decide _); [|by apply IH].
  simpl. apply NoDup_cons. split; [|by apply IH].
  intros Hin. apply Hr. apply list_elem_of_In, in_map_iff in Hin as ([r' c'] & <- & Hin).
  apply list_elem_of_In, list_elem_of_filter in Hin as [_ Hin].
  apply list_elem_of_In, in_map_iff. exists (r', c'). split; [done|].
  by apply list_elem_of_In.
Qed.

(** With four cards of rank [q] among five there is a kicker. *)
Lemma quad_kicker q l :
  length l = 5%nat → occ q l = 4%nat → filter (λ r, r ≠ q) l ≠ [].
Proof.
  intros Hlen Hocc Hnil.
  assert (occ q l = length l) as Heq; [|lia].
  apply occ_all. intros x Hx.
  destruct (decide (x = q)) as [|Hne]; [done|].
  exfalso. by apply (filter_nil_inv _ _ Hnil x Hx).
Qed.

(** With two pairs among five cards there is a fifth card. *)
Lemma two_pair_kicker p q (pairs : list Z) l :
  length l = 5%nat → p ≠ q → occ p l = 2%nat → occ q l = 2%nat →
  (∀ r, r ∈ pairs → r = p ∨ r = q) →
  filter (λ r, r ∉ pairs) l ≠ [].
Proof.
  intros Hlen Hpq Hp Hq Hpairs Hnil.
  assert ((occ p l + occ q l)%nat = length l) as Heq; [|lia].
  apply occ_two; [done|]. intros x Hx.
  destruct (decide (x ∈ pairs)) as [Hin|Hnin]; [by apply Hpairs|].
  exfalso. by apply (filter_nil_inv _ _ Hnil x Hx).
Qed.

Lemma evaluate_five_total cards :
  length cards = 5%nat → ∃ h, _evaluate_five cards = Ok h.
Proof.
  intros Hlen. unfold _evaluate_five.
  set (ranks := sorted_desc _).
  assert (length ranks = 5%nat) as Hranks.
  { unfold ranks. by rewrite sorted_desc_length, length_map. }
  destruct (check_straight_total ranks) as (is_straight & high & ->).
  rewrite bind_Ok.
  destruct (Counter_inv ranks) as (Hnd & _ & Hocc).
  destruct (bool_decide _ && is_straight).
  { destruct (high =? 14); eauto. }
  destruct (has_count (Counter ranks) 4) eqn:H4.
  { destruct (getitem_head _ (has_count_true _ _ H4)) as (q & -> & Hq).
    rewrite bind_Ok. apply ranks_with_count_elem, Hocc in Hq.
    destruct (getitem_head _ (quad_kicker q ranks Hranks (eq_sym Hq))) as (k & -> & _).
    rewrite bind_Ok. eauto. }
  destruct (has_count (Counter ranks) 3) eqn:H3; simpl.
  { destruct (has_count (Counter ranks) 2) eqn:H2.
    { destruct (getitem_head _ (has_count_true _ _ H3)) as (t & -> & _).
      destruct (getitem_head _ (has_count_true _ _ H2)) as (p & -> & _).
      rewrite !bind_Ok. eauto. }
    destruct (bool_decide _); [eauto|].
    destruct is_straight; [eauto|].
    destruct (getitem_head _ (has_count_true _ _ H3)) as (t & -> & _).
    rewrite bind_Ok. eauto. }
  destruct (bool_decide _); [eauto|].
  destruct is_straight; [eauto|].
  destruct (ranks_with_count (Counter ranks) 2) as [|p [|q [|? ?]]] eqn:Hpairs;
    cbn [length Nat.eqb].
  - destruct (getitem_lt ranks 0) as [top ->]; [lia|]. rewrite bind_Ok. eauto.
  - eauto.
  - assert (p ≠ q) as Hpq.
    { pose proof (ranks_with_count_NoDup ranks 2) as Hnd2. rewrite Hpairs in Hnd2.
      apply NoDup_cons in Hnd2 as [Hp _]. rewrite list_elem_of_singleton in Hp. done. }
    assert (occ p ranks = 2%nat ∧ occ q ranks = 2%nat) as [Hp Hq].
    { split; symmetry; apply Hocc, ranks_with_count_elem; rewrite Hpairs.
      - by left.
      - right. by left. }
    edestruct (getitem_head (filter (λ r, r ∉ sorted_desc [p; q]) ranks)) as (k & Hk & _).
    { apply (two_pair_kicker p q); try done.
      intros r Hr. rewrite sorted_desc_perm in Hr.
      apply elem_of_cons in Hr as [?|Hr]; [by left|].
      apply list_elem_of_singleton in Hr. by right. }
    rewrite Hk, bind_Ok. eauto.
  - destruct (getitem_lt ranks 0) as [top ->]; [lia|]. rewrite bind_Ok. eauto.
Qed.

Lemma evaluate_five_cards cards h :
  _evaluate_five cards = Ok h → EvaluatedHand.cards h = cards.
Proof.
  unfold _evaluate_five.
  repeat (match goal with
          | |- (if ?b then _ else _) = _ → _ => destruct b
          | |- (?e ≫= _) = _ → _ => destruct e as [?|?]; [rewrite bind_Ok|by intros ?]
          | |- (let '(_, _) := ?p in _) = _ → _ => destruct p
          | |- mret _ = Ok _ → _ => intros [= <-]; reflexivity
          | |- Ok _ = Ok _ → _ => intros [= <-]; reflexivity
          end; cbn beta iota zeta).
Qed.

End EvaluateFive.

(** ** Combinations *)

Section Combinations.

Context {A : Type}.
Implicit Types (l c : list A) (k : nat).

Lemma combinations_length l k c : c ∈ combinations l k → length c = k.
Proof.
  revert k c. induction l as [|x l IH]; intros [|k] c; simpl.
  - by intros ->%list_elem_of_singleton.
  - by intros ?%elem_of_nil.
  - by intros ->%list_elem_of_singleton.
  - intros [Hin|Hin]%elem_of_app.
    + apply list_elem_of_In, in_map_iff in Hin as (c' & <- & Hc').
      simpl. f_equal. apply IH. by apply list_elem_of_In.
    + by apply IH.
Qed.

Lemma combinations_sublist l k c : c ∈ combinations l k → c `sublist_of` l.
Proof.
  revert k c. induction l as [|x l IH]; intros [|k] c; simpl.
  - by intros ->%list_elem_of_singleton.
  - by intros ?%elem_of_nil.
  - intros ->%list_elem_of_singleton. apply sublist_nil_l.
  - intros [Hin|Hin]%elem_of_app.
    + apply list_elem_of_In, in_map_iff in Hin as (c' & <- & Hc').
      apply sublist_skip. apply (IH k). by apply list_elem_of_In.
    + apply sublist_cons. by apply (IH (S k)).
Qed.

Lemma combinations_complete l c :
  c `sublist_of` l → c ∈ combinations l (length c).
Proof.
  induction 1 as [|x c l Hsub IH|x c l Hsub IH]; simpl.
  - by left.
  - apply elem_of_app. left. apply list_elem_of_In, in_map_iff.
    exists c. split; [done|]. by apply list_elem_of_In.
  - destruct c as [|y c]; simpl in *.
    + destruct l; by left.
    + apply elem_of_app. by right.
Qed.

Lemma combinations_count l k : length (combinations l k) = binom (length l) k.
Proof.
  revert k. induction l as [|x l IH]; intros [|k]; simpl; try done.
  by rewrite length_app, length_map, !IH.
Qed.

Lemma binom_pos n k : (k ≤ n)%nat → (0 < binom n k)%nat.
Proof.
  revert k. induction n as [|n IH]; intros [|k] Hk; simpl; try lia.
  specialize (IH k). lia.
Qed.

Lemma combinations_nonempty l k : (k ≤ length l)%nat → combinations l k ≠ [].
Proof.
  intros Hk Hnil. pose proof (binom_pos _ _ Hk) as Hpos.
  rewrite <- combinations_count, Hnil in Hpos. simpl in Hpos. lia.
Qed.

Lemma binom_zero n k : (n < k)%nat → binom n k = 0%nat.
Proof.
  revert k. induction n as [|n IH]; intros [|k] Hk; simpl; try lia.
  rewrite !IH by lia. done.
Qed.

Lemma combinations_all l : combinations l (length l) = [l].
Proof.
  induction l as [|x l IH]; simpl; [done|]. rewrite IH. simpl.
  assert (combinations l (S (length l)) = []) as ->; [|done].
  apply length_zero_iff_nil. rewrite combinations_count. apply binom_zero. lia.
Qed.

End Combinations.

(** ** The best hand among the combinations *)

Section BestHand.

Import EvaluatedHand HandEvaluator.

Lemma first_best_step pre b ib c hc :
  first_best pre b ib → _evaluate_five c = Ok hc →
  first_best (pre ++ [c]) (if gt hc b then hc else b)
             (if gt hc b then length pre else ib).
Proof.
  intros (Hib & Hb & Hmax) Hc.
  pose proof (evaluate_five_cards _ _ Hc) as Hcards.
  assert (ib < length pre)%nat as Hlt by (by eapply lookup_lt_Some).
  unfold gt, tuple_gt.
  destruct (tuple_compare (score hc) (score b)) eqn:Hcmp.
  - split; [by rewrite lookup_app_l|]. split; [done|].
    intros j c' h' Hj Hh'.
    destruct (decide (j < length pre)%nat) as [Hjl|Hjl].
    + rewrite lookup_app_l in Hj by done. by apply Hmax with c'.
    + rewrite lookup_app_r in Hj by lia.
      apply list_lookup_singleton_Some in Hj as [_ <-].
      rewrite Hc in Hh'. injection Hh' as <-.
      split; [unfold tuple_le; by rewrite Hcmp|lia].
  - split; [by rewrite lookup_app_l|]. split; [done|].
    intros j c' h' Hj Hh'.
    destruct (decide (j < length pre)%nat) as [Hjl|Hjl].
    + rewrite lookup_app_l in Hj by done. by apply Hmax with c'.
    + rewrite lookup_app_r in Hj by lia.
      apply list_lookup_singleton_Some in Hj as [_ <-].
      rewrite Hc in Hh'. injection Hh' as <-.
      split; [unfold tuple_le; by rewrite Hcmp|lia].
  - assert (tuple_compare (score b) (score hc) = Lt) as Hbc.
    { rewrite (tuple_compare_antisym (score hc) (score b)), Hcmp. done. }
    split; [rewrite lookup_app_r, Nat.sub_diag, Hcards by lia; done|].
    split; [by rewrite Hcards|].
    intros j c' h' Hj Hh'.
    destruct (decide (j < length pre)%nat) as [Hjl|Hjl].
    + rewrite lookup_app_l in Hj by done.
      destruct (Hmax j c' h' Hj Hh') as [Hle _].
      assert (tuple_compare (score h') (score hc) = Lt) as Hlt'
        by (by apply tuple_le_lt_trans with (score b)).
      split; [unfold tuple_le; by rewrite Hlt'|done].
    + rewrite lookup_app_r in Hj by lia.
      apply list_lookup_singleton_Some in Hj as [Hj0 <-].
      rewrite Hc in Hh'. injection Hh' as <-.
      split; [unfold tuple_le; by rewrite tuple_compare_refl|lia].
Qed.

Lemma best_of_first_best combos : ∀ pre b ib,
  (∀ c, c ∈ combos → ∃ h, _evaluate_five c = Ok h) →
  first_best pre b ib →
  ∃ h i, best_of combos (Some b) = Ok (Some h) ∧ first_best (pre ++ combos) h i.
Proof.
  induction combos as [|c combos IH]; intros pre b ib Hall Hbest.
  - exists b, ib. rewrite app_nil_r. done.
  - destruct (Hall c) as [hc Hc]; [by left|].
    cbn [best_of]. unfold keep_best. rewrite Hc, !bind_Ok.
    change (mret ?x ≫= ?f) with (f x).
    replace (pre ++ c :: combos) with ((pre ++ [c]) ++ combos)
      by (by rewrite <- app_assoc).
    pose proof (first_best_step _ _ _ _ _ Hbest Hc) as Hstep.
    destruct (gt hc b); eapply IH; eauto; intros; apply Hall; by right.
Qed.

Lemma first_best_single c h : _evaluate_five c = Ok h → first_best [c] h 0.
Proof.
  intros Hc. pose proof (evaluate_five_cards _ _ Hc) as Hcards.
  split; [by rewrite Hcards|]. split; [by rewrite Hcards|].
  intros j c' h' Hj Hh'. apply list_lookup_singleton_Some in Hj as [-> <-].
  rewrite Hc in Hh'. injection Hh' as <-.
  split; [unfold tuple_le; by rewrite tuple_compare_refl|lia].
Qed.

(** With five cards or more, [evaluate] returns the first best hand of the
    enumeration of the 5-card combinations. *)
Lemma evaluate_first_best cards :
  (5 ≤ length cards)%nat →
  ∃ h i, evaluate cards = Ok (Some h) ∧ first_best (combinations cards 5) h i.
Proof.
  intros Hlen. unfold evaluate.
  destruct (Nat.ltb_spec (length cards) 5) as [|_]; [lia|].
  destruct (Nat.eqb_spec (length cards) 5) as [H5|Hne].
  - destruct (evaluate_five_total cards H5) as [h Hh].
    exists h, 0%nat. rewrite Hh. split; [done|].
    rewrite <- H5, combinations_all. by apply first_best_single.
  - assert (∀ c, c ∈ combinations cards 5 → ∃ h, _evaluate_five c = Ok h) as Hall.
    { intros c Hc. apply evaluate_five_total. by apply combinations_length in Hc. }
    destruct (combinations cards 5) as [|c0 rest] eqn:Hcombos.
    { by apply combinations_nonempty in Hcombos. }
    destruct (Hall c0) as [h0 Hh0]; [by left|].
    cbn [best_of]. unfold keep_best. rewrite Hh0, !bind_Ok.
    change (mret ?x ≫= ?f) with (f x).
    apply (best_of_first_best rest [c0] h0 0%nat).
    + intros; apply Hall; by right.
    + by apply first_best_single.
Qed.

Lemma evaluate_too_few cards :
  (length cards < 5)%nat → evaluate cards = Raise ValueError.
Proof.
  intros Hlen. unfold evaluate.
  by destruct (Nat.ltb_spec (length cards) 5) as [|]; [|lia].
Qed.

(** What [first_best] says about the cards of the hand. *)
Lemma first_best_cards cards h i :
  first_best (combinations cards 5) h i →
  length (EvaluatedHand.cards h) = 5%nat ∧ EvaluatedHand.cards h `sublist_of` cards.
Proof.
  intros (Hi & _ & _). apply list_elem_of_lookup_2 in Hi.
  split; [by apply combinations_length in Hi|by apply combinations_sublist in Hi].
Qed.

(** Every 5-card selection of the input evaluates, and not above the hand
    that [first_best] designates. *)
Lemma first_best_max cards h i c :
  first_best (combinations cards 5) h i →
  c `sublist_of` cards → length c = 5%nat →
  ∃ h', _evaluate_five c = Ok h' ∧ tuple_le (score h') (score h).
Proof.
  intros (_ & _ & Hmax) Hsub Hlen.
  destruct (evaluate_five_total c Hlen) as [h' Hh'].
  exists h'. split; [done|].
  pose proof (combinations_complete _ _ Hsub) as Hin. rewrite Hlen in Hin.
  apply list_elem_of_lookup_1 in Hin as [j Hj].
  by destruct (Hmax j c h' Hj Hh').
Qed.

End BestHand.

(** ** The score does not depend on the order of the five cards *)

Section CardOrder.

Import EvaluatedHand HandEvaluator.

Lemma insert_desc_sorted x l :
  Sorted (flip Z.le) l → Sorted (flip Z.le) (insert_desc x l).
Proof.
  induction l as [|y l IH]; intros Hs; simpl.
  - by repeat constructor.
  - destruct (Z.ltb_spec y x) as [Hyx|Hxy].
    + constructor; [done|]. constructor. unfold flip. lia.
    + apply Sorted_inv in Hs as [Hs Hhd]. constructor; [by apply IH|].
      destruct l as [|z l]; simpl.
      * constructor. done.
      * destruct (z <? x); constructor; [done|]. by apply HdRel_inv in Hhd.
Qed.

Lemma sorted_desc_sorted l : Sorted (flip Z.le) (sorted_desc l).
Proof.
  induction l as [|x l IH]; simpl; [constructor|]. by apply insert_desc_sorted.
Qed.

Lemma sorted_desc_of_perm l l' : l ≡ₚ l' → sorted_desc l = sorted_desc l'.
Proof.
  intros Hperm.
  assert (Transitive (flip Z.le)) as Htrans by (intros x y z; unfold flip; lia).
  apply (Sorted_unique_strong (flip Z.le)).
  - intros x y _ _. unfold flip. lia.
  - apply sorted_desc_sorted.
  - apply sorted_desc_sorted.
  - by rewrite !sorted_desc_perm.
Qed.

(** The evaluation of a reordered hand differs in its [cards] only. *)
Lemma evaluate_five_perm c c' :
  c ≡ₚ c' →
  _evaluate_five c' =
  (λ h, mk (rank h) (primary_values h) (kickers h) c') <$> _evaluate_five c.
Proof.
  intros Hperm. unfold _evaluate_five.
  rewrite <- (sorted_desc_of_perm _ _ (Permutation_map (λ x, Rank.value (Card.rank x)) Hperm)).
  assert ((list_to_set (map suit_code (map Card.suit c')) : gset Z)
          = list_to_set (map suit_code (map Card.suit c))) as ->.
  { apply list_to_set_perm_L. symmetry. by do 2 apply Permutation_map. }
  set (ranks := sorted_desc _). set (flush := bool_decide _).
  destruct (_check_straight ranks) as [[is_straight high]|e]; [|done].
  rewrite !bind_Ok.
  repeat (match goal with
          | |- context [if ?b then _ else _] => destruct b
          | |- context [getitem ?l ?i ≫= _] => destruct (getitem l i); [rewrite !bind_Ok|done]
          end); reflexivity.
Qed.

Lemma evaluate_five_perm_score c c' h :
  c ≡ₚ c' → _evaluate_five c = Ok h →
  ∃ h', _evaluate_five c' = Ok h' ∧ score h' = score h.
Proof.
  intros Hperm Hh. rewrite (evaluate_five_perm c c' Hperm), Hh.
  eexists. split; [reflexivity|done].
Qed.

(** Any five distinct cards of the input, in any order, evaluate, and not
    above the hand that [first_best] designates. *)
Lemma first_best_max_subset cards h i c :
  first_best (combinations cards 5) h i →
  NoDup c → c ⊆ cards → length c = 5%nat →
  ∃ h', _evaluate_five c = Ok h' ∧ tuple_le (score h') (score h).
Proof.
  intros Hbest Hnd Hsub Hlen.
  apply NoDup_submseteq in Hsub; [|done].
  apply submseteq_sublist_r in Hsub as (c0 & Hperm & Hsub0).
  destruct (first_best_max cards h i c0 Hbest Hsub0) as (h0 & Hh0 & Hle).
  { by rewrite <- Hperm. }
  destruct (evaluate_five_perm_score c0 c h0) as (h' & Hh' & Hscore); [done|done|].
  exists h'. split; [done|]. by rewrite Hscore.
Qed.

End CardOrder.

(** ** Claims on the hand evaluator *)

Section EvaluatorClaims.

Import EvaluatedHand HandEvaluator.


Lemma compare_hands_sign a b :
  (5 ≤ length a)%nat → (5 ≤ length b)%nat →
  ∃ ea eb, evaluate a = Ok (Some ea) ∧ evaluate b = Ok (Some eb) ∧
    compare_hands a b = Ok (sign_of (tuple_compare (score ea) (score eb))).
Proof.
  intros Ha Hb.
  destruct (evaluate_first_best a Ha) as (ea & ? & Hea & _).
  destruct (evaluate_first_best b Hb) as (eb & ? & Heb & _).
  exists ea, eb. split; [done|]. split; [done|].
  unfold compare_hands. rewrite Hea, Heb, !bind_Ok.
  unfold compare_evaluated, gt, lt, tuple_gt, tuple_lt.
  by destruct (tuple_compare (score ea) (score eb)).
Qed.

(** C3 (as amended): on 6 or 7 distinct cards [evaluate] returns a hand [h]
    whose score is the greatest among the evaluations of all 5-card subsets
    of the input (any 5 distinct cards of it, in any order); the enumeration
    holds 6 combinations for six cards and 21 for seven; [h] is the
    evaluation of the combination at some position [i] of the enumeration
    and every earlier combination scores strictly less, so ties keep the
    first; the cards of [h] are 5 distinct cards of the input. *)
Theorem evaluate_six_or_seven cards :
  NoDup cards → (length cards = 6 ∨ length cards = 7)%nat →
  ∃ h i,
    evaluate cards = Ok (Some h) ∧
    length (combinations cards 5) = (if decide (length cards = 6%nat) then 6 else 21)%nat ∧
    (∀ c, NoDup c → c ⊆ cards → length c = 5%nat →
       ∃ h', _evaluate_five c = Ok h' ∧ tuple_le (score h') (score h)) ∧
    combinations cards 5 !! i = Some (EvaluatedHand.cards h) ∧
    _evaluate_five (EvaluatedHand.cards h) = Ok h ∧
    (∀ j c h', (j < i)%nat → combinations cards 5 !! j = Some c →
       _evaluate_five c = Ok h' → tuple_compare (score h') (score h) = Lt) ∧
    length (EvaluatedHand.cards h) = 5%nat ∧
    EvaluatedHand.cards h `sublist_of` cards ∧
    NoDup (EvaluatedHand.cards h).
Proof.
  intros Hnd Hlen.
  destruct (evaluate_first_best cards) as (h & i & Hev & Hbest); [lia|].
  destruct (first_best_cards _ _ _ Hbest) as [H5 Hsub].
  exists h, i. split; [done|]. split.
  { rewrite combinations_count. by destruct Hlen as [-> | ->]. }
  split; [intros c; by apply first_best_max_subset with i|].
  destruct Hbest as (Hi & Hh & Hmax).
  repeat split; try done.
  - intros j c h' Hj Hc Hh'. by apply (Hmax j c h').
  - by apply sublist_NoDup with cards.
Qed.

Lemma evaluate_six_or_seven_witness :
  ∃ h i,
    evaluate seven_cards = Ok (Some h) ∧
    length (combinations seven_cards 5) =
      (if decide (length seven_cards = 6%nat) then 6 else 21)%nat ∧
    (∀ c, NoDup c → c ⊆ seven_cards → length c = 5%nat →
       ∃ h', _evaluate_five c = Ok h' ∧ tuple_le (score h') (score h)) ∧
    combinations seven_cards 5 !! i = Some (EvaluatedHand.cards h) ∧
    _evaluate_five (EvaluatedHand.cards h) = Ok h ∧
    (∀ j c h', (j < i)%nat → combinations seven_cards 5 !! j = Some c →
       _evaluate_five c = Ok h' → tuple_compare (score h') (score h) = Lt) ∧
    length (EvaluatedHand.cards h) = 5%nat ∧
    EvaluatedHand.cards h `sublist_of` seven_cards ∧
    NoDup (EvaluatedHand.cards h).
Proof.
  apply (evaluate_six_or_seven seven_cards).
  - apply (bool_decide_unpack _). vm_compute. exact I.
  - right. reflexivity.
Defined.

(** C3, the count as the claim states it: six distinct cards have 6
    five-card combinations, neither 15 nor 21. *)
Lemma six_cards_not_fifteen_combinations :
  NoDup six_cards ∧ length six_cards = 6%nat ∧
  ¬ (length (combinations six_cards 5) = 15%nat ∨
     length (combinations six_cards 5) = 21%nat).
Proof.
  split; [apply (bool_decide_unpack _); vm_compute; exact I|].
  split; [reflexivity|].
  vm_compute. intros [H|H]; discriminate H.
Qed.

(** C10: [evaluate] rejects exactly the inputs of fewer than five cards, with
    [ValueError]; on five distinct cards or more, however many, it returns a
    hand of 5 cards of the input that no 5-card subset of the input beats,
    the first such hand in the enumeration of the combinations. *)
Theorem evaluate_any_size cards :
  NoDup cards →
  ((length cards < 5)%nat → evaluate cards = Raise ValueError) ∧
  ((∃ e, evaluate cards = Raise e) → (length cards < 5)%nat) ∧
  ((5 ≤ length cards)%nat →
   ∃ h i,
     evaluate cards = Ok (Some h) ∧
     (∀ c, NoDup c → c ⊆ cards → length c = 5%nat →
        ∃ h', _evaluate_five c = Ok h' ∧ tuple_le (score h') (score h)) ∧
     first_best (combinations cards 5) h i ∧
     length (EvaluatedHand.cards h) = 5%nat ∧
     EvaluatedHand.cards h `sublist_of` cards ∧
     NoDup (EvaluatedHand.cards h)).
Proof.
  intros Hnd. split; [apply evaluate_too_few|]. split.
  - intros [e He]. destruct (decide (length cards < 5)%nat) as [|Hge]; [done|].
    destruct (evaluate_first_best cards) as (h & i & Hev & _); [lia|]. congruence.
  - intros Hlen.
    destruct (evaluate_first_best cards Hlen) as (h & i & Hev & Hbest).
    destruct (first_best_cards _ _ _ Hbest) as [H5 Hsub].
    exists h, i. split; [done|].
    split; [intros c; by apply first_best_max_subset with i|].
    split; [done|]. split; [done|]. split; [done|].
    by apply sublist_NoDup with cards.
Qed.

Lemma evaluate_any_size_witness :
  (5 ≤ length eight_cards)%nat ∧
  ∃ h i,
     evaluate eight_cards = Ok (Some h) ∧
     (∀ c, NoDup c → c ⊆ eight_cards → length c = 5%nat →
        ∃ h', _evaluate_five c = Ok h' ∧ tuple_le (score h') (score h)) ∧
     first_best (combinations eight_cards 5) h i ∧
     length (EvaluatedHand.cards h) = 5%nat ∧
     EvaluatedHand.cards h `sublist_of` eight_cards ∧
     NoDup (EvaluatedHand.cards h).
Proof.
  assert (5 ≤ length eight_cards)%nat as Hlen by (vm_compute; lia).
  split; [exact Hlen|].
  refine (proj2 (proj2 (evaluate_any_size eight_cards _)) Hlen).
  apply (bool_decide_unpack _). vm_compute. exact I.
Defined.



End EvaluatorClaims.

(** ** Progression engine *)

Section Progression.

Import KnowledgeScore ProgressionEngine.

Lemma calculate_new_difficulty_rule s :
  _calculate_new_difficulty s =
  difficulty_rule (current_difficulty s) (total_attempts s) (correct_attempts s)
                  (current_streak s).
Proof. reflexivity. Qed.

Lemma calculate_new_difficulty_range s :
  1 ≤ current_difficulty s ≤ 5 → 1 ≤ _calculate_new_difficulty s ≤ 5.
Proof.
  intros Hd. unfold _calculate_new_difficulty, MIN_ATTEMPTS_FOR_ADJUSTMENT,
    MAX_DIFFICULTY, MIN_DIFFICULTY.
  destruct (_ <? _); [done|].
  destruct (_ || _); [lia|].
  destruct (Float.ltb _ _); lia.
Qed.

Lemma update_score_fields s correct now :
  let s' := update_score s correct now in
  user_id s' = user_id s ∧ topic s' = topic s ∧
  total_attempts s' = total_attempts s + 1 ∧
  correct_attempts s' = correct_attempts s + (if correct then 1 else 0) ∧
  current_streak s' = (if correct then current_streak s + 1 else 0) ∧
  best_streak s' = (if correct then Z.max (best_streak s) (current_streak s + 1)
                    else best_streak s) ∧
  current_difficulty s' =
    difficulty_rule (current_difficulty s) (total_attempts s') (correct_attempts s')
                    (current_streak s').
Proof.
  destruct s as [u tp total corr streak best diff rev]. destruct correct; simpl.
  - repeat split; try done; try lia.
    destruct (Z.gtb_spec (streak + 1) best); lia.
  - repeat split; try done; lia.
Qed.

Lemma update_score_invariant s correct now :
  score_invariant s → score_invariant (update_score s correct now).
Proof.
  intros (Ht & Hc & Hs & Hb & Hd).
  destruct (update_score_fields s correct now) as (_ & _ & Et & Ec & Es & Eb & Ed).
  unfold score_invariant. rewrite Et, Ec, Es, Eb.
  split; [lia|]. split; [destruct correct; lia|].
  split; [destruct correct; lia|]. split; [destruct correct; lia|].
  destruct s as [u tp total corr streak best diff rev].
  destruct correct; simpl in *; by apply calculate_new_difficulty_range.
Qed.

Lemma first_index_Some {A} (p : A → bool) l i :
  first_index p l = Some i → ∃ x, l !! i = Some x ∧ p x = true.
Proof.
  revert i. induction l as [|x l IH]; intros i; simpl; [done|].
  destruct (p x) eqn:Hp.
  - intros [= <-]. eauto.
  - destruct (first_index p l) as [j|]; simpl; [|done].
    intros [= <-]. by apply IH.
Qed.

Lemma first_index_None {A} (p : A → bool) l :
  first_index p l = None → ∀ x, x ∈ l → p x = false.
Proof.
  induction l as [|y l IH]; simpl; [by intros _ x ?%elem_of_nil|].
  destruct (p y) eqn:Hp; [done|].
  destruct (first_index p l); simpl; [done|].
  intros _ x [->|Hx]%elem_of_cons; auto.
Qed.

(** The row handed out by [get_or_create_score] sits at the returned
    position, and the other rows are those of the session before. *)
Lemma get_or_create_score_row db topic uid now :
  ∀ db' i s, get_or_create_score db topic uid now = (db', i, s) →
  Session.knowledge_scores db' !! i = Some s ∧
  Session.question_attempts db' = Session.question_attempts db ∧
  (Session.knowledge_scores db' = Session.knowledge_scores db ∨
   (s = KnowledgeScore.mk (user_or_default uid) topic 0 0 0 0 1 now ∧
    Session.knowledge_scores db' = Session.knowledge_scores db ++ [s])).
Proof.
  intros db' i s. unfold get_or_create_score.
  destruct (first_index _ _) as [j|] eqn:Hidx.
  - destruct (first_index_Some _ _ _ Hidx) as (x & Hx & _). rewrite Hx.
    intros [= <- <- <-]. auto.
  - intros [= <- <- <-]. simpl. split; [|auto].
    by rewrite lookup_app_r, Nat.sub_diag.
Qed.

Lemma creation_invariant u tp now : score_invariant (KnowledgeScore.mk u tp 0 0 0 0 1 now).
Proof. unfold score_invariant. simpl. lia. Qed.

Lemma record_attempt_rows db qt correct rt d uid now :
  Forall score_invariant (Session.knowledge_scores db) →
  Forall score_invariant
    (Session.knowledge_scores (record_attempt db qt correct rt d uid now).1) ∧
  score_invariant (record_attempt db qt correct rt d uid now).2.
Proof.
  intros Hall. unfold record_attempt.
  destruct (get_or_create_score _ _ _ _) as [[db' i] s] eqn:Hget.
  destruct (get_or_create_score_row _ _ _ _ _ _ _ Hget) as (Hi & _ & Hrows).
  simpl in Hrows. simpl.
  assert (Forall score_invariant (Session.knowledge_scores db')) as Hall'.
  { destruct Hrows as [-> | [-> ->]]; [done|].
    apply Forall_app. split; [done|]. apply Forall_singleton, creation_invariant. }
  assert (score_invariant s) as Hs.
  { rewrite Forall_forall in Hall'. apply Hall'. by apply list_elem_of_lookup_2 in Hi. }
  split; [|by apply update_score_invariant].
  apply Forall_insert; [done|]. by apply update_score_invariant.
Qed.

(** C5: the score returned by [record_attempt] carries the counters of the
    row held before the attempt, updated first (one more attempt; on a
    correct answer one more correct attempt and one more in the streak, on
    an incorrect one a streak of 0), and its difficulty is the transition
    rule applied to the old difficulty and the updated counters: unchanged
    under 5 attempts, else [min(old + 1, 5)] when accuracy is at least 80 or
    the streak at least 5, else [max(old - 1, 1)] when accuracy is under 50,
    else unchanged.  The returned score is the row stored in the session. *)
Theorem record_attempt_difficulty_rule db qt correct rt d uid now :
  let uid' := Some (user_or_default uid) in
  let attempt := QuestionAttempt.mk (user_or_default uid) qt correct rt d now in
  let logged := Session.mk (Session.knowledge_scores db)
                           (Session.question_attempts db ++ [attempt]) in
  let '(_, i, old) := get_or_create_score logged qt uid' now in
  let '(db', new) := record_attempt db qt correct rt d uid now in
  total_attempts new = total_attempts old + 1 ∧
  correct_attempts new = correct_attempts old + (if correct then 1 else 0) ∧
  current_streak new = (if correct then current_streak old + 1 else 0) ∧
  current_difficulty new =
    difficulty_rule (current_difficulty old) (total_attempts new)
                    (correct_attempts new) (current_streak new) ∧
  difficulty_rule (current_difficulty old) (total_attempts new)
                  (correct_attempts new) (current_streak new) =
    (if total_attempts new <? 5 then current_difficulty old
     else if Float.geb (accuracy new) (Float.const 80) || (5 <=? current_streak new)
     then Z.min (current_difficulty old + 1) 5
     else if Float.ltb (accuracy new) (Float.const 50)
     then Z.max (current_difficulty old - 1) 1
     else current_difficulty old) ∧
  Session.knowledge_scores db' !! i = Some new.
Proof.
  cbv zeta. unfold record_attempt.
  destruct (get_or_create_score _ _ _ _) as [[db' i] old] eqn:Hget.
  destruct (get_or_create_score_row _ _ _ _ _ _ _ Hget) as (Hi & _ & _).
  destruct (update_score_fields old correct now) as (_ & _ & Et & Ec & Es & _ & Ed).
  split; [done|]. split; [done|]. split; [done|]. split; [done|].
  split; [reflexivity|].
  simpl. apply list_lookup_insert_eq. by eapply lookup_lt_Some.
Qed.

(** C6: every score row of a session reached from the empty database by
    recording attempts satisfies the invariant (total attempts not negative,
    correct attempts at most the total, streak not negative and at most the
    best streak, difficulty between 1 and 5); a row is created with all
    counters 0 and difficulty 1; one more recorded attempt, correct or not,
    returns a score that satisfies the invariant, and an incorrect answer
    returns it with a streak of 0 and the best streak unchanged. *)
Theorem record_attempt_preserves_invariant db :
  reachable db →
  Forall score_invariant (Session.knowledge_scores db) ∧
  ∀ qt correct rt d uid now,
    let attempt := QuestionAttempt.mk (user_or_default uid) qt correct rt d now in
    let logged := Session.mk (Session.knowledge_scores db)
                             (Session.question_attempts db ++ [attempt]) in
    let '(_, _, old) := get_or_create_score logged qt (Some (user_or_default uid)) now in
    let '(db', new) := record_attempt db qt correct rt d uid now in
    (old ∈ Session.knowledge_scores db ∨
     old = KnowledgeScore.mk (user_or_default uid) qt 0 0 0 0 1 now) ∧
    score_invariant old ∧
    score_invariant new ∧
    Forall score_invariant (Session.knowledge_scores db') ∧
    (correct = false →
     current_streak new = 0 ∧ best_streak new = best_streak old).
Proof.
  intros Hreach.
  assert (Forall score_invariant (Session.knowledge_scores db)) as Hall.
  { induction Hreach as [|db qt correct rt d uid now _ IH]; [constructor|].
    by apply record_attempt_rows. }
  split; [done|]. intros qt correct rt d uid now. cbv zeta.
  pose proof (record_attempt_rows db qt correct rt d uid now Hall) as [Hrows Hnew].
  unfold record_attempt in *.
  destruct (get_or_create_score _ _ _ _) as [[db' i] old] eqn:Hget.
  destruct (get_or_create_score_row _ _ _ _ _ _ _ Hget) as (Hi & _ & Hcase).
  simpl in Hcase, Hrows, Hnew.
  assert (old ∈ Session.knowledge_scores db ∨
          old = KnowledgeScore.mk (user_or_default uid) qt 0 0 0 0 1 now) as Hold.
  { destruct Hcase as [Heq | [Heq _]].
    - left. rewrite <- Heq. by apply list_elem_of_lookup_2 in Hi.
    - right. rewrite Heq. f_equal. unfold user_or_default.
      destruct uid as [u|]; [|done]. destruct (decide (u = EmptyString)); [done|].
      by rewrite decide_False. }
  split; [done|]. split.
  { destruct Hold as [Hin | ->]; [|apply creation_invariant].
    rewrite Forall_forall in Hall. by apply Hall. }
  split; [done|]. split; [done|].
  intros ->. by destruct (update_score_fields old false now) as (_ & _ & _ & _ & ? & ? & _).
Qed.

Lemma record_attempt_preserves_invariant_witness :
  reachable two_attempts_db ∧
  Forall score_invariant (Session.knowledge_scores two_attempts_db).
Proof.
  assert (reachable two_attempts_db) as Hreach.
  { unfold two_attempts_db. apply reachable_record, reachable_record, reachable_empty. }
  split; [exact Hreach|].
  exact (proj1 (record_attempt_preserves_invariant two_attempts_db Hreach)).
Defined.

(** Five correct answers from no history: the streak of 5 raises the
    difficulty from 1 to 2. *)
Lemma five_correct_answers_raise_difficulty :
  let step db now := (record_attempt db "hand_ranking" true None 1 None now).1 in
  Session.knowledge_scores
    (step (step (step (step (step Session.empty 0) 1) 2) 3) 4)
  = [KnowledgeScore.mk "anonymous" "hand_ranking" 5 5 5 5 2 4].
Proof. by vm_compute. Qed.

End Progression.

(** ** Order on binary64 numbers *)

Section FloatOrder.

Lemma SFltb_irrefl x : SFltb x x = false.
Proof.
  unfold SFltb. destruct x as [s|s| |s m e]; simpl; try done.
  - by destruct s.
  - destruct s; rewrite Z.compare_refl;
      change (Pos.compare_cont Eq m m) with (Pos.compare m m);
      by rewrite Pos.compare_refl.
Qed.

Lemma SFltb_trans x y z :
  SFltb x y = true → SFltb y z = true → SFltb x z = true.
Proof.
  unfold SFltb.
  destruct x as [sx|sx| |sx mx ex], y as [sy|sy| |sy my ey], z as [sz|sz| |sz mz ez];
    simpl; try done;
    try (destruct sx, sy, sz; done);
    try (destruct sx, sy; done);
    try (destruct sy, sz; done);
    try (destruct sx, sz; done).
  change (Pos.compare_cont Eq ?a ?b) with (Pos.compare a b).
  destruct sx, sy, sz; try done;
    destruct (Z.compare_spec ex ey), (Z.compare_spec ey ez), (Z.compare_spec ex ez);
    try done; try lia; subst;
    destruct (Pos.compare_spec mx my), (Pos.compare_spec my mz),
      (Pos.compare_spec mx mz); try done; try lia.
Qed.

End FloatOrder.

(** ** Topic recommendation *)

Section Recommendation.

Import KnowledgeScore ProgressionEngine.

(** What the scan holds after the rows [pre]: no row of [pre] with 3
    attempts or more is below [lowest]; [lowest] is 100 while nothing is
    selected, and the accuracy of a selected candidate of [pre] otherwise. *)
Lemma weakest_scan rows : ∀ pre weakest lowest,
  (∀ s, s ∈ pre → 3 ≤ total_attempts s → Float.ltb (accuracy s) lowest = false) →
  match weakest with
  | None => lowest = Float.const 100
  | Some t => ∃ s, s ∈ pre ∧ t = topic s ∧ lowest = accuracy s ∧ weak_candidate s
  end →
  ∃ weakest' lowest',
    fold_left weakest_step rows (weakest, lowest) = (weakest', lowest') ∧
    (∀ s, s ∈ pre ++ rows → 3 ≤ total_attempts s →
       Float.ltb (accuracy s) lowest' = false) ∧
    match weakest' with
    | None => lowest' = Float.const 100
    | Some t => ∃ s, s ∈ pre ++ rows ∧ t = topic s ∧ lowest' = accuracy s ∧
                     weak_candidate s
    end.
Proof.
  induction rows as [|x rows IH]; intros pre weakest lowest Hlow Hsel.
  - exists weakest, lowest. rewrite app_nil_r. done.
  - cbn [fold_left]. unfold weakest_step at 2.
    replace (pre ++ x :: rows) with ((pre ++ [x]) ++ rows) by (by rewrite <- app_assoc).
    destruct (Z.leb_spec 3 (total_attempts x)) as [H3|H3]; cbn [andb].
    + destruct (Float.ltb (accuracy x) lowest) eqn:Hlt.
      * apply IH.
        -- intros s [Hs| ->%list_elem_of_singleton]%elem_of_app Hs3.
           ++ destruct (Float.ltb (accuracy s) (accuracy x)) eqn:Hsx; [|done].
              rewrite <- (Hlow s Hs Hs3). symmetry.
              by apply SFltb_trans with (accuracy x).
           ++ apply SFltb_irrefl.
        -- exists x. split; [apply elem_of_app; right; by left|].
           split; [done|]. split; [done|]. split; [done|].
           destruct weakest as [t|].
           ++ destruct Hsel as (s & _ & _ & -> & _ & Hs100).
              by apply SFltb_trans with (accuracy s).
           ++ by rewrite <- Hsel.
      * apply IH.
        -- intros s [Hs| ->%list_elem_of_singleton]%elem_of_app Hs3; auto.
        -- destruct weakest as [t|]; [|done].
           destruct Hsel as (s & Hs & Hrest). exists s.
           split; [apply elem_of_app; by left|done].
    + apply IH.
      * intros s [Hs| ->%list_elem_of_singleton]%elem_of_app Hs3; [auto|lia].
      * destruct weakest as [t|]; [|done].
        destruct Hsel as (s & Hs & Hrest). exists s.
        split; [apply elem_of_app; by left|done].
Qed.

Lemma weakest_scan_all rows :
  ∃ weakest lowest,
    fold_left weakest_step rows (None, Float.const 100) = (weakest, lowest) ∧
    (∀ s, s ∈ rows → 3 ≤ total_attempts s → Float.ltb (accuracy s) lowest = false) ∧
    match weakest with
    | None => lowest = Float.const 100
    | Some t => ∃ s, s ∈ rows ∧ t = topic s ∧ lowest = accuracy s ∧ weak_candidate s
    end.
Proof.
  apply (weakest_scan rows [] None (Float.const 100)); [|done].
  by intros s ?%elem_of_nil.
Qed.

Lemma find_ext {A} (f g : A → bool) (l : list A) :
  (∀ x, f x = g x) → find f l = find g l.
Proof.
  intros Hfg. induction l as [|x l IHl]; simpl; [done|]. by rewrite Hfg, IHl.
Qed.

Lemma get_recommended_topic_unfold db uid :
  get_recommended_topic db uid =
  match scores_of db uid with
  | [] => Ok "hand_ranking"
  | _ =>
      match (fold_left weakest_step (scores_of db uid) (None, Float.const 100)).1 with
      | Some topic => Ok topic
      | None => fallback_topic (scores_of db uid)
      end
  end.
Proof.
  unfold get_recommended_topic, scores_of, fallback_topic.
  destruct (filter _ _) as [|s rows] eqn:Hrows; [done|].
  destruct (fold_left _ _ _) as [[t|] lo]; [done|]. cbn [fst].
  rewrite (find_ext _ (λ topic, bool_decide (topic ∉ map KnowledgeScore.topic (s :: rows)))).
  - done.
  - intros x. apply bool_decide_ext. by rewrite elem_of_list_to_set.
Qed.

(** C9 (as amended): when some topic of the user has 3 attempts or more and
    an accuracy below 100, [get_recommended_topic] returns the topic of such
    a row, and no row with 3 attempts or more has a lower accuracy; when no
    row has 3 attempts or more and an accuracy below 100 (in particular when
    every practised topic stands at 100), it returns the fallback topic. *)
Theorem get_recommended_topic_weakest db uid :
  ((∃ s, s ∈ scores_of db uid ∧ weak_candidate s) →
   ∃ s, s ∈ scores_of db uid ∧
        get_recommended_topic db uid = Ok (topic s) ∧
        weak_candidate s ∧
        ∀ s', s' ∈ scores_of db uid → 3 ≤ total_attempts s' →
              Float.ltb (accuracy s') (accuracy s) = false) ∧
  ((∀ s, s ∈ scores_of db uid → ¬ weak_candidate s) →
   get_recommended_topic db uid = fallback_topic (scores_of db uid)).
Proof.
  rewrite get_recommended_topic_unfold.
  destruct (weakest_scan_all (scores_of db uid)) as (w & lo & Hfold & Hlow & Hsel).
  rewrite Hfold. cbn [fst]. split.
  - intros (s0 & Hs0 & H3 & H100).
    destruct (scores_of db uid) as [|r rows] eqn:Hrows; [by apply elem_of_nil in Hs0|].
    destruct w as [t|].
    + destruct Hsel as (s & Hs & -> & -> & Hcand). exists s. auto.
    + subst lo. rewrite (Hlow s0 Hs0 H3) in H100. done.
  - intros Hnone.
    destruct (scores_of db uid) as [|r rows] eqn:Hrows; [done|].
    destruct w as [t|]; [|done].
    destruct Hsel as (s & Hs & _ & _ & Hcand). by destruct (Hnone s Hs).
Qed.

Lemma get_recommended_topic_weakest_witness :
  (∃ s, s ∈ scores_of mixed_db None ∧ weak_candidate s) ∧
  ∃ s, s ∈ scores_of mixed_db None ∧
       get_recommended_topic mixed_db None = Ok (topic s) ∧
       weak_candidate s ∧
       ∀ s', s' ∈ scores_of mixed_db None → 3 ≤ total_attempts s' →
             Float.ltb (accuracy s') (accuracy s) = false.
Proof.
  assert (∃ s, s ∈ scores_of mixed_db None ∧ weak_candidate s) as Hex.
  { exists (KnowledgeScore.mk "anonymous" "which_wins" 5 1 0 1 1 0).
    split; [right; left|]. split; [simpl; lia|reflexivity]. }
  split; [exact Hex|].
  exact (proj1 (get_recommended_topic_weakest mixed_db None) Hex).
Defined.

(** C9, as the claim states it: with a single topic answered three times,
    always correctly, a topic has 3 attempts or more, yet the recommended
    topic is one without any attempt. *)
Lemma recommended_topic_at_full_accuracy :
  (∃ s, s ∈ scores_of perfect_db None ∧ 3 ≤ total_attempts s) ∧
  get_recommended_topic perfect_db None = Ok "which_wins" ∧
  ¬ ∃ s, s ∈ scores_of perfect_db None ∧ topic s = "which_wins" ∧
         3 ≤ total_attempts s.
Proof.
  split; [|split].
  - exists (KnowledgeScore.mk "anonymous" "hand_ranking" 3 3 3 3 1 0).
    split; [by left|simpl; lia].
  - by vm_compute.
  - intros (s & Hs & Ht & _).
    apply list_elem_of_singleton in Hs. subst s. discriminate Ht.
Qed.

End Recommendation.

(** ** Card notation *)

Section Notation.

Lemma length_snoc r c : String.length (r +:+ String c EmptyString) = S (String.length r).
Proof. induction r as [|a r IH]; [done|]. simpl. by rewrite IH. Qed.

Lemma substring_prefix r t : String.substring 0 (String.length r) (r +:+ t) = r.
Proof.
  induction r as [|a r IH]; simpl; [by destruct t|]. by rewrite IH.
Qed.

Lemma drop_last_snoc r c : drop_last (r +:+ String c EmptyString) = r.
Proof.
  unfold drop_last. rewrite length_snoc. simpl. rewrite Nat.sub_0_r.
  apply substring_prefix.
Qed.

Lemma last_char_snoc r c : last_char (r +:+ String c EmptyString) = Ok (String c EmptyString).
Proof.
  unfold last_char. rewrite length_snoc. f_equal.
  induction r as [|a r IH]; [done|]. by simpl.
Qed.

Lemma string_snoc_view s : s ≠ EmptyString → ∃ r c, s = r +:+ String c EmptyString.
Proof.
  induction s as [|a s IH]; [done|]. intros _.
  destruct s as [|b s].
  - by exists EmptyString, a.
  - destruct IH as (r & c & ->); [done|]. by exists (String a r), c.
Qed.

Lemma upper_char_digit c :
  isdigit_char (upper_char c) = isdigit_char c ∧
  (isdigit_char c = true → upper_char c = c).
Proof. destruct c as [[] [] [] [] [] [] [] []]; by vm_compute. Qed.

Lemma all_digits_upper s : all_digits (upper s) = all_digits s.
Proof.
  induction s as [|c s IH]; [done|]. simpl.
  by rewrite IH, (proj1 (upper_char_digit c)).
Qed.

Lemma isdigit_upper s : isdigit (upper s) = isdigit s.
Proof. destruct s as [|c s]; [done|]. apply (all_digits_upper (String c s)). Qed.

Lemma upper_digits s : all_digits s = true → upper s = s.
Proof.
  induction s as [|c s IH]; [done|]. simpl. intros [Hc Hs]%andb_prop.
  by rewrite IH, (proj2 (upper_char_digit c)).
Qed.

Lemma isdigit_all_digits s : isdigit s = true → all_digits s = true.
Proof. by destruct s. Qed.

Lemma of_value_Ok n r : Rank.of_value n = Ok r ↔ Rank.value r = n.
Proof.
  unfold Rank.of_value. split.
  - destruct (find _ _) as [r'|] eqn:Hfind; [|done].
    intros [= <-]. apply find_some in Hfind as [_ Hv].
    by apply bool_decide_eq_true in Hv.
  - intros <-. by destruct r.
Qed.

Lemma of_value_error n : (∃ r, Rank.of_value n = Ok r) ∨ Rank.of_value n = Raise ValueError.
Proof. unfold Rank.of_value. destruct (find _ _); eauto. Qed.

Lemma rank_mapping_lookup k r :
  Rank.mapping !! k = Some r ↔ (k, r) ∈ rank_letters.
Proof.
  unfold Rank.mapping, rank_letters.
  rewrite !lookup_insert_Some, lookup_singleton_Some, !elem_of_cons, elem_of_nil.
  split.
  - intros [[<- <-]|[? [[<- <-]|[? [[<- <-]|[? [[<- <-]|[? [<- <-]]]]]]]]]; auto 10.
  - intros [[= -> ->]|[[= -> ->]|[[= -> ->]|[[= -> ->]|[[= -> ->]|[]]]]]];
      naive_solver.
Qed.

Lemma suit_mapping_lookup k su :
  Suit.mapping !! k = Some su ↔ (k, su) ∈ suit_letters.
Proof.
  unfold Suit.mapping, suit_letters.
  rewrite !lookup_insert_Some, lookup_singleton_Some, !elem_of_cons, elem_of_nil.
  split.
  - intros [[<- <-]|[? [[<- <-]|[? [[<- <-]|[? [<- <-]]]]]]]; auto 10.
  - intros [[= -> ->]|[[= -> ->]|[[= -> ->]|[[= -> ->]|[]]]]];
      naive_solver.
Qed.

Lemma rank_spellings_upper k r :
  (upper k, r) ∈ rank_letters ↔ (k, r) ∈ rank_spellings.
Proof.
  unfold rank_letters, rank_spellings. rewrite !elem_of_cons, !elem_of_nil. split.
  - intros Hk.
    assert (∃ c, k = String c EmptyString) as [c ->].
    { destruct k as [|c [|c' k]]; [| by exists c |];
        decompose [or] Hk; try done; discriminate. }
    destruct c as [[] [] [] [] [] [] [] []]; vm_compute in Hk;
      decompose [or] Hk; try done; try discriminate;
      match goal with H : (_, _) = (_, _) |- _ => injection H as <- end;
      tauto.
  - intros Hk. decompose [or] Hk; try done;
      match goal with H : (_, _) = (_, _) |- _ => injection H as -> -> end;
      vm_compute; tauto.
Qed.

Lemma suit_spellings_lower c su :
  (lower (String c EmptyString), su) ∈ suit_letters ↔ suit_denoted c su.
Proof.
  unfold suit_denoted, suit_letters, suit_spellings.
  rewrite !elem_of_cons, !elem_of_nil. split.
  - intros Hc.
    destruct c as [[] [] [] [] [] [] [] []]; vm_compute in Hc;
      decompose [or] Hc; try done; try discriminate;
      match goal with H : (_, _) = (_, _) |- _ => injection H as <- end;
      tauto.
  - intros Hc. decompose [or] Hc; try done;
      match goal with H : (_, _) = (_, _) |- _ => injection H as -> -> end;
      vm_compute; tauto.
Qed.

(** The digits of a string, as the standard library reads them. *)
Lemma uint_of_char_digit a u :
  uint_of_char a (Some u) ≠ None ↔ isdigit_char a = true.
Proof. destruct a as [[] [] [] [] [] [] [] []]; by vm_compute. Qed.

Lemma uint_of_string_digits s :
  NilEmpty.uint_of_string s ≠ None ↔ all_digits s = true.
Proof.
  induction s as [|a s IH]; [done|]. cbn [NilEmpty.uint_of_string all_digits].
  rewrite andb_true_iff, <- IH. destruct (NilEmpty.uint_of_string s) as [u|].
  - rewrite uint_of_char_digit. split; [by intros Ha|by intros [Ha _]].
  - unfold uint_of_char. split; [done|by intros [_ Hs]].
Qed.

(** [int_acc] computes the value the standard library gives to the digits. *)
Lemma int_acc_value s : ∀ u,
  NilEmpty.uint_of_string s = Some u →
  int_acc 0 s = Z.of_N (Pos.of_uint u) ∧
  ∀ p, int_acc (Z.pos p) s = Z.pos (Pos.of_uint_acc u p).
Proof.
  induction s as [|a s IH]; intros u Hu.
  - injection Hu as <-. done.
  - cbn [NilEmpty.uint_of_string] in Hu.
    destruct (NilEmpty.uint_of_string s) as [u'|]; [|done].
    destruct (IH u' eq_refl) as [IH0 IHp].
    destruct a as [[] [] [] [] [] [] [] []]; try discriminate Hu;
      injection Hu as <-; cbn [int_acc Pos.of_uint Pos.of_uint_acc];
      (split; [first [exact IH0 | exact (IHp _)]|]);
      intros p; rewrite <- IHp; f_equal;
      match goal with
      | |- context [nat_of_ascii ?c] =>
          let n := eval vm_compute in (Z.of_nat (nat_of_ascii c)) in
          change (Z.of_nat (nat_of_ascii c)) with n
      end; lia.
Qed.

Lemma decimal_value_int s :
  decimal_value s = if isdigit s then Some (int_acc 0 s) else None.
Proof.
  unfold decimal_value, NilZero.uint_of_string, isdigit.
  destruct s as [|a s]; [done|].
  pose proof (uint_of_string_digits (String a s)) as Hd.
  destruct (NilEmpty.uint_of_string (String a s)) as [u|] eqn:Hu.
  - rewrite (proj1 Hd) by done. cbn. f_equal.
    symmetry. apply (int_acc_value _ _ Hu).
  - destruct (all_digits (String a s)); [|done]. by destruct (proj2 Hd eq_refl).
Qed.

Lemma int_Ok s :
  int s = if (digit_limit <? String.length s)%nat then Raise ValueError
          else Ok (int_acc 0 s).
Proof.
  unfold int, int_max_str_digits, digit_limit.
  destruct (Z.ltb_spec 4300 (Z.of_nat (String.length s)));
    destruct (Nat.ltb_spec 4300 (String.length s)); try done; lia.
Qed.

Lemma of_value_range n :
  Rank.of_value n = Raise ValueError ↔ n < 2 ∨ 14 < n.
Proof.
  split.
  - intros Herr.
    destruct (decide (n < 2 ∨ 14 < n)) as [|Hin]; [done|].
    assert (n = 2 ∨ n = 3 ∨ n = 4 ∨ n = 5 ∨ n = 6 ∨ n = 7 ∨ n = 8 ∨ n = 9 ∨
            n = 10 ∨ n = 11 ∨ n = 12 ∨ n = 13 ∨ n = 14) as Hn by lia.
    decompose [or] Hn; subst n; discriminate Herr.
  - intros Hout. destruct (of_value_error n) as [[r Hr]|Herr]; [|done].
    apply of_value_Ok in Hr. destruct r; simpl in Hr; lia.
Qed.

Lemma rank_spellings_not_digit k r : (k, r) ∈ rank_spellings → isdigit k = false.
Proof.
  unfold rank_spellings. rewrite !elem_of_cons, elem_of_nil.
  intros Hk. decompose [or] Hk; try done;
    match goal with H : (_, _) = (_, _) |- _ => by injection H as -> -> end.
Qed.

(** What [Rank.from_symbol] does with a rank part. *)
Lemma from_symbol_cases rank_str :
  match Rank.from_symbol rank_str with
  | Ok r => rank_denoted rank_str r
  | Raise e =>
      (e = ValueError ∧
       ∃ v, decimal_value rank_str = Some v ∧
            ((digit_limit < String.length rank_str)%nat ∨ v < 2 ∨ 14 < v)) ∨
      (e = KeyError ∧ decimal_value rank_str = None ∧
       ∀ r, (rank_str, r) ∉ rank_spellings)
  end.
Proof.
  unfold Rank.from_symbol, rank_denoted. rewrite isdigit_upper, decimal_value_int.
  destruct (isdigit rank_str) eqn:Hd.
  - rewrite (upper_digits rank_str) by (by apply isdigit_all_digits).
    rewrite int_Ok. destruct (Nat.ltb_spec digit_limit (String.length rank_str)).
    + left. split; [done|]. eexists. split; [done|]. by left.
    + rewrite bind_Ok. destruct (Rank.of_value (int_acc 0 rank_str)) as [r|e] eqn:Hr.
      * right. split; [lia|]. f_equal. symmetry. by apply of_value_Ok.
      * destruct (of_value_error (int_acc 0 rank_str)) as [[r Hr']|Hr']; [congruence|].
        rewrite Hr' in Hr. injection Hr as <-. left. split; [done|].
        eexists. split; [done|]. right. by apply of_value_range.
  - unfold dict_getitem.
    destruct (Rank.mapping !! upper rank_str) as [r|] eqn:Hl.
    + left. by apply rank_spellings_upper, rank_mapping_lookup.
    + right. split; [done|]. split; [done|]. intros r Hr.
      apply rank_spellings_upper, rank_mapping_lookup in Hr. congruence.
Qed.

Lemma rank_denoted_unique rank_str r r' :
  rank_denoted rank_str r → rank_denoted rank_str r' → r = r'.
Proof.
  intros H H'. pose proof (from_symbol_cases rank_str) as Hc.
  assert (∀ q, rank_denoted rank_str q → Rank.from_symbol rank_str = Ok q) as Hq.
  { intros q [Hl|[Hlen Hv]].
    - unfold Rank.from_symbol. rewrite isdigit_upper.
      rewrite (rank_spellings_not_digit _ _ Hl). unfold dict_getitem.
      apply rank_spellings_upper, rank_mapping_lookup in Hl. by rewrite Hl.
    - rewrite decimal_value_int in Hv. destruct (isdigit rank_str) eqn:Hd; [|done].
      injection Hv as Hv. unfold Rank.from_symbol. rewrite isdigit_upper, Hd.
      rewrite (upper_digits rank_str) by (by apply isdigit_all_digits).
      rewrite int_Ok. destruct (Nat.ltb_spec digit_limit (String.length rank_str));
        [lia|]. rewrite bind_Ok, Hv. by apply of_value_Ok. }
  apply Hq in H, H'. congruence.
Qed.

Lemma from_symbol_Ok rank_str r :
  Rank.from_symbol rank_str = Ok r ↔ rank_denoted rank_str r.
Proof.
  pose proof (from_symbol_cases rank_str) as Hc. split.
  - intros Hr. by rewrite Hr in Hc.
  - intros Hr. destruct (Rank.from_symbol rank_str) as [r'|e].
    + f_equal. by apply (rank_denoted_unique rank_str).
    + destruct Hr as [Hl|[Hlen Hv]];
        destruct Hc as [(_ & v & Hv' & Hbad)|(_ & Hnone & Hno)].
      * apply rank_spellings_not_digit in Hl. rewrite decimal_value_int, Hl in Hv'.
        done.
      * by destruct (Hno r).
      * rewrite Hv in Hv'. injection Hv' as <-. destruct Hbad as [?|Hbad]; [lia|].
        destruct r; simpl in Hbad; lia.
      * congruence.
Qed.

Lemma from_letter_Ok suit_chr su :
  Suit.from_letter (String suit_chr EmptyString) = Ok su ↔ suit_denoted suit_chr su.
Proof.
  rewrite <- suit_spellings_lower.
  unfold Suit.from_letter, dict_getitem. rewrite <- suit_mapping_lookup.
  destruct (Suit.mapping !! lower _); split; congruence.
Qed.

Lemma from_letter_cases suit_chr :
  match Suit.from_letter (String suit_chr EmptyString) with
  | Ok su => suit_denoted suit_chr su
  | Raise e => e = KeyError ∧ ∀ su, ¬ suit_denoted suit_chr su
  end.
Proof.
  destruct (Suit.from_letter (String suit_chr EmptyString)) as [su|e] eqn:Hsu.
  - by apply from_letter_Ok.
  - split.
    + unfold Suit.from_letter, dict_getitem in Hsu. destruct (_ !! _); congruence.
    + intros su Hd. apply from_letter_Ok in Hd. congruence.
Qed.

Lemma snoc_inj r c r' c' :
  r +:+ String c EmptyString = r' +:+ String c' EmptyString → r = r' ∧ c = c'.
Proof.
  intros Heq. split.
  - by rewrite <- (drop_last_snoc r c), Heq, drop_last_snoc.
  - pose proof (last_char_snoc r c) as Hl. rewrite Heq, last_char_snoc in Hl.
    by injection Hl.
Qed.

(** What [Card.from_string] does with a string. *)
Lemma from_string_cases s :
  match Card.from_string s with
  | Ok c => accepted s c
  | Raise e => (e = ValueError ∧ value_error s) ∨ (e = KeyError ∧ key_error s)
  end.
Proof.
  unfold Card.from_string.
  destruct (Nat.ltb_spec (String.length s) 2) as [|Hlen].
  { left. split; [done|]. by left. }
  destruct (string_snoc_view s) as (rank_str & suit_chr & ->).
  { intros ->. simpl in Hlen. lia. }
  assert (rank_str ≠ EmptyString) as Hne.
  { intros ->. simpl in Hlen. lia. }
  rewrite drop_last_snoc, last_char_snoc, bind_Ok.
  pose proof (from_symbol_cases rank_str) as Hr.
  destruct (Rank.from_symbol rank_str) as [r|e].
  - rewrite bind_Ok. pose proof (from_letter_cases suit_chr) as Hsu.
    destruct (Suit.from_letter (String suit_chr EmptyString)) as [su|e].
    + rewrite bind_Ok. by exists rank_str, suit_chr.
    + destruct Hsu as [-> Hno]. right. split; [done|].
      exists rank_str, suit_chr. split; [done|]. split; [done|]. right. eauto.
  - destruct Hr as [(-> & v & Hv & Hbad)|(-> & Hnone & Hno)].
    + left. split; [done|]. right. by exists rank_str, suit_chr, v.
    + right. split; [done|]. exists rank_str, suit_chr. split; [done|].
      split; [done|]. by left.
Qed.

(** The three outcomes exclude one another. *)
Lemma accepted_no_error s c : accepted s c → ¬ value_error s ∧ ¬ key_error s.
Proof.
  intros (rank_str & suit_chr & -> & Hr & Hsu). split.
  - intros [Hlen|(rs & sc & v & Heq & Hv & Hbad)].
    + rewrite length_snoc in Hlen.
      destruct rank_str; [|simpl in Hlen; lia].
      destruct Hr as [Hl|[_ Hv]]; [|done].
      unfold rank_spellings in Hl. rewrite !elem_of_cons, elem_of_nil in Hl.
      decompose [or] Hl; done.
    + apply snoc_inj in Heq as [<- <-].
      destruct Hr as [Hl|[Hlen Hv']].
      * apply rank_spellings_not_digit in Hl. by rewrite decimal_value_int, Hl in Hv.
      * rewrite Hv in Hv'. injection Hv' as ->.
        destruct Hbad as [?|Hbad]; [lia|]. destruct (Card.rank c); simpl in Hbad; lia.
  - intros (rs & sc & Heq & _ & [[Hnone Hno]|[_ Hno]]).
    + apply snoc_inj in Heq as [<- <-]. destruct Hr as [Hl|[_ Hv]].
      * by destruct (Hno (Card.rank c)).
      * congruence.
    + apply snoc_inj in Heq as [<- <-]. by destruct (Hno (Card.suit c)).
Qed.

Lemma value_error_no_key_error s : value_error s → ¬ key_error s.
Proof.
  intros Hv (rs & sc & -> & Hne & Hk).
  destruct Hv as [Hlen|(rs' & sc' & v & Heq & Hv & Hbad)].
  - rewrite length_snoc in Hlen. destruct rs; [done|simpl in Hlen; lia].
  - apply snoc_inj in Heq as [<- <-].
    destruct Hk as [[Hnone _]|[[r Hr] _]]; [congruence|].
    destruct Hr as [Hl|[Hlen Hv']].
    + apply rank_spellings_not_digit in Hl. by rewrite decimal_value_int, Hl in Hv.
    + rewrite Hv in Hv'. injection Hv' as ->.
      destruct Hbad as [?|Hbad]; [lia|]. destruct r; simpl in Hbad; lia.
Qed.

Lemma from_string_Ok s c : Card.from_string s = Ok c ↔ accepted s c.
Proof.
  pose proof (from_string_cases s) as Hc. split.
  - intros Hs. by rewrite Hs in Hc.
  - intros Hacc. destruct (Card.from_string s) as [c'|e].
    + destruct Hacc as (rs & sc & -> & Hr & Hsu).
      destruct Hc as (rs' & sc' & Heq & Hr' & Hsu').
      apply snoc_inj in Heq as [<- <-].
      apply from_symbol_Ok in Hr, Hr'. apply from_letter_Ok in Hsu, Hsu'.
      destruct c, c'. simpl in *. congruence.
    + destruct (accepted_no_error s c Hacc) as [Hnv Hnk].
      by destruct Hc as [[_ ?]|[_ ?]].
Qed.

Lemma from_string_ValueError s : Card.from_string s = Raise ValueError ↔ value_error s.
Proof.
  pose proof (from_string_cases s) as Hc. split.
  - intros Hs. rewrite Hs in Hc. by destruct Hc as [[_ ?]|[? _]].
  - intros Hv. destruct (Card.from_string s) as [c|e].
    + by destruct (accepted_no_error s c Hc) as [? _].
    + destruct Hc as [[-> _]|[_ Hk]]; [done|].
      by destruct (value_error_no_key_error s Hv).
Qed.

Lemma from_string_KeyError s : Card.from_string s = Raise KeyError ↔ key_error s.
Proof.
  pose proof (from_string_cases s) as Hc. split.
  - intros Hs. rewrite Hs in Hc. by destruct Hc as [[? _]|[_ ?]].
  - intros Hk. destruct (Card.from_string s) as [c|e].
    + by destruct (accepted_no_error s c Hc) as [_ ?].
    + destruct Hc as [[_ Hv]|[-> _]]; [|done].
      by destruct (value_error_no_key_error s Hv).
Qed.

Lemma grammar_parses : Forall (λ sc, Card.from_string sc.1 = Ok sc.2) grammar.
Proof. repeat constructor. Qed.

Lemma grammar_size : length grammar = 52%nat.
Proof. reflexivity. Qed.

(** C8 (as amended): on every ASCII string, [Card.from_string] returns the
    card denoted by every string of the grammar; it returns a card exactly
    on the strings made of a rank part and a last character, where the
    last character is h, d, c or s in either case and the rank part is T,
    J, Q, K or A in either case or a non-empty string of at most 4300
    decimal digits whose value is a rank value (2 to 14, leading zeros
    allowed); it raises [ValueError] exactly on the strings of fewer than
    two characters and on those whose rank part is made of digits that are
    more than 4300 or whose value is outside 2 to 14; it raises [KeyError]
    exactly on the other strings: those whose rank part is neither digits
    nor a rank letter, and those whose rank part denotes a rank and whose
    last character is no suit letter; and it raises nothing else. *)
Theorem from_string_accepted s :
  is_ascii s = true →
  (∀ c, (s, c) ∈ grammar → Card.from_string s = Ok c) ∧
  (∀ c, Card.from_string s = Ok c ↔ accepted s c) ∧
  (Card.from_string s = Raise ValueError ↔ value_error s) ∧
  (Card.from_string s = Raise KeyError ↔ key_error s) ∧
  (∀ e, Card.from_string s = Raise e → e = ValueError ∨ e = KeyError).
Proof.
  intros _. split; [|split; [|split; [|split]]].
  - intros c Hin. pose proof grammar_parses as Hall.
    rewrite Forall_forall in Hall. apply (Hall (s, c) Hin).
  - intros c. apply from_string_Ok.
  - apply from_string_ValueError.
  - apply from_string_KeyError.
  - intros e He. pose proof (from_string_cases s) as Hc. rewrite He in Hc.
    destruct Hc as [[-> _]|[-> _]]; auto.
Qed.

Lemma from_string_accepted_witness :
  is_ascii "10h" = true ∧
  (∀ c, ("10h", c) ∈ grammar → Card.from_string "10h" = Ok c) ∧
  (∀ c, Card.from_string "10h" = Ok c ↔ accepted "10h" c) ∧
  (Card.from_string "10h" = Raise ValueError ↔ value_error "10h") ∧
  (Card.from_string "10h" = Raise KeyError ↔ key_error "10h") ∧
  (∀ e, Card.from_string "10h" = Raise e → e = ValueError ∨ e = KeyError).
Proof.
  split; [reflexivity|].
  apply (from_string_accepted "10h"); reflexivity.
Defined.

(** Spellings outside the grammar that parse all the same, and strings
    that fail, each with its error: too short, a value that is no rank,
    more digits than [int] converts, an unknown rank, an unknown suit, and
    the rank looked up before the suit. *)
Lemma from_string_other_spellings :
  Card.from_string "ah" = Ok (Card.mk Rank.ACE Suit.HEARTS) ∧
  Card.from_string "AH" = Ok (Card.mk Rank.ACE Suit.HEARTS) ∧
  Card.from_string "02h" = Ok (Card.mk Rank.TWO Suit.HEARTS) ∧
  Card.from_string "11h" = Ok (Card.mk Rank.JACK Suit.HEARTS) ∧
  Card.from_string "14h" = Ok (Card.mk Rank.ACE Suit.HEARTS) ∧
  Card.from_string "1h" = Raise ValueError ∧
  Card.from_string "15x" = Raise ValueError ∧
  Card.from_string "Xh" = Raise KeyError ∧
  Card.from_string "Ax" = Raise KeyError ∧
  Card.from_string "h" = Raise ValueError.
Proof. repeat split. Qed.

(** A rank part of 4301 digits is refused, whatever its value: [int] does
    not convert more than 4300 digits. *)
Lemma from_string_too_many_digits :
  String.length long_two = 4301%nat ∧
  decimal_value long_two = Some 2 ∧
  Card.from_string (long_two +:+ "h") = Raise ValueError ∧
  Card.from_string (String.substring 1 4300 long_two +:+ "h")
  = Ok (Card.mk Rank.TWO Suit.HEARTS).
Proof. repeat split; by vm_compute. Qed.

(** C8, as the claim states it: "Th" is outside the grammar, which writes
    ten as "10", and yet parses, to the ten of hearts. *)
Lemma from_string_T_outside_grammar :
  ¬ matches_grammar "Th" ∧
  Card.from_string "Th" = Ok (Card.mk Rank.TEN Suit.HEARTS).
Proof.
  split; [|reflexivity].
  unfold matches_grammar. apply (bool_decide_unpack _). vm_compute. exact I.
Qed.

End Notation.

(** ** Random draws *)

Section Random.

Lemma rnd_bind_Done {A B} (m : rnd A) (f : A → rnd B) tp pos a pos' :
  m tp pos = Done a pos' → (m ≫= f) tp pos = f a tp pos'.
Proof. unfold mbind, rnd_bind. by intros ->. Qed.

Lemma swap_perm {A} (x : list A) i j : swap x i j ≡ₚ x.
Proof.
  unfold swap. destruct (x !! i) as [a|] eqn:Hi; [|done].
  destruct (x !! j) as [b|] eqn:Hj; [|done].
  by apply Permutation_insert_swap.
Qed.

Lemma shuffle_from_perm {A} i : ∀ (x : list A) tp pos,
  ∃ y, shuffle_from i x tp pos = Done y (pos + i) ∧ y ≡ₚ x.
Proof.
  induction i as [|i IH]; intros x tp pos.
  - exists x. by rewrite Nat.add_0_r.
  - destruct (IH (swap x (S i) (tp pos mod S (S i))) tp (S pos)) as (y & Hy & Hperm).
    exists y. split.
    + cbn [shuffle_from]. unfold mbind, rnd_bind, randbelow.
      rewrite Hy. f_equal. lia.
    + by rewrite Hperm, swap_perm.
Qed.

Lemma shuffle_perm {A} (x : list A) tp pos :
  ∃ y, shuffle x tp pos = Done y (pos + (length x - 1)) ∧ y ≡ₚ x.
Proof. apply shuffle_from_perm. Qed.

(** Shuffling the four suits gives four distinct suits. *)
Lemma shuffle_suits tp pos :
  ∃ a b c d, shuffle Suit.members tp pos = Done [a; b; c; d] (pos + 3) ∧ a ≠ b.
Proof.
  destruct (shuffle_perm Suit.members tp pos) as (y & Hy & Hperm).
  assert (NoDup y) as Hnd.
  { rewrite Hperm. apply (bool_decide_unpack _). by vm_compute. }
  pose proof (Permutation_length Hperm) as Hlen.
  destruct y as [|a [|b [|c [|d [|? ?]]]]]; try done.
  exists a, b, c, d. split; [done|].
  apply NoDup_cons in Hnd as [Ha _]. intros ->. apply Ha. by left.
Qed.

End Random.

(** ** Starting hands: from notation to cards and back *)

Section StartingHandRoundTrip.

Import StartingHands.

Lemma notation_to_cards_shape hand r1 r2 tp pos :
  Rank.from_symbol (StartingHand.card1 hand) = Ok r1 →
  Rank.from_symbol (StartingHand.card2 hand) = Ok r2 →
  ∃ s0 s1,
    _notation_to_cards hand tp pos = Done [Card.mk r1 s0; Card.mk r2 s1] (pos + 3) ∧
    (if StartingHand.suited hand then s0 = s1 else s0 ≠ s1).
Proof.
  intros H1 H2. unfold _notation_to_cards. rewrite H1, H2.
  destruct (shuffle_suits tp pos) as (a & b & c & d & Hsh & Hab).
  unfold mbind at 1 2. unfold rnd_bind, lift.
  rewrite (rnd_bind_Done _ _ _ _ _ _ Hsh).
  destruct (StartingHand.suited hand).
  - exists a, a. done.
  - exists a, b. done.
Qed.

Lemma from_cards_suits r1 r2 s0 s1 s0' s1' :
  (s0 = s1 ↔ s0' = s1') →
  from_cards (Card.mk r1 s0) (Card.mk r2 s1) =
  from_cards (Card.mk r1 s0') (Card.mk r2 s1').
Proof.
  intros Hiff. unfold from_cards. simpl.
  by rewrite (bool_decide_ext _ _ Hiff).
Qed.

(** The run on a tape agrees with the round trip on fixed suits. *)
Lemma round_trip_on_tape notation cats tp pos :
  round_trip notation = Ok cats →
  round_trip_on notation tp pos = Done cats (pos + 3).
Proof.
  unfold round_trip, round_trip_on.
  destruct (from_notation notation) as [hand|]; [|done]. rewrite bind_Ok.
  destruct (Rank.from_symbol (StartingHand.card1 hand)) as [r1|] eqn:H1; [|done].
  destruct (Rank.from_symbol (StartingHand.card2 hand)) as [r2|] eqn:H2; [|done].
  rewrite !bind_Ok. intros [= <-].
  destruct (notation_to_cards_shape hand r1 r2 tp pos H1 H2) as (s0 & s1 & Hcards & Hs).
  unfold mbind at 1. unfold rnd_bind, lift.
  rewrite (rnd_bind_Done _ _ _ _ _ _ Hcards).
  unfold mbind, rnd_bind, lift, getitem. simpl. unfold mret, rnd_ret. do 3 f_equal.
  apply from_cards_suits.
  destruct (StartingHand.suited hand); [done|]. split; [done|congruence].
Qed.

(** Runs the round trip of the goal and gives its first category. *)
Ltac round_trip_run :=
  match goal with
  | |- ∃ cat, round_trip ?n = _ ∧ _ =>
      let v := eval vm_compute in (round_trip n) in
      match v with Ok (?c, _) => exists c end
  | |- ∃ cat, round_trip ?n = _ =>
      let v := eval vm_compute in (round_trip n) in
      match v with Ok (?c, _) => exists c end
  end.

Lemma tens_round_trip_weak :
  Forall (λ n, contains_T n = true →
               ∃ cat, round_trip n = Ok (cat, HandCategory.WEAK) ∧
                      cat ≠ HandCategory.WEAK)
         (elements all_categorized).
Proof.
  set (l := elements all_categorized). vm_compute in l. subst l.
  repeat (apply Forall_cons; split;
          [first [ intros H; vm_compute in H; discriminate H
                 | intros _; round_trip_run; split; [by vm_compute|discriminate] ]|]).
  by apply Forall_nil.
Qed.

Lemma others_round_trip_same :
  Forall (λ n, contains_T n = false → ∃ cat, round_trip n = Ok (cat, cat))
         (elements all_categorized).
Proof.
  set (l := elements all_categorized). vm_compute in l. subst l.
  repeat (apply Forall_cons; split;
          [first [ intros H; vm_compute in H; discriminate H
                 | intros _; round_trip_run; by vm_compute ]|]).
  by apply Forall_nil.
Qed.

(** C1 at the notations that hold a ten: for each of them, whatever the
    random draws, the notation classifies in its own category, not Weak,
    and the two cards made from it classify as Weak.  Ten-nine suited is
    Playable by its notation and Weak by its cards; a pair of tens is Strong
    by its notation and Weak by its cards. *)
Theorem ten_notations_round_trip_to_weak :
  (∀ n tp pos, n ∈ all_categorized → contains_T n = true →
     ∃ cat, round_trip_on n tp pos = Done (cat, HandCategory.WEAK) (pos + 3) ∧
            cat ≠ HandCategory.WEAK) ∧
  (∀ s, get_category (from_cards (Card.mk Rank.TEN s) (Card.mk Rank.NINE s))
        = HandCategory.WEAK) ∧
  category_of_notation "T9s" = HandCategory.PLAYABLE ∧
  (∀ s s', get_category (from_cards (Card.mk Rank.TEN s) (Card.mk Rank.TEN s'))
           = HandCategory.WEAK) ∧
  category_of_notation "TT" = HandCategory.STRONG ∧
  StartingHand.notation (from_cards (Card.mk Rank.TEN Suit.HEARTS)
                                    (Card.mk Rank.TEN Suit.SPADES)) = "1010".
Proof.
  split.
  { intros n tp pos Hin HT. apply elem_of_elements in Hin.
    pose proof tens_round_trip_weak as Hall. rewrite Forall_forall in Hall.
    destruct (Hall n Hin HT) as (cat & Hrt & Hcat).
    exists cat. split; [|done]. by apply round_trip_on_tape. }
  split; [intros s; by destruct s|]. split; [reflexivity|].
  split; [intros s s'; by destruct s, s'|]. split; reflexivity.
Qed.

Lemma ten_notations_round_trip_to_weak_witness :
  ∃ cat, round_trip_on "TT" (λ _, 0%nat) 0%nat = Done (cat, HandCategory.WEAK) 3%nat ∧
         cat ≠ HandCategory.WEAK.
Proof.
  apply (proj1 ten_notations_round_trip_to_weak "TT" (λ _, 0%nat) 0%nat).
  - apply (bool_decide_unpack _). by vm_compute.
  - reflexivity.
Defined.

(** The notations without a ten do come back to their category. *)
Lemma other_notations_round_trip n tp pos :
  n ∈ all_categorized → contains_T n = false →
  ∃ cat, round_trip_on n tp pos = Done (cat, cat) (pos + 3).
Proof.
  intros Hin HT. apply elem_of_elements in Hin.
  pose proof others_round_trip_same as Hall. rewrite Forall_forall in Hall.
  destruct (Hall n Hin HT) as (cat & Hrt).
  exists cat. by apply round_trip_on_tape.
Qed.

End StartingHandRoundTrip.

(** ** Synthesis of hands *)

Section Synthesis.

Import QuestionGenerator.

Lemma deck_reset_Done deck tp pos :
  ∃ deck', Deck.reset deck tp pos = Done deck' (pos + 51).
Proof.
  unfold Deck.reset.
  destruct (shuffle_perm Deck.fresh_cards tp pos) as (y & Hy & _).
  exists (Deck.mk y). by rewrite (rnd_bind_Done _ _ _ _ _ _ Hy).
Qed.

Lemma choice_Done {A} (l : list A) tp pos :
  l ≠ [] → ∃ a, choice l tp pos = Done a (S pos) ∧ a ∈ l.
Proof.
  intros Hne. destruct l as [|x l]; [done|].
  unfold choice, mbind, rnd_bind, randbelow, lift, getitem.
  destruct (lookup_lt_is_Some_2 (x :: l) (tp pos mod length (x :: l))) as [a Ha].
  { apply Nat.mod_upper_bound. done. }
  rewrite Ha. exists a. split; [done|]. by apply list_elem_of_lookup_2 in Ha.
Qed.

Lemma randint_Done a b tp pos :
  a ≤ b →
  randint a b tp pos = Done (a + Z.of_nat (tp pos mod Z.to_nat (b - a + 1))) (S pos).
Proof.
  intros Hab. unfold randint. by destruct (Z.ltb_spec b a); [lia|].
Qed.

(** The straight-flush constructor fails when the high rank drawn is 5: the
    ranks run down to 1, which is no rank. *)
Lemma make_straight_flush_five deck tp pos :
  (tp (S pos) mod 5 = 0)%nat →
  _make_straight_flush deck tp pos = Fail ValueError.
Proof.
  intros Hdraw. unfold _make_straight_flush.
  destruct (choice_Done Suit.members tp pos) as (suit & Hsuit & _); [done|].
  rewrite (rnd_bind_Done _ _ _ _ _ _ Hsuit).
  rewrite (rnd_bind_Done _ _ _ _ _ _ (randint_Done 5 9 tp (S pos) ltac:(lia))).
  change (Z.to_nat (9 - 5 + 1)) with 5%nat. rewrite Hdraw. done.
Qed.

(** C2 at its failing input: when the target is a straight flush and the
    draw for the high rank of the first attempt picks 5, the constructor's
    [ValueError] leaves [_generate_hand_of_rank]: no hand is returned, no
    retry, no fallback. *)
Theorem generate_straight_flush_raises fuel exclude_cards tp pos :
  (tp (pos + 103) mod 5 = 0)%nat →
  _generate_hand_of_rank fuel HandRank.STRAIGHT_FLUSH exclude_cards tp pos
  = Fail ValueError.
Proof.
  intros Hdraw. unfold _generate_hand_of_rank, Deck.new.
  destruct (deck_reset_Done (Deck.mk []) tp pos) as (deck0 & Hd0).
  rewrite (rnd_bind_Done _ _ _ _ _ _ Hd0).
  unfold mbind, rnd_bind. unfold max_attempts. cbn [attempts].
  set (d := remove_excluded deck0 exclude_cards).
  destruct (deck_reset_Done d tp (pos + 51)) as (deck1 & Hd1).
  unfold mbind, rnd_bind. rewrite Hd1. cbn [make_hand].
  rewrite make_straight_flush_five; [done|].
  replace (S (pos + 51 + 51)) with (pos + 103)%nat by lia. done.
Qed.

Lemma generate_straight_flush_raises_witness :
  _generate_hand_of_rank 0 HandRank.STRAIGHT_FLUSH None zero_tape 0%nat
  = Fail ValueError.
Proof.
  apply (generate_straight_flush_raises 0 None zero_tape 0%nat). reflexivity.
Defined.

(** C7 at its failing input: at difficulty 3, when the rank drawn is the
    royal flush and both syntheses draw the same suit, the second hand is
    made of the five cards of the first. *)
Theorem which_wins_same_hand_twice fuel :
  ∃ q next cards2,
    _generate_which_wins_question fuel 3 royal_tape 0%nat = Done q next ∧
    GeneratedQuestion.cards2 q = Some cards2 ∧
    cards2 = GeneratedQuestion.cards q ∧
    share_a_card (GeneratedQuestion.cards q) cards2 ∧
    GeneratedQuestion.correct_answer q = "Tie".
Proof.
  eexists _, _, _. split; [by vm_compute|]. split; [done|]. split; [done|].
  split; [|done]. eexists. split; by left.
Qed.

(** The suits drawn on the zero tape are five hearts, draw after draw. *)
Lemma five_suits_zero pos :
  five_suits Suit.members zero_tape pos
  = Done (replicate 5 Suit.HEARTS) (pos + 5).
Proof.
  unfold five_suits. cbn [seq mapM].
  unfold mbind, rnd_bind, choice, randbelow, lift, zero_tape. simpl.
  unfold mret, rnd_ret. f_equal. lia.
Qed.

Lemma redraw_suits_zero fuel : ∀ pos,
  while fuel (λ card_suits, mret (one_suit card_suits))
        (λ _, five_suits Suit.members) (replicate 5 Suit.HEARTS) zero_tape pos
  = Diverge.
Proof.
  induction fuel as [|fuel IH]; intros pos; [done|].
  cbn [while]. unfold mbind at 1. unfold rnd_bind, lift.
  change (mret (one_suit (replicate 5 Suit.HEARTS))) with (Ok true).
  cbv iota beta. unfold mbind, rnd_bind. rewrite five_suits_zero. apply IH.
Qed.

(** A run that never returns: on the zero tape the straight constructor
    draws five hearts for ever, whatever the bound on its loop. *)
Lemma make_straight_diverges fuel deck pos :
  _make_straight fuel deck zero_tape pos = Diverge.
Proof.
  unfold _make_straight.
  rewrite (rnd_bind_Done _ _ _ _ _ _ (randint_Done 5 14 zero_tape pos ltac:(lia))).
  change (5 + Z.of_nat (zero_tape pos mod Z.to_nat (14 - 5 + 1)) =? 14) with false.
  change (5 + Z.of_nat (zero_tape pos mod Z.to_nat (14 - 5 + 1)) =? 5) with true.
  cbv iota beta zeta.
  rewrite (rnd_bind_Done _ _ _ _ _ _ (five_suits_zero (S pos))).
  unfold mbind, rnd_bind. by rewrite redraw_suits_zero.
Qed.

End Synthesis.

(** ** Floating-point accuracy against exact arithmetic *)

Section Accuracy.

Lemma thresholds_agree_computed : thresholds_agree_upto 40 = true.
Proof. by vm_compute. Qed.

(** Up to 40 attempts the rounding of the accuracy changes neither test. *)
Lemma accuracy_thresholds_exact correct total :
  0 ≤ correct ≤ total → 1 ≤ total ≤ 40 →
  Float.geb (rule_accuracy correct total) (Float.const 80)
    = (80 * total <=? 100 * correct) ∧
  Float.ltb (rule_accuracy correct total) (Float.const 50)
    = (100 * correct <? 50 * total).
Proof.
  intros Hc Ht. pose proof thresholds_agree_computed as Hall.
  unfold thresholds_agree_upto in Hall. rewrite forallb_forall in Hall.
  specialize (Hall (Z.to_nat total)). rewrite forallb_forall in Hall.
  specialize (Hall ltac:(apply in_seq; lia) (Z.to_nat correct) ltac:(apply in_seq; lia)).
  rewrite !Z2Nat.id in Hall by lia. unfold thresholds_agree in Hall.
  apply andb_prop in Hall as [H80 H50].
  apply Bool.eqb_prop in H80, H50. done.
Qed.

(** Far beyond any counter a user reaches, the rounding shows: here the
    exact accuracy is below 80 and the computed one is 80. *)
Lemma accuracy_rounds_to_threshold :
  let correct := 1441151880758559 in
  let total := 1801439850948199 in
  100 * correct < 80 * total ∧
  Float.geb (rule_accuracy correct total) (Float.const 80) = true.
Proof. split; [lia|by vm_compute]. Qed.

End Accuracy.

(** ** Cards and the deck *)

Section CardsAndDeck.

(** X1: the text of a card parses back to the card, for each of the 52
    cards (ten is written "10"); so two different cards never print the
    same. *)
Theorem card_string_round_trip c :
  Card.from_string (Card.to_str c) = Ok c ∧
  ∀ c', Card.to_str c = Card.to_str c' → c = c'.
Proof.
  assert (∀ d, Card.from_string (Card.to_str d) = Ok d) as Hrt.
  { intros [r s]. by destruct r, s. }
  split; [apply Hrt|].
  intros c' Heq. pose proof (Hrt c) as H1. rewrite Heq, Hrt in H1. congruence.
Qed.

Lemma parse_cards_cons s strs :
  parse_cards (s :: strs) =
  c ← Card.from_string s; cs ← parse_cards strs; mret (c :: cs).
Proof. reflexivity. Qed.

(** X2: [parse_cards] returns the cards of the strings, one for one, when
    every string parses; otherwise it raises the error of the first string
    that does not parse. *)
Theorem parse_cards_first_error strs :
  (∀ cs, parse_cards strs = Ok cs ↔
         Forall2 (λ s c, Card.from_string s = Ok c) strs cs) ∧
  (∀ e, parse_cards strs = Raise e ↔
        ∃ i s, strs !! i = Some s ∧ Card.from_string s = Raise e ∧
               ∀ j s', (j < i)%nat → strs !! j = Some s' →
                       ∃ c, Card.from_string s' = Ok c).
Proof.
  induction strs as [|s strs [IHok IHerr]].
  - split.
    + intros cs. split.
      * intros [= <-]. constructor.
      * intros Hall. by apply Forall2_nil_inv_l in Hall as ->.
    + intros e. split; [done|]. by intros (i & s & Hi & _).
  - split.
    + intros cs. rewrite parse_cards_cons. split.
      * destruct (Card.from_string s) as [c|] eqn:Hs; [|done]. rewrite bind_Ok.
        destruct (parse_cards strs) as [cs'|] eqn:Hrest; [|done].
        rewrite bind_Ok. intros [= <-]. constructor; [done|]. by apply IHok.
      * intros Hall. apply Forall2_cons_inv_l in Hall as (c & cs' & Hs & Hrest & ->).
        apply IHok in Hrest. by rewrite Hs, bind_Ok, Hrest.
    + intros e. rewrite parse_cards_cons. split.
      * destruct (Card.from_string s) as [c|e'] eqn:Hs.
        -- rewrite bind_Ok. destruct (parse_cards strs) as [cs'|e'] eqn:Hrest; [done|].
           intros [= <-]. destruct (proj1 (IHerr e') eq_refl) as (i & s' & Hi & Hs' & Hbefore).
           exists (S i), s'. split; [done|]. split; [done|].
           intros [|j] s'' Hj Hlook; simpl in Hlook.
           ++ injection Hlook as <-. eauto.
           ++ apply (Hbefore j); [lia|done].
        -- intros [= <-]. exists 0%nat, s. split; [done|]. split; [done|]. lia.
      * intros ([|i] & s' & Hi & Hs' & Hbefore); simpl in Hi.
        -- injection Hi as <-. by rewrite Hs'.
        -- destruct (Hbefore 0%nat s) as [c Hc]; [lia|done|].
           rewrite Hc, bind_Ok.
           assert (parse_cards strs = Raise e) as ->; [|done].
           apply IHerr. exists i, s'. split; [done|]. split; [done|].
           intros j s'' Hj Hlook. apply (Hbefore (S j)); [lia|done].
Qed.

Lemma fresh_cards_all c : c ∈ Deck.fresh_cards.
Proof. destruct c as [r s]. destruct r, s; apply (bool_decide_unpack _); by vm_compute. Qed.

Lemma fresh_cards_NoDup : NoDup Deck.fresh_cards.
Proof. apply (bool_decide_unpack _). by vm_compute. Qed.

(** X3: whatever the deck held and whatever the random draws,
    [Deck.reset] takes 51 draws and leaves a deck of 52 cards that holds
    every card exactly once. *)
Theorem deck_reset_full deck tp pos :
  ∃ cs, Deck.reset deck tp pos = Done (Deck.mk cs) (pos + 51) ∧
        length cs = 52%nat ∧ NoDup cs ∧ ∀ c, c ∈ cs.
Proof.
  unfold Deck.reset.
  destruct (shuffle_perm Deck.fresh_cards tp pos) as (y & Hy & Hperm).
  exists y. rewrite (rnd_bind_Done _ _ _ _ _ _ Hy). split; [done|].
  split; [by rewrite Hperm|]. split; [rewrite Hperm; apply fresh_cards_NoDup|].
  intros c. rewrite Hperm. apply fresh_cards_all.
Qed.



Lemma filter_all {A} (P : A → Prop) `{∀ x, Decision (P x)} (l : list A) :
  (∀ x, x ∈ l → P x) → filter P l = l.
Proof.
  induction l as [|y l IH]; [done|]. intros Hall.
  rewrite filter_cons, decide_True by (apply Hall; by left).
  rewrite IH; [done|]. intros x Hx. apply Hall. by right.
Qed.

Lemma list_remove_NoDup (c : Card.t) l :
  NoDup l → list_remove c l = filter (λ x, x ≠ c) l.
Proof.
  induction l as [|y l IH]; [done|]. intros [Hy Hnd]%NoDup_cons. simpl.
  rewrite filter_cons. destruct (decide (y = c)) as [->|Hne].
  - rewrite decide_False by (by intros ?).
    symmetry. apply filter_all. by intros x Hx ->.
  - rewrite decide_True by done. by rewrite IH.
Qed.

Lemma remove_each_all wanted : ∀ deck,
  NoDup (Deck.cards deck) → NoDup wanted → wanted ⊆ Deck.cards deck →
  Deck.remove_each wanted deck
  = (Deck.mk (filter (λ c, c ∉ wanted) (Deck.cards deck)), Ok tt).
Proof.
  induction wanted as [|c wanted IH]; intros [cards] Hnd Hw Hsub; simpl in *.
  - f_equal. f_equal. symmetry. apply filter_all. intros x _. apply not_elem_of_nil.
  - apply NoDup_cons in Hw as [Hc Hw].
    rewrite decide_True by (apply Hsub; by left).
    rewrite IH; simpl.
    + rewrite list_remove_NoDup by done. rewrite list_filter_filter.
      do 2 f_equal. apply list_filter_iff; [].
      intros x. rewrite not_elem_of_cons. tauto.
    + rewrite list_remove_NoDup by done. by apply NoDup_filter.
    + done.
    + intros x Hx. rewrite list_remove_NoDup by done.
      apply list_elem_of_filter. split; [by intros ->|].
      apply Hsub. by right.
Qed.

Lemma remove_each_app pre rest : ∀ deck,
  Deck.remove_each (pre ++ rest) deck =
  match Deck.remove_each pre deck with
  | (deck', Ok _) => Deck.remove_each rest deck'
  | (deck', Raise e) => (deck', Raise e)
  end.
Proof.
  induction pre as [|c pre IH]; intros deck; simpl; [done|].
  destruct (decide (c ∈ Deck.cards deck)); [apply IH|done].
Qed.

(** X5: on a deck without duplicates, [draw_specific] first parses every
    string and leaves the deck alone when one does not parse; it then
    returns the cards and a deck without them when they are distinct cards
    of the deck; and when the card at position [i] is the first one that is
    absent from the deck or asked twice, it raises [ValueError] and the
    deck has lost the cards asked before it. *)
Theorem draw_specific_outcome deck strs :
  NoDup (Deck.cards deck) →
  (∀ e, parse_cards strs = Raise e → Deck.draw_specific deck strs = (deck, Raise e)) ∧
  (∀ wanted, parse_cards strs = Ok wanted →
     (NoDup wanted → wanted ⊆ Deck.cards deck →
      Deck.draw_specific deck strs
      = (Deck.mk (filter (λ c, c ∉ wanted) (Deck.cards deck)), Ok wanted)) ∧
     (∀ i c, wanted !! i = Some c →
        c ∉ Deck.cards deck ∨ c ∈ take i wanted →
        NoDup (take i wanted) → take i wanted ⊆ Deck.cards deck →
        Deck.draw_specific deck strs
        = (Deck.mk (filter (λ c, c ∉ take i wanted) (Deck.cards deck)),
           Raise ValueError))).
Proof.
  intros Hnd. unfold Deck.draw_specific. split.
  - by intros e ->.
  - intros wanted ->. split.
    + intros Hw Hsub. by rewrite remove_each_all.
    + intros i c Hi Hbad Hpre Hsub.
      rewrite <- (take_drop_middle wanted i c Hi) at 1.
      rewrite remove_each_app, remove_each_all by done. simpl.
      rewrite decide_False; [done|].
      rewrite list_elem_of_filter. intros [Hnot Hin]. by destruct Hbad.
Qed.

Lemma draw_specific_outcome_witness :
  Deck.draw_specific (Deck.mk six_cards) ["Ah"; "2d"; "Ah"; "Kh"]
  = (Deck.mk (filter (λ c, c ∉ take 2 [card Rank.ACE Suit.HEARTS; card Rank.TWO Suit.DIAMONDS;
                                        card Rank.ACE Suit.HEARTS; card Rank.KING Suit.HEARTS])
                     six_cards),
     Raise ValueError).
Proof.
  refine (proj2 (proj2 (draw_specific_outcome (Deck.mk six_cards)
                          ["Ah"; "2d"; "Ah"; "Kh"] _) _ eq_refl)
                2%nat (card Rank.ACE Suit.HEARTS) eq_refl _ _ _).
  - apply (bool_decide_unpack _). by vm_compute.
  - right. by left.
  - apply (bool_decide_unpack _). by vm_compute.
  - intros x Hx. apply (bool_decide_unpack _).
    simpl in Hx. apply elem_of_cons in Hx as [->|Hx]; [by vm_compute|].
    apply list_elem_of_singleton in Hx as ->. by vm_compute.
Defined.

End CardsAndDeck.

(** ** More on the evaluator *)

Section EvaluatorMore.

Import EvaluatedHand HandEvaluator.

(** X6: the evaluation of five cards depends on the order of the cards in
    its [cards] field only: category, primary values and kickers are those
    of any reordering. *)
Theorem five_cards_order_free c c' :
  c ≡ₚ c' → length c = 5%nat →
  ∃ h h', _evaluate_five c = Ok h ∧ _evaluate_five c' = Ok h' ∧
          rank h' = rank h ∧ primary_values h' = primary_values h ∧
          kickers h' = kickers h ∧ score h' = score h ∧
          EvaluatedHand.cards h' = c'.
Proof.
  intros Hperm Hlen. destruct (evaluate_five_total c Hlen) as [h Hh].
  exists h. eexists. split; [done|].
  rewrite (evaluate_five_perm c c' Hperm), Hh. by repeat split.
Qed.

Lemma five_cards_order_free_witness :
  ∃ h h', _evaluate_five pair_of_aces = Ok h ∧
          _evaluate_five (reverse pair_of_aces) = Ok h' ∧
          rank h' = rank h ∧ primary_values h' = primary_values h ∧
          kickers h' = kickers h ∧ score h' = score h ∧
          EvaluatedHand.cards h' = reverse pair_of_aces.
Proof.
  apply (five_cards_order_free pair_of_aces (reverse pair_of_aces)).
  - symmetry. apply reverse_Permutation.
  - reflexivity.
Defined.

(** The best hand of a selection of the cards is not above the best hand
    of all the cards. *)
Lemma first_best_submseteq a b h i h' i' :
  a ⊆+ b →
  first_best (combinations a 5) h i → first_best (combinations b 5) h' i' →
  tuple_le (score h) (score h').
Proof.
  intros Hab Hbest Hbest'.
  destruct (first_best_cards _ _ _ Hbest) as [H5 Hsub].
  assert (EvaluatedHand.cards h ⊆+ b) as Hin.
  { etrans; [by apply sublist_submseteq|done]. }
  apply submseteq_sublist_r in Hin as (c0 & Hperm & Hsub0).
  destruct (first_best_max b h' i' c0 Hbest' Hsub0) as (h0 & Hh0 & Hle).
  { by rewrite <- Hperm. }
  destruct Hbest as (_ & Hh & _).
  destruct (evaluate_five_perm_score _ _ _ Hperm Hh) as (h0' & Hh0' & Hscore).
  rewrite Hh0 in Hh0'. injection Hh0' as <-. by rewrite <- Hscore.
Qed.

Lemma tuple_le_antisym x y : tuple_le x y → tuple_le y x → x = y.
Proof.
  unfold tuple_le. rewrite (tuple_compare_antisym x y).
  destruct (tuple_compare x y) eqn:Hcmp; simpl; try done.
  intros _ _. by apply tuple_compare_eq.
Qed.

(** X7: on five cards or more, the score of [evaluate] does not depend on
    the order in which the cards are given, and a hand compared with a
    reordering of itself is a tie. *)
Theorem evaluate_order_free a a' :
  a ≡ₚ a' → (5 ≤ length a)%nat →
  ∃ h h', evaluate a = Ok (Some h) ∧ evaluate a' = Ok (Some h') ∧
          score h = score h' ∧ compare_hands a a' = Ok 0.
Proof.
  intros Hperm Hlen.
  assert (5 ≤ length a')%nat as Hlen' by (by rewrite <- Hperm).
  destruct (evaluate_first_best a Hlen) as (h & i & Hev & Hbest).
  destruct (evaluate_first_best a' Hlen') as (h' & i' & Hev' & Hbest').
  assert (score h = score h') as Hscore.
  { apply tuple_le_antisym.
    - apply (first_best_submseteq a a' h i h' i'); [by rewrite Hperm|done|done].
    - apply (first_best_submseteq a' a h' i' h i); [by rewrite Hperm|done|done]. }
  exists h, h'. split; [done|]. split; [done|]. split; [done|].
  destruct (compare_hands_sign a a' Hlen Hlen') as (e & e' & He & He' & ->).
  rewrite Hev in He. rewrite Hev' in He'. injection He as <-. injection He' as <-.
  by rewrite Hscore, tuple_compare_refl.
Qed.

Lemma evaluate_order_free_witness :
  ∃ h h', evaluate seven_cards = Ok (Some h) ∧
          evaluate (reverse seven_cards) = Ok (Some h') ∧
          score h = score h' ∧ compare_hands seven_cards (reverse seven_cards) = Ok 0.
Proof.
  apply (evaluate_order_free seven_cards (reverse seven_cards)).
  - symmetry. apply reverse_Permutation.
  - vm_compute. lia.
Defined.

(** X8: more cards never make a worse hand: when the cards of [a] (five or
    more) are among those of [b], the score of [b] is not below the score
    of [a], and [b] wins or ties against [a]. *)
Theorem evaluate_more_cards a b :
  a ⊆+ b → (5 ≤ length a)%nat →
  ∃ h h', evaluate a = Ok (Some h) ∧ evaluate b = Ok (Some h') ∧
          tuple_le (score h) (score h') ∧
          (compare_hands b a = Ok 1 ∨ compare_hands b a = Ok 0).
Proof.
  intros Hab Hlen.
  assert (5 ≤ length b)%nat as Hlen'.
  { apply submseteq_length in Hab. lia. }
  destruct (evaluate_first_best a Hlen) as (h & i & Hev & Hbest).
  destruct (evaluate_first_best b Hlen') as (h' & i' & Hev' & Hbest').
  pose proof (first_best_submseteq a b h i h' i' Hab Hbest Hbest') as Hle.
  exists h, h'. split; [done|]. split; [done|]. split; [done|].
  destruct (compare_hands_sign b a Hlen' Hlen) as (e' & e & He' & He & ->).
  rewrite Hev in He. rewrite Hev' in He'. injection He as <-. injection He' as <-.
  unfold tuple_le in Hle. rewrite (tuple_compare_antisym (score h') (score h)) in Hle.
  destruct (tuple_compare (score h') (score h)); simpl in *; auto. done.
Qed.

Lemma evaluate_more_cards_witness :
  ∃ h h', evaluate six_cards = Ok (Some h) ∧ evaluate seven_cards = Ok (Some h') ∧
          tuple_le (score h) (score h') ∧
          (compare_hands seven_cards six_cards = Ok 1 ∨
           compare_hands seven_cards six_cards = Ok 0).
Proof.
  apply (evaluate_more_cards six_cards seven_cards).
  - apply sublist_submseteq. unfold seven_cards. by apply sublist_inserts_r.
  - vm_compute. lia.
Defined.

(** [_evaluate_five] goes through the rank values and the flush test. *)
Lemma evaluate_five_classify cards :
  _evaluate_five cards =
  (λ rpk, mk rpk.1.1 rpk.1.2 rpk.2 cards) <$> classify (values_of cards) (single_suit cards).
Proof.
  unfold _evaluate_five, classify, values_of, single_suit.
  set (ranks := sorted_desc _). set (flush := bool_decide _).
  destruct (_check_straight ranks) as [[is_straight high]|e]; [|done].
  rewrite !bind_Ok.
  repeat (match goal with
          | |- context [if ?b then _ else _] => destruct b
          | |- context [getitem ?l ?i ≫= _] => destruct (getitem l i); [rewrite !bind_Ok|done]
          end); reflexivity.
Qed.

Lemma classify_perm v v' f : v ≡ₚ v' → classify v f = classify v' f.
Proof. intros Hperm. unfold classify. by rewrite (sorted_desc_of_perm v v' Hperm). Qed.

Lemma classify_no_flush v r p k :
  classify v false = Ok (r, p, k) → flush_family r = false.
Proof.
  unfold classify. cbn [andb].
  destruct (_check_straight _) as [[is_straight high]|e]; [|done].
  rewrite !bind_Ok.
  repeat (match goal with
          | |- context [if ?b then _ else _] => destruct b
          | |- context [getitem ?l ?i ≫= _] => destruct (getitem l i); [rewrite !bind_Ok|done]
          end); by intros [= <- <- <-].
Qed.

(** All the cards show one suit exactly when the flush test holds. *)
Lemma single_suit_iff cards :
  cards ≠ [] →
  single_suit cards = true ↔ ∃ s, ∀ c, c ∈ cards → Card.suit c = s.
Proof.
  intros Hne. unfold single_suit. rewrite bool_decide_eq_true. split.
  - intros Hsize. destruct cards as [|c0 cards]; [done|].
    exists (Card.suit c0). intros c Hc.
    assert (∀ s s', suit_code s = suit_code s' → s = s') as Hinj
      by (by intros [] []).
    apply Hinj. apply (size_singleton_inv _ _ _ Hsize).
    + apply elem_of_list_to_set, list_elem_of_In, in_map, in_map. by apply list_elem_of_In.
    + apply elem_of_list_to_set. by left.
  - intros [s Hall].
    assert ((list_to_set (map suit_code (map Card.suit cards)) : gset Z)
            = {[ suit_code s ]}) as ->; [|apply size_singleton].
    apply set_eq. intros x. rewrite elem_of_list_to_set, elem_of_singleton. split.
    + intros Hx. apply list_elem_of_In, in_map_iff in Hx as (s' & <- & Hs').
      apply in_map_iff in Hs' as (c & <- & Hc). f_equal. apply Hall.
      by apply list_elem_of_In.
    + intros ->. destruct cards as [|c0 cards]; [done|]. simpl.
      rewrite (Hall c0) by (by left). by left.
Qed.

Lemma rank_in_members r : r ∈ Rank.members.
Proof. destruct r; apply (bool_decide_unpack _); by vm_compute. Qed.

(** Distinct ranks are, up to their order, one of the combinations of the
    thirteen ranks. *)
Lemma distinct_ranks_combination (rs : list Rank.t) :
  NoDup rs → ∃ c0, c0 ∈ combinations Rank.members (length rs) ∧ rs ≡ₚ c0.
Proof.
  intros Hnd.
  assert (rs ⊆+ Rank.members) as Hsub.
  { apply NoDup_submseteq; [done|]. intros r _. apply rank_in_members. }
  apply submseteq_sublist_r in Hsub as (c0 & Hperm & Hsub).
  exists c0. split; [|done]. rewrite Hperm. by apply combinations_complete.
Qed.

Lemma check_one_suit_computed : check_one_suit = true.
Proof. by vm_compute. Qed.

(** X9: five distinct cards evaluate to a flush, a straight flush or a
    royal flush exactly when they are all of one suit. *)
Theorem flush_family_iff_one_suit cards h :
  NoDup cards → length cards = 5%nat → _evaluate_five cards = Ok h →
  flush_family (rank h) = true ↔ ∃ s, ∀ c, c ∈ cards → Card.suit c = s.
Proof.
  intros Hnd Hlen Hh.
  assert (cards ≠ []) as Hne by (by intros ->).
  rewrite <- (single_suit_iff cards Hne).
  rewrite evaluate_five_classify in Hh.
  destruct (classify (values_of cards) (single_suit cards)) as [[[r p] k]|e] eqn:Hcl;
    [|done]. injection Hh as <-. simpl.
  destruct (single_suit cards) eqn:Hsuit.
  - split; [done|]. intros _.
    apply (single_suit_iff cards Hne) in Hsuit as [s Hs].
    assert (NoDup (map Card.rank cards)) as Hranks.
    { apply NoDup_fmap_2_strong; [|done]. intros [r1 s1] [r2 s2] H1 H2 Heq.
      simpl in Heq. subst r2. f_equal.
      apply Hs in H1, H2. simpl in *. congruence. }
    destruct (distinct_ranks_combination _ Hranks) as (c0 & Hc0 & Hperm).
    rewrite length_map, Hlen in Hc0.
    pose proof check_one_suit_computed as Hall. unfold check_one_suit in Hall.
    rewrite forallb_forall in Hall. specialize (Hall c0).
    unfold category_of in Hall.
    rewrite <- (classify_perm (values_of cards)) in Hall.
    + rewrite Hcl in Hall. apply Hall. by apply list_elem_of_In.
    + unfold values_of. rewrite <- (map_map Card.rank Rank.value).
      by apply Permutation_map.
  - split; [|done]. intros Hf. by rewrite (classify_no_flush _ _ _ _ Hcl) in Hf.
Qed.

Lemma flush_family_iff_one_suit_witness :
  ∃ h, _evaluate_five pair_of_aces = Ok h ∧
       (flush_family (rank h) = true ↔
        ∃ s, ∀ c, c ∈ pair_of_aces → Card.suit c = s).
Proof.
  eexists. split; [reflexivity|].
  apply (flush_family_iff_one_suit pair_of_aces).
  - apply (bool_decide_unpack _). by vm_compute.
  - reflexivity.
  - reflexivity.
Defined.

End EvaluatorMore.

(** ** The random monad, its loops and draws *)

Section RandomMore.

Import QuestionGenerator.

Lemma rnd_bind_inv {A B} (m : rnd A) (f : A → rnd B) tp pos b next :
  (m ≫= f) tp pos = Done b next →
  ∃ a mid, m tp pos = Done a mid ∧ f a tp mid = Done b next.
Proof.
  unfold mbind, rnd_bind. destruct (m tp pos) as [a mid| |]; intros Hf;
    [|discriminate|discriminate].
  by exists a, mid.
Qed.

Lemma rnd_bind_Fail_inv {A B} (m : rnd A) (f : A → rnd B) tp pos e :
  (m ≫= f) tp pos = Fail e →
  m tp pos = Fail e ∨ ∃ a mid, m tp pos = Done a mid ∧ f a tp mid = Fail e.
Proof.
  unfold mbind, rnd_bind. destruct (m tp pos) as [a mid|e'|]; intros Hf;
    [| |discriminate].
  - right. by exists a, mid.
  - left. by injection Hf as ->.
Qed.

Lemma lift_Ok_bind {A B} (a : A) (f : A → rnd B) tp pos :
  (lift (Ok a) ≫= f) tp pos = f a tp pos.
Proof. done. Qed.

Lemma lift_Done {A} (r : result A) tp pos a next :
  lift r tp pos = Done a next → r = Ok a ∧ next = pos.
Proof. unfold lift. destruct r; [|done]. by intros [= -> ->]. Qed.

(** A loop that returns leaves its invariant established and its condition
    false; the body runs only where the condition holds. *)
Lemma while_Done_cond {S} (I : S → Prop) (cond : S → result bool) (body : S → rnd S) :
  (∀ s tp pos s1 p1, I s → cond s = Ok true → body s tp pos = Done s1 p1 → I s1) →
  ∀ fuel s tp pos s' next,
    I s → while fuel cond body s tp pos = Done s' next →
    I s' ∧ cond s' = Ok false.
Proof.
  intros Hbody. induction fuel as [|fuel IH]; intros s tp pos s' next Hs; [done|].
  cbn [while]. intros Hrun.
  apply rnd_bind_inv in Hrun as (c & mid & Hc & Hrun).
  apply lift_Done in Hc as [Hc ->]. destruct c.
  - apply rnd_bind_inv in Hrun as (s1 & p1 & Hs1 & Hrun).
    eapply IH; [|done]. by eapply Hbody.
  - by injection Hrun as <- <-.
Qed.

Lemma while_Done {S} (I : S → Prop) (cond : S → result bool) (body : S → rnd S) :
  (∀ s tp pos s1 p1, I s → body s tp pos = Done s1 p1 → I s1) →
  ∀ fuel s tp pos s' next,
    I s → while fuel cond body s tp pos = Done s' next →
    I s' ∧ cond s' = Ok false.
Proof.
  intros Hbody. apply while_Done_cond.
  intros s tp pos s1 p1 Hs _. by apply Hbody.
Qed.

(** A loop whose condition and body cannot fail does not fail. *)
Lemma while_no_Fail {S} (I : S → Prop) (cond : S → result bool) (body : S → rnd S) :
  (∀ s, I s → ∃ b, cond s = Ok b) →
  (∀ s tp pos, I s → ∃ s1 p1, body s tp pos = Done s1 p1 ∧ I s1) →
  ∀ fuel s tp pos e, I s → while fuel cond body s tp pos ≠ Fail e.
Proof.
  intros Hcond Hbody. induction fuel as [|fuel IH]; intros s tp pos e Hs; [done|].
  cbn [while]. destruct (Hcond s Hs) as [b ->]. rewrite lift_Ok_bind.
  destruct b; [|done].
  destruct (Hbody s tp pos Hs) as (s1 & p1 & Hs1 & HI).
  rewrite (rnd_bind_Done _ _ _ _ _ _ Hs1). by apply IH.
Qed.

Lemma insert_swap_perm {A} (l : list A) j a b :
  l !! j = Some a → a :: <[j := b]> l ≡ₚ b :: l.
Proof.
  revert j. induction l as [|x l IH]; intros [|j] Hj; try done.
  - injection Hj as ->. simpl. apply perm_swap.
  - simpl in Hj. change (a :: x :: <[j := b]> l ≡ₚ b :: x :: l).
    etrans; [apply perm_swap|]. etrans; [apply perm_skip, (IH j Hj)|].
    apply perm_swap.
Qed.

(** The pool loop of [random.sample] returns [k] of the first [n] elements
    of the pool, each taken once. *)
Lemma sample_pool_picks {A} k : ∀ n (pool : list A) tp pos,
  (k ≤ n ≤ length pool)%nat →
  ∃ ys, sample_pool k n pool tp pos = Done ys (pos + k) ∧
        length ys = k ∧ ys ⊆+ take n pool.
Proof.
  induction k as [|k IH]; intros n pool tp pos Hn.
  - exists []. rewrite Nat.add_0_r. split; [done|]. split; [done|].
    apply submseteq_nil_l.
  - cbn [sample_pool].
    assert (tp pos mod n < n)%nat as Hj by (apply Nat.mod_upper_bound; lia).
    set (j := (tp pos mod n)%nat) in *.
    destruct (lookup_lt_is_Some_2 pool j) as [a Ha]; [lia|].
    destruct (lookup_lt_is_Some_2 pool (n - 1)) as [b Hb]; [lia|].
    destruct (IH (n - 1)%nat (<[j := b]> pool) tp (S pos)) as (ys & Hys & Hlen & Hsub).
    { rewrite length_insert. lia. }
    exists (a :: ys). split; [|split].
    + unfold mbind at 1. unfold rnd_bind, randbelow. fold j.
      unfold getitem. rewrite Ha, lift_Ok_bind, Hb, lift_Ok_bind.
      rewrite (rnd_bind_Done _ _ _ _ _ _ Hys). unfold mret, rnd_ret. f_equal. lia.
    + simpl. by rewrite Hlen.
    + assert (take n pool = take (n - 1) pool ++ [b]) as ->.
      { replace n with (S (n - 1)) at 1 by lia. by apply take_S_r. }
      destruct (decide (j = n - 1)%nat) as [->|Hne].
      * rewrite Ha in Hb. injection Hb as ->.
        rewrite list_insert_id in Hsub by done.
        rewrite <- Permutation_cons_append. by apply submseteq_skip.
      * rewrite take_insert_lt in Hsub by lia.
        rewrite <- Permutation_cons_append.
        rewrite <- (insert_swap_perm (take (n - 1) pool) j a b).
        -- by apply submseteq_skip.
        -- rewrite lookup_take_lt by lia. done.
Qed.

Lemma sample_picks {A} (population : list A) k tp pos :
  (k ≤ length population)%nat → NoDup population →
  ∃ ys, sample population k tp pos = Done ys (pos + k) ∧
        length ys = k ∧ NoDup ys ∧ ys ⊆ population.
Proof.
  intros Hk Hnd. unfold sample.
  destruct (Nat.ltb_spec (length population) k) as [?|_]; [lia|].
  destruct (sample_pool_picks k (length population) population tp pos)
    as (ys & Hys & Hlen & Hsub); [lia|].
  rewrite firstn_all in Hsub.
  exists ys. split; [done|]. split; [done|]. split.
  - apply submseteq_sublist_r in Hsub as (l' & Hperm & Hsub).
    rewrite Hperm. eapply sublist_NoDup; [done|done].
  - intros x Hx. by eapply elem_of_submseteq.
Qed.

(** A list of draws that each take one tape entry. *)
Lemma mapM_rnd_Done {A B} (f : A → rnd B) (R : A → B → Prop) l :
  (∀ x tp pos, x ∈ l → ∃ y, f x tp pos = Done y (S pos) ∧ R x y) →
  ∀ tp pos, ∃ ys, mapM f l tp pos = Done ys (pos + length l) ∧ Forall2 R l ys.
Proof.
  induction l as [|x l IH]; intros Hf tp pos.
  - exists []. rewrite Nat.add_0_r. by split.
  - destruct (Hf x tp pos) as (y & Hy & HR); [by left|].
    destruct (IH (λ x tp pos Hx, Hf x tp pos (list_elem_of_further _ _ _ Hx)) tp (S pos))
      as (ys & Hys & HRs).
    exists (y :: ys). split; [|by constructor].
    cbn [mapM]. rewrite (rnd_bind_Done _ _ _ _ _ _ Hy), (rnd_bind_Done _ _ _ _ _ _ Hys).
    unfold mret, rnd_ret. cbn [length]. f_equal. lia.
Qed.

(** Five suit draws always return five suits. *)
Lemma five_suits_Done tp pos :
  ∃ a b c d e, five_suits Suit.members tp pos = Done [a; b; c; d; e] (pos + 5).
Proof.
  destruct (mapM_rnd_Done (λ _ : nat, choice Suit.members) (λ _ _, True) (seq 0 5))
    with (tp := tp) (pos := pos) as (ys & Hys & HR).
  { intros x tp' pos' _. destruct (choice_Done Suit.members tp' pos') as (a & Ha & _);
      [done|]. by exists a. }
  apply Forall2_length in HR.
  destruct ys as [|a [|b [|c [|d [|e [|? ?]]]]]]; try done.
  by exists a, b, c, d, e.
Qed.

Lemma shuffle_suits_NoDup tp pos :
  ∃ a b c d, shuffle Suit.members tp pos = Done [a; b; c; d] (pos + 3) ∧
             NoDup [a; b; c; d].
Proof.
  destruct (shuffle_perm Suit.members tp pos) as (y & Hy & Hperm).
  assert (NoDup y) as Hnd.
  { rewrite Hperm. apply (bool_decide_unpack _). by vm_compute. }
  pose proof (Permutation_length Hperm) as Hlen.
  destruct y as [|a [|b [|c [|d [|? ?]]]]]; try done.
  by exists a, b, c, d.
Qed.

Lemma ranks_other_than_length r : length (ranks_other_than r) = 12%nat.
Proof. by destruct r. Qed.

Lemma ranks_other_than_elem r k : k ∈ ranks_other_than r → k ≠ r.
Proof. unfold ranks_other_than. rewrite list_elem_of_filter. by intros [? _]. Qed.

Lemma ranks_other_than_NoDup r : NoDup (ranks_other_than r).
Proof. destruct r; apply (bool_decide_unpack _); by vm_compute. Qed.

(** A shuffle of the twelve other ranks: distinct ranks, none of them [r]. *)
Lemma shuffle_other_ranks r tp pos :
  ∃ ks, shuffle (ranks_other_than r) tp pos = Done ks (pos + 11) ∧
        length ks = 12%nat ∧ NoDup ks ∧ ∀ k, k ∈ ks → k ≠ r.
Proof.
  destruct (shuffle_perm (ranks_other_than r) tp pos) as (ks & Hks & Hperm).
  rewrite ranks_other_than_length in Hks.
  exists ks. split; [done|]. split; [|split].
  - by rewrite Hperm, ranks_other_than_length.
  - rewrite Hperm. apply ranks_other_than_NoDup.
  - intros k Hk. rewrite Hperm in Hk. by apply ranks_other_than_elem.
Qed.

End RandomMore.

(** ** The hand constructors *)

Section Constructors.

Import EvaluatedHand HandEvaluator QuestionGenerator.

Lemma for_ranks_spec P : for_ranks P = true → ∀ r, P r = true.
Proof.
  unfold for_ranks. rewrite forallb_forall. intros HP r.
  apply HP, list_elem_of_In, rank_in_members.
Qed.

Lemma pattern_from_check d l f r :
  negb (distinct_ranks d) || pattern_is l f r = true →
  NoDup d → category_of l f = Some r.
Proof.
  intros Hcheck Hnd. unfold distinct_ranks in Hcheck.
  rewrite (bool_decide_eq_true_2 _ Hnd) in Hcheck. simpl in Hcheck.
  by apply bool_decide_eq_true in Hcheck.
Qed.

Lemma evaluate_exactly_five cs :
  length cs = 5%nat → evaluate cs = Some <$> _evaluate_five cs.
Proof. intros Hlen. unfold evaluate. by rewrite Hlen. Qed.

Lemma hand_of_category cs r :
  length cs = 5%nat → NoDup cs →
  category_of (map Card.rank cs) (single_suit cs) = Some r → hand_of r cs.
Proof.
  intros Hlen Hnd Hcat. split; [done|]. split; [done|].
  rewrite (evaluate_exactly_five cs Hlen), evaluate_five_classify.
  unfold category_of in Hcat.
  assert (values_of cs = map Rank.value (map Card.rank cs)) as ->.
  { unfold values_of. by rewrite map_map. }
  destruct (classify _ _) as [[[r' p] k]|e]; [|done]. injection Hcat as ->.
  eexists. split; [reflexivity|done].
Qed.

Lemma hand_of_inv cs r :
  hand_of r cs → category_of (map Card.rank cs) (single_suit cs) = Some r.
Proof.
  intros (Hlen & _ & h & Hh & Hr).
  rewrite (evaluate_exactly_five cs Hlen), evaluate_five_classify in Hh.
  unfold category_of.
  assert (values_of cs = map Rank.value (map Card.rank cs)) as <-.
  { unfold values_of. by rewrite map_map. }
  destruct (classify _ _) as [[[r' p] k]|e]; [|done].
  injection Hh as <-. simpl in Hr. by subst.
Qed.

Lemma single_suit_two cs c1 c2 :
  c1 ∈ cs → c2 ∈ cs → Card.suit c1 ≠ Card.suit c2 → single_suit cs = false.
Proof.
  intros H1 H2 Hne. destruct (single_suit cs) eqn:Hsuit; [|done].
  apply single_suit_iff in Hsuit as [s Hs].
  - destruct Hne. by rewrite (Hs c1 H1), (Hs c2 H2).
  - intros ->. by apply elem_of_nil in H1.
Qed.

Lemma zip_cards_ranks rs : ∀ ss,
  length rs = length ss → map Card.rank (zip_cards rs ss) = rs.
Proof.
  induction rs as [|r rs IH]; intros [|s ss] Hlen; try done.
  simpl. f_equal. apply IH. by injection Hlen.
Qed.

Lemma zip_cards_suits rs : ∀ ss,
  length rs = length ss → map Card.suit (zip_cards rs ss) = ss.
Proof.
  induction rs as [|r rs IH]; intros [|s ss] Hlen; try done.
  simpl. f_equal. apply IH. by injection Hlen.
Qed.

Lemma single_suit_zip rs ss :
  length rs = length ss → single_suit (zip_cards rs ss) = one_suit ss.
Proof. intros Hlen. unfold single_suit, one_suit. by rewrite zip_cards_suits. Qed.

Lemma hand_of_zip rs ss r :
  length rs = 5%nat → length ss = 5%nat → NoDup rs →
  category_of rs (one_suit ss) = Some r → hand_of r (zip_cards rs ss).
Proof.
  intros Hrs Hss Hnd Hcat.
  assert (length rs = length ss) as Hlen by congruence.
  apply hand_of_category.
  - unfold zip_cards. rewrite length_zip_with. lia.
  - apply (NoDup_fmap_1 Card.rank). change (NoDup (map Card.rank (zip_cards rs ss))).
    by rewrite zip_cards_ranks.
  - by rewrite zip_cards_ranks, single_suit_zip.
Qed.

Lemma hand_of_one_suit rs s r :
  length rs = 5%nat → NoDup rs →
  category_of rs true = Some r → hand_of r (map (λ rk, Card.mk rk s) rs).
Proof.
  intros Hrs Hnd Hcat. apply hand_of_category.
  - by rewrite length_map.
  - apply (NoDup_fmap_1 Card.rank).
    change (NoDup (map Card.rank (map (λ rk, Card.mk rk s) rs))).
    rewrite map_map. simpl. by rewrite map_id.
  - rewrite map_map. simpl. rewrite map_id.
    assert (single_suit (map (λ rk, Card.mk rk s) rs) = true) as ->; [|done].
    apply single_suit_iff.
    + destruct rs; done.
    + exists s. intros c Hc. apply list_elem_of_In, in_map_iff in Hc as (rk & <- & _).
      done.
Qed.

Ltac member := solve [repeat constructor].

Ltac distinct_cards :=
  repeat (apply NoDup_cons_2;
          [rewrite ?not_elem_of_cons; repeat split;
           try apply not_elem_of_nil; congruence|]);
  apply NoDup_nil_2.

Lemma NoDup_two {A} (a b : A) l : NoDup (a :: b :: l) → a ≠ b.
Proof. intros Hnd ->. apply NoDup_cons in Hnd as [Hnd _]. apply Hnd. by left. Qed.

Lemma NoDup_three {A} (a b c : A) l :
  NoDup (a :: b :: c :: l) → a ≠ b ∧ a ≠ c ∧ b ≠ c.
Proof.
  intros Hnd. split; [by eapply NoDup_two|].
  apply NoDup_cons in Hnd as [Ha Hnd]. split; [|by eapply NoDup_two].
  intros ->. apply Ha. by right; left.
Qed.

Lemma NoDup_four {A} (a b c d : A) l :
  NoDup (a :: b :: c :: d :: l) → a ≠ b ∧ a ≠ c ∧ b ≠ c ∧ c ≠ d.
Proof.
  intros Hnd. destruct (NoDup_three _ _ _ _ Hnd) as (? & ? & ?).
  repeat split; try done.
  apply NoDup_cons in Hnd as [_ Hnd]. apply NoDup_cons in Hnd as [_ Hnd].
  by eapply NoDup_two.
Qed.

Lemma check_four_of_a_kind_computed : check_four_of_a_kind = true.
Proof. by vm_compute. Qed.

Lemma check_full_house_computed : check_full_house = true.
Proof. by vm_compute. Qed.

Lemma check_three_of_a_kind_computed : check_three_of_a_kind = true.
Proof. by vm_compute. Qed.

Lemma check_two_pair_computed : check_two_pair = true.
Proof. by vm_compute. Qed.

Lemma check_one_pair_computed : check_one_pair = true.
Proof. by vm_compute. Qed.

Lemma check_five_distinct_computed : check_five_distinct = true.
Proof. by vm_compute. Qed.

Lemma make_royal_flush_hand deck tp pos :
  ∃ cs next, _make_royal_flush deck tp pos = Done cs next ∧
             hand_of HandRank.ROYAL_FLUSH cs.
Proof.
  unfold _make_royal_flush.
  destruct (choice_Done Suit.members tp pos) as (suit & Hs & _); [done|].
  rewrite (rnd_bind_Done _ _ _ _ _ _ Hs). eexists _, _. split; [reflexivity|].
  destruct suit;
    (apply hand_of_category;
     [done | apply (bool_decide_unpack _); by vm_compute | by vm_compute]).
Qed.

Lemma ranks_other_than_nonempty r : ranks_other_than r ≠ [].
Proof. by destruct r. Qed.

Lemma make_four_of_a_kind_hand deck tp pos :
  ∃ cs next, _make_four_of_a_kind deck tp pos = Done cs next ∧
             hand_of HandRank.FOUR_OF_A_KIND cs.
Proof.
  unfold _make_four_of_a_kind.
  destruct (choice_Done Rank.members tp pos) as (q & Hq & _); [done|].
  rewrite (rnd_bind_Done _ _ _ _ _ _ Hq).
  destruct (choice_Done (ranks_other_than q) tp (S pos)) as (k & Hk & Hkq);
    [apply ranks_other_than_nonempty|].
  apply ranks_other_than_elem in Hkq.
  rewrite (rnd_bind_Done _ _ _ _ _ _ Hk).
  destruct (choice_Done Suit.members tp (S (S pos))) as (ks & Hks & _); [done|].
  rewrite (rnd_bind_Done _ _ _ _ _ _ Hks).
  eexists _, _. split; [reflexivity|]. simpl.
  apply hand_of_category; [done|distinct_cards|]. simpl.
  rewrite (single_suit_two _ (Card.mk q Suit.HEARTS) (Card.mk q Suit.DIAMONDS));
    [|member|member|done].
  apply (pattern_from_check [q; k]); [|distinct_cards].
  apply (for_ranks_spec _ (for_ranks_spec _ check_four_of_a_kind_computed q) k).
Qed.

Lemma make_full_house_hand deck tp pos :
  ∃ cs next, _make_full_house deck tp pos = Done cs next ∧
             hand_of HandRank.FULL_HOUSE cs.
Proof.
  unfold _make_full_house.
  destruct (choice_Done Rank.members tp pos) as (t & Ht & _); [done|].
  rewrite (rnd_bind_Done _ _ _ _ _ _ Ht).
  destruct (choice_Done (ranks_other_than t) tp (S pos)) as (p & Hp & Hpt);
    [apply ranks_other_than_nonempty|].
  apply ranks_other_than_elem in Hpt.
  rewrite (rnd_bind_Done _ _ _ _ _ _ Hp).
  destruct (shuffle_suits_NoDup tp (S (S pos))) as (a & b & c & d & Hsh & Hnd).
  rewrite (rnd_bind_Done _ _ _ _ _ _ Hsh).
  destruct (NoDup_four _ _ _ _ _ Hnd) as (Hab & Hac & Hbc & Hcd).
  eexists _, _. split; [reflexivity|]. simpl.
  apply hand_of_category; [done|distinct_cards|]. simpl.
  rewrite (single_suit_two _ (Card.mk t a) (Card.mk t b)); [|member|member|done].
  apply (pattern_from_check [t; p]); [|distinct_cards].
  apply (for_ranks_spec _ (for_ranks_spec _ check_full_house_computed t) p).
Qed.

Lemma make_three_of_a_kind_hand deck tp pos :
  ∃ cs next, _make_three_of_a_kind deck tp pos = Done cs next ∧
             hand_of HandRank.THREE_OF_A_KIND cs.
Proof.
  unfold _make_three_of_a_kind.
  destruct (choice_Done Rank.members tp pos) as (t & Ht & _); [done|].
  rewrite (rnd_bind_Done _ _ _ _ _ _ Ht).
  destruct (shuffle_suits_NoDup tp (S pos)) as (a & b & c & d & Hsh & Hnd).
  rewrite (rnd_bind_Done _ _ _ _ _ _ Hsh).
  destruct (NoDup_four _ _ _ _ _ Hnd) as (Hab & Hac & Hbc & Hcd).
  change (lift (mapM (λ i, s ← getitem [a; b; c; d] i; mret (Card.mk t s)) (seq 0 3)))
    with (lift (A := list Card.t) (Ok [Card.mk t a; Card.mk t b; Card.mk t c])).
  rewrite lift_Ok_bind.
  destruct (shuffle_other_ranks t tp (S pos + 3)) as (ks & Hks & Hlen & Hknd & Hkt).
  rewrite (rnd_bind_Done _ _ _ _ _ _ Hks).
  destruct ks as [|k0 [|k1 ks]]; try done.
  change (getitem (k0 :: k1 :: ks) 0) with (Ok k0).
  change (getitem (k0 :: k1 :: ks) 1) with (Ok k1).
  rewrite lift_Ok_bind.
  destruct (choice_Done [a; b; c; d] tp (S pos + 3 + 11)) as (s0 & Hs0 & _); [done|].
  rewrite (rnd_bind_Done _ _ _ _ _ _ Hs0), lift_Ok_bind.
  destruct (choice_Done [a; b; c; d] tp (S (S pos + 3 + 11))) as (s1 & Hs1 & _); [done|].
  rewrite (rnd_bind_Done _ _ _ _ _ _ Hs1).
  pose proof (NoDup_two _ _ _ Hknd) as Hk01.
  assert (k0 ≠ t) as Hk0 by (apply Hkt; member).
  assert (k1 ≠ t) as Hk1 by (apply Hkt; member).
  eexists _, _. split; [reflexivity|]. simpl.
  apply hand_of_category; [done|distinct_cards|]. simpl.
  rewrite (single_suit_two _ (Card.mk t a) (Card.mk t b)); [|member|member|done].
  apply (pattern_from_check [t; k0; k1]); [|distinct_cards].
  apply (for_ranks_spec _ (for_ranks_spec _
           (for_ranks_spec _ check_three_of_a_kind_computed t) k0) k1).
Qed.

Lemma make_two_pair_hand deck tp pos :
  ∃ cs next, _make_two_pair deck tp pos = Done cs next ∧
             hand_of HandRank.TWO_PAIR cs.
Proof.
  unfold _make_two_pair.
  destruct (sample_picks Rank.members 3 tp pos) as (rs & Hrs & Hlen & Hrnd & _).
  { simpl. lia. }
  { apply (bool_decide_unpack _). by vm_compute. }
  rewrite (rnd_bind_Done _ _ _ _ _ _ Hrs).
  destruct rs as [|p1 [|p2 [|k [|? ?]]]]; try done.
  change (getitem [p1; p2; k] 0) with (Ok p1).
  change (getitem [p1; p2; k] 1) with (Ok p2).
  change (getitem [p1; p2; k] 2) with (Ok k).
  rewrite !lift_Ok_bind.
  destruct (shuffle_suits_NoDup tp (pos + 3)) as (a & b & c & d & Hsh & Hnd).
  rewrite (rnd_bind_Done _ _ _ _ _ _ Hsh).
  destruct (NoDup_four _ _ _ _ _ Hnd) as (Hab & Hac & Hbc & Hcd).
  change (getitem [a; b; c; d] 0) with (Ok a).
  change (getitem [a; b; c; d] 1) with (Ok b).
  change (getitem [a; b; c; d] 2) with (Ok c).
  change (getitem [a; b; c; d] 3) with (Ok d).
  rewrite !lift_Ok_bind.
  destruct (choice_Done [a; b; c; d] tp (pos + 3 + 3)) as (sk & Hsk & _); [done|].
  rewrite (rnd_bind_Done _ _ _ _ _ _ Hsk).
  destruct (NoDup_three _ _ _ _ Hrnd) as (H12 & H1k & H2k).
  eexists _, _. split; [reflexivity|].
  apply hand_of_category; [done|distinct_cards|]. simpl.
  rewrite (single_suit_two _ (Card.mk p1 a) (Card.mk p1 b)); [|member|member|done].
  apply (pattern_from_check [p1; p2; k]); [|distinct_cards].
  apply (for_ranks_spec _ (for_ranks_spec _
           (for_ranks_spec _ check_two_pair_computed p1) p2) k).
Qed.

Lemma make_one_pair_hand deck tp pos :
  ∃ cs next, _make_one_pair deck tp pos = Done cs next ∧
             hand_of HandRank.ONE_PAIR cs.
Proof.
  unfold _make_one_pair.
  destruct (choice_Done Rank.members tp pos) as (p & Hp & _); [done|].
  rewrite (rnd_bind_Done _ _ _ _ _ _ Hp).
  destruct (shuffle_suits_NoDup tp (S pos)) as (a & b & c & d & Hsh & Hnd).
  rewrite (rnd_bind_Done _ _ _ _ _ _ Hsh).
  destruct (NoDup_four _ _ _ _ _ Hnd) as (Hab & Hac & Hbc & Hcd).
  change (getitem [a; b; c; d] 0) with (Ok a).
  change (getitem [a; b; c; d] 1) with (Ok b).
  rewrite !lift_Ok_bind.
  destruct (shuffle_other_ranks p tp (S pos + 3)) as (ks & Hks & Hlen & Hknd & Hkp).
  rewrite (rnd_bind_Done _ _ _ _ _ _ Hks).
  destruct ks as [|k0 [|k1 [|k2 ks]]]; try done.
  destruct (mapM_rnd_Done
              (λ i, r ← lift (getitem (k0 :: k1 :: k2 :: ks) i);
                    s ← choice [a; b; c; d]; mret (Card.mk r s))
              (λ i y, (k0 :: k1 :: k2 :: ks) !! i = Some (Card.rank y)) (seq 0 3))
    with (tp := tp) (pos := (S pos + 3 + 11)%nat) as (ys & Hys & HR).
  { intros i tp' pos' Hi.
    assert (i < 3)%nat as Hlt by (apply elem_of_seq in Hi; lia).
    destruct (lookup_lt_is_Some_2 (k0 :: k1 :: k2 :: ks) i) as [r Hr];
      [simpl; lia|].
    destruct (choice_Done [a; b; c; d] tp' pos') as (s & Hs & _); [done|].
    exists (Card.mk r s). split; [|done].
    unfold getitem. rewrite Hr, lift_Ok_bind.
    by rewrite (rnd_bind_Done _ _ _ _ _ _ Hs). }
  rewrite (rnd_bind_Done _ _ _ _ _ _ Hys).
  destruct ys as [|[r0 s0] [|[r1 s1] [|[r2 s2] [|? ?]]]];
    try (by apply Forall2_length in HR).
  apply Forall2_cons in HR as [[= <-] HR].
  apply Forall2_cons in HR as [[= <-] HR].
  apply Forall2_cons in HR as [[= <-] _].
  destruct (NoDup_three _ _ _ _ Hknd) as (H01 & H02 & H12).
  assert (k0 ≠ p) as Hk0 by (apply Hkp; member).
  assert (k1 ≠ p) as Hk1 by (apply Hkp; member).
  assert (k2 ≠ p) as Hk2 by (apply Hkp; member).
  eexists _, _. split; [reflexivity|]. simpl.
  apply hand_of_category; [done|distinct_cards|]. simpl.
  rewrite (single_suit_two _ (Card.mk p a) (Card.mk p b)); [|member|member|done].
  apply (pattern_from_check [p; k0; k1; k2]); [|distinct_cards].
  apply (for_ranks_spec _ (for_ranks_spec _ (for_ranks_spec _
           (for_ranks_spec _ check_one_pair_computed p) k0) k1) k2).
Qed.

(** The straight-flush constructor: a hand when the high rank drawn is 6
    to 9, an error when it is 5. *)
Lemma make_straight_flush_outcome deck tp pos :
  if decide (tp (S pos) mod 5 = 0)%nat
  then _make_straight_flush deck tp pos = Fail ValueError
  else ∃ cs next, _make_straight_flush deck tp pos = Done cs next ∧
                  hand_of HandRank.STRAIGHT_FLUSH cs.
Proof.
  destruct (decide _) as [Hz|Hnz]; [by apply make_straight_flush_five|].
  unfold _make_straight_flush.
  destruct (choice_Done Suit.members tp pos) as (suit & Hsuit & _); [done|].
  rewrite (rnd_bind_Done _ _ _ _ _ _ Hsuit).
  rewrite (rnd_bind_Done _ _ _ _ _ _ (randint_Done 5 9 tp (S pos) ltac:(lia))).
  change (Z.to_nat (9 - 5 + 1)) with 5%nat.
  assert (tp (S pos) mod 5 < 5)%nat as Hlt by (by apply Nat.mod_upper_bound).
  destruct (tp (S pos) mod 5)%nat as [|[|[|[|[|j]]]]]; [done| | | | |lia];
    (eexists _, _; split; [reflexivity|]);
    destruct suit;
    (apply hand_of_category;
     [done | apply (bool_decide_unpack _); by vm_compute | by vm_compute]).
Qed.

Lemma straight_values_ranks high :
  5 ≤ high ≤ 14 →
  ∃ rs, mapM Rank.of_value (straight_values high) = Ok rs ∧
        length rs = 5%nat ∧ NoDup rs ∧
        category_of rs false = Some HandRank.STRAIGHT.
Proof.
  intros Hhigh.
  assert (high = 5 ∨ high = 6 ∨ high = 7 ∨ high = 8 ∨ high = 9 ∨ high = 10 ∨
          high = 11 ∨ high = 12 ∨ high = 13 ∨ high = 14) as Hcases by lia.
  repeat (destruct Hcases as [->|Hcases]); [..|subst high];
    (eexists; split; [by vm_compute|]; split; [done|]; split;
     [apply (bool_decide_unpack _); by vm_compute | by vm_compute]).
Qed.

(** The loop that redraws the suits until they are not all the same. *)
Lemma redraw_suits_Done fuel suits0 tp pos suits next :
  length suits0 = 5%nat →
  while fuel (λ card_suits, mret (one_suit card_suits))
        (λ _, five_suits Suit.members) suits0 tp pos = Done suits next →
  length suits = 5%nat ∧ one_suit suits = false.
Proof.
  intros Hlen Hrun.
  apply (while_Done (λ s : list Suit.t, length s = 5%nat)) in Hrun
    as [Hlen' Hcond]; [|clear|done].
  - split; [done|]. by injection Hcond.
  - intros s tp' pos' s1 p1 _ Hbody.
    destruct (five_suits_Done tp' pos') as (x1 & x2 & x3 & x4 & x5 & Hfive).
    rewrite Hfive in Hbody. by injection Hbody as <- _.
Qed.

Lemma redraw_suits_no_Fail fuel suits0 tp pos e :
  while fuel (λ card_suits, mret (one_suit card_suits))
        (λ _, five_suits Suit.members) suits0 tp pos ≠ Fail e.
Proof.
  apply (while_no_Fail (λ _, True)); [| |done].
  - intros s _. by eexists.
  - intros s tp' pos' _.
    destruct (five_suits_Done tp' pos') as (a & b & c & d & e' & Hfive).
    by eexists _, _.
Qed.

Lemma make_straight_Done fuel deck tp pos cs next :
  _make_straight fuel deck tp pos = Done cs next → hand_of HandRank.STRAIGHT cs.
Proof.
  unfold _make_straight.
  rewrite (rnd_bind_Done _ _ _ _ _ _ (randint_Done 5 14 tp pos ltac:(lia))).
  set (high := 5 + Z.of_nat (tp pos mod Z.to_nat (14 - 5 + 1))).
  assert (5 ≤ high ≤ 14) as Hhigh.
  { unfold high. change (Z.to_nat (14 - 5 + 1)) with 10%nat.
    pose proof (Nat.mod_upper_bound (tp pos) 10). lia. }
  change (if high =? 14 then [14; 13; 12; 11; 10]
          else if high =? 5 then [5; 4; 3; 2; 14] else range_down5 high)
    with (straight_values high).
  destruct (straight_values_ranks high Hhigh) as (rs & Hrs & Hlen & Hnd & Hcat).
  destruct (five_suits_Done tp (S pos)) as (a & b & c & d & e & Hfive).
  rewrite (rnd_bind_Done _ _ _ _ _ _ Hfive). intros Hrun.
  apply rnd_bind_inv in Hrun as (suits & mid & Hloop & Hrun).
  apply redraw_suits_Done in Hloop as [Hslen Hone]; [|done].
  rewrite Hrs, lift_Ok_bind in Hrun. injection Hrun as <- _.
  apply hand_of_zip; try done. by rewrite Hone.
Qed.

Lemma make_straight_no_Fail fuel deck tp pos e :
  _make_straight fuel deck tp pos ≠ Fail e.
Proof.
  unfold _make_straight.
  rewrite (rnd_bind_Done _ _ _ _ _ _ (randint_Done 5 14 tp pos ltac:(lia))).
  set (high := 5 + Z.of_nat (tp pos mod Z.to_nat (14 - 5 + 1))).
  assert (5 ≤ high ≤ 14) as Hhigh.
  { unfold high. change (Z.to_nat (14 - 5 + 1)) with 10%nat.
    pose proof (Nat.mod_upper_bound (tp pos) 10). lia. }
  change (if high =? 14 then [14; 13; 12; 11; 10]
          else if high =? 5 then [5; 4; 3; 2; 14] else range_down5 high)
    with (straight_values high).
  destruct (straight_values_ranks high Hhigh) as (rs & Hrs & _).
  destruct (five_suits_Done tp (S pos)) as (a & b & c & d & e' & Hfive).
  rewrite (rnd_bind_Done _ _ _ _ _ _ Hfive). intros Hrun.
  apply rnd_bind_Fail_inv in Hrun as [Hrun|(suits & mid & _ & Hrun)].
  - by apply redraw_suits_no_Fail in Hrun.
  - by rewrite Hrs, lift_Ok_bind in Hrun.
Qed.

Lemma insert_by_perm {A} (key : A → Z) x l : insert_by key x l ≡ₚ x :: l.
Proof.
  induction l as [|y l IH]; simpl; [done|].
  destruct (key x <=? key y); [done|]. by rewrite IH, perm_swap.
Qed.

Lemma sorted_by_perm {A} (key : A → Z) l : sorted_by key l ≡ₚ l.
Proof.
  induction l as [|x l IH]; simpl; [done|]. by rewrite insert_by_perm, IH.
Qed.

Lemma insert_by_sorted {A} (key : A → Z) x l :
  Sorted (λ a b, key a ≤ key b) l → Sorted (λ a b, key a ≤ key b) (insert_by key x l).
Proof.
  induction l as [|y l IH]; intros Hs; simpl.
  - by repeat constructor.
  - destruct (Z.leb_spec (key x) (key y)) as [Hxy|Hyx].
    + constructor; [done|]. by constructor.
    + apply Sorted_inv in Hs as [Hs Hhd]. constructor; [by apply IH|].
      destruct l as [|z l]; simpl.
      * constructor. lia.
      * destruct (key x <=? key z); constructor; [lia|]. by apply HdRel_inv in Hhd.
Qed.

Lemma sorted_by_sorted {A} (key : A → Z) l :
  Sorted (λ a b, key a ≤ key b) (sorted_by key l).
Proof.
  induction l as [|x l IH]; simpl; [constructor|]. by apply insert_by_sorted.
Qed.

(** Sorting ranks forgets the order they came in. *)
Lemma sorted_ranks_desc_of_perm l l' :
  l ≡ₚ l' → sorted_ranks_desc l = sorted_ranks_desc l'.
Proof.
  intros Hperm. unfold sorted_ranks_desc.
  assert (Transitive (λ a b : Rank.t, - Rank.value a ≤ - Rank.value b)) as Htrans
    by (intros x y z; lia).
  apply (Sorted_unique_strong (λ a b : Rank.t, - Rank.value a ≤ - Rank.value b)).
  - intros x y _ _ Hxy Hyx. assert (Rank.value x = Rank.value y) as Heq by lia.
    by destruct x, y.
  - apply (sorted_by_sorted (λ r, - Rank.value r)).
  - apply (sorted_by_sorted (λ r, - Rank.value r)).
  - by rewrite !sorted_by_perm.
Qed.

Lemma members_NoDup : NoDup Rank.members.
Proof. apply (bool_decide_unpack _). by vm_compute. Qed.

(** The five ranks kept from a shuffle of the thirteen: distinct ranks in
    descending order, those of one of the 1287 combinations. *)
Lemma drawn_ranks avail :
  avail ≡ₚ Rank.members →
  ∃ c0, c0 ∈ combinations Rank.members 5 ∧
        sorted_ranks_desc (take 5 avail) = sorted_ranks_desc c0 ∧
        length (sorted_ranks_desc c0) = 5%nat ∧ NoDup (sorted_ranks_desc c0).
Proof.
  intros Hperm.
  assert (length (take 5 avail) = 5%nat) as Hlen.
  { rewrite length_take, Hperm. done. }
  assert (NoDup (take 5 avail)) as Hnd.
  { eapply sublist_NoDup; [|apply sublist_take]. rewrite Hperm. apply members_NoDup. }
  destruct (distinct_ranks_combination _ Hnd) as (c0 & Hc0 & Hp0).
  rewrite Hlen in Hc0. exists c0. split; [done|]. split; [|split].
  - by apply sorted_ranks_desc_of_perm.
  - unfold sorted_ranks_desc. by rewrite sorted_by_perm, <- Hp0.
  - unfold sorted_ranks_desc. by rewrite sorted_by_perm, <- Hp0.
Qed.

Lemma five_distinct_checked c0 :
  c0 ∈ combinations Rank.members 5 →
  let ranks := sorted_ranks_desc c0 in
  ∃ run, spans_four ranks = Ok run ∧
         (run = false →
          category_of ranks true
          = Some (if is_wheel_set ranks then HandRank.STRAIGHT_FLUSH else HandRank.FLUSH) ∧
          (is_wheel_set ranks = false →
           category_of ranks false = Some HandRank.HIGH_CARD)).
Proof.
  intros Hc0 ranks. pose proof check_five_distinct_computed as Hall.
  unfold check_five_distinct in Hall. rewrite forallb_forall in Hall.
  specialize (Hall c0 (proj1 (list_elem_of_In _ _) Hc0)). fold ranks in Hall.
  destruct (spans_four ranks) as [[|]|e]; [by exists true|exists false|done].
  split; [done|]. intros _. unfold pattern_is in Hall.
  destruct (is_wheel_set ranks).
  - split; [|done]. by apply bool_decide_eq_true in Hall.
  - apply andb_true_iff in Hall as [Hf Hh].
    apply bool_decide_eq_true in Hf. apply bool_decide_eq_true in Hh. by split.
Qed.

(** The state of the loop that redraws five ranks: a shuffle of the
    thirteen ranks and its first five, sorted. *)
Lemma redraw_ranks_body (s : list Rank.t * list Rank.t) tp pos s1 p1 :
  s.1 ≡ₚ Rank.members ∧ s.2 = sorted_ranks_desc (take 5 s.1) →
  (let '(available_ranks, _) := s in
   available_ranks ← shuffle available_ranks;
   mret (available_ranks, sorted_ranks_desc (take 5 available_ranks))) tp pos
  = Done s1 p1 →
  s1.1 ≡ₚ Rank.members ∧ s1.2 = sorted_ranks_desc (take 5 s1.1).
Proof.
  destruct s as [avail ranks]. intros [Hperm _] Hbody.
  destruct (shuffle_perm avail tp pos) as (avail' & Hsh & Hperm').
  rewrite (rnd_bind_Done _ _ _ _ _ _ Hsh) in Hbody. injection Hbody as <- _.
  split; [|done]. simpl. by rewrite Hperm'.
Qed.

Lemma redraw_ranks_body_Done (s : list Rank.t * list Rank.t) tp pos :
  s.1 ≡ₚ Rank.members ∧ s.2 = sorted_ranks_desc (take 5 s.1) →
  ∃ s1 p1,
    (let '(available_ranks, _) := s in
     available_ranks ← shuffle available_ranks;
     mret (available_ranks, sorted_ranks_desc (take 5 available_ranks))) tp pos
    = Done s1 p1 ∧
    (s1.1 ≡ₚ Rank.members ∧ s1.2 = sorted_ranks_desc (take 5 s1.1)).
Proof.
  intros Hs. destruct s as [avail ranks].
  destruct (shuffle_perm avail tp pos) as (avail' & Hsh & Hperm').
  eexists _, _. split.
  - by rewrite (rnd_bind_Done _ _ _ _ _ _ Hsh).
  - destruct Hs as [Hperm _]. split; [|done]. simpl. by rewrite Hperm'.
Qed.

Lemma make_flush_Done fuel deck tp pos cs next :
  _make_flush fuel deck tp pos = Done cs next →
  hand_of (if is_wheel_set (map Card.rank cs)
           then HandRank.STRAIGHT_FLUSH else HandRank.FLUSH) cs.
Proof.
  unfold _make_flush.
  destruct (choice_Done Suit.members tp pos) as (suit & Hsuit & _); [done|].
  rewrite (rnd_bind_Done _ _ _ _ _ _ Hsuit).
  destruct (shuffle_perm Rank.members tp (S pos)) as (avail & Hsh & Hperm).
  rewrite (rnd_bind_Done _ _ _ _ _ _ Hsh). intros Hrun.
  apply rnd_bind_inv in Hrun as ([avail' ranks] & mid & Hloop & Hrun).
  injection Hrun as <- _.
  apply (while_Done (λ s, s.1 ≡ₚ Rank.members ∧ s.2 = sorted_ranks_desc (take 5 s.1)))
    in Hloop as [[Hperm' Hranks] Hcond]; [|apply redraw_ranks_body|done].
  simpl in Hperm', Hranks, Hcond.
  destruct (drawn_ranks avail' Hperm') as (c0 & Hc0 & Heq & Hlen & Hnd).
  rewrite <- Hranks in Heq. rewrite <- Heq in Hlen, Hnd.
  destruct (five_distinct_checked c0 Hc0) as (run & Hrun & Hcat).
  rewrite <- Heq in Hrun, Hcat. rewrite Hcond in Hrun. injection Hrun as <-.
  destruct (Hcat eq_refl) as [Hflush _].
  assert (map Card.rank (map (λ r, Card.mk r suit) ranks) = ranks) as ->.
  { rewrite map_map. simpl. by rewrite map_id. }
  by apply hand_of_one_suit.
Qed.

Lemma redraw_ranks_cond (s : list Rank.t * list Rank.t) :
  s.1 ≡ₚ Rank.members ∧ s.2 = sorted_ranks_desc (take 5 s.1) →
  ∃ run, spans_four s.2 = Ok run.
Proof.
  intros [Hperm Hranks].
  destruct (drawn_ranks s.1 Hperm) as (c0 & Hc0 & Heq & _).
  destruct (five_distinct_checked c0 Hc0) as (run & Hrun & _).
  exists run. by rewrite Hranks, Heq.
Qed.

Lemma make_flush_no_Fail fuel deck tp pos e :
  _make_flush fuel deck tp pos ≠ Fail e.
Proof.
  unfold _make_flush.
  destruct (choice_Done Suit.members tp pos) as (suit & Hsuit & _); [done|].
  rewrite (rnd_bind_Done _ _ _ _ _ _ Hsuit).
  destruct (shuffle_perm Rank.members tp (S pos)) as (avail & Hsh & Hperm).
  rewrite (rnd_bind_Done _ _ _ _ _ _ Hsh). intros Hrun.
  apply rnd_bind_Fail_inv in Hrun as [Hrun|([avail' ranks] & mid & _ & Hrun)];
    [|done].
  revert Hrun.
  apply (while_no_Fail
           (λ s, s.1 ≡ₚ Rank.members ∧ s.2 = sorted_ranks_desc (take 5 s.1)));
    [| |done].
  - intros [a r] Hs. destruct (redraw_ranks_cond _ Hs) as [run Hrun]. by exists run.
  - intros s tp' pos' Hs. by apply redraw_ranks_body_Done.
Qed.

Lemma make_high_card_Done fuel deck tp pos cs next :
  _make_high_card fuel deck tp pos = Done cs next → hand_of HandRank.HIGH_CARD cs.
Proof.
  unfold _make_high_card.
  destruct (shuffle_perm Rank.members tp pos) as (avail & Hsh & Hperm).
  rewrite (rnd_bind_Done _ _ _ _ _ _ Hsh). intros Hrun.
  apply rnd_bind_inv in Hrun as ([avail' ranks] & mid & Hloop & Hrun).
  apply (while_Done (λ s, s.1 ≡ₚ Rank.members ∧ s.2 = sorted_ranks_desc (take 5 s.1)))
    in Hloop as [[Hperm' Hranks] Hcond]; [|apply redraw_ranks_body|done].
  simpl in Hperm', Hranks, Hcond.
  destruct (drawn_ranks avail' Hperm') as (c0 & Hc0 & Heq & Hlen & Hnd).
  rewrite <- Hranks in Heq. rewrite <- Heq in Hlen, Hnd.
  destruct (five_distinct_checked c0 Hc0) as (run & Hspan & Hcat).
  rewrite <- Heq in Hspan, Hcat. rewrite Hspan, bind_Ok in Hcond.
  injection Hcond as Hcond. apply orb_false_iff in Hcond as [-> Hwheel].
  destruct (Hcat eq_refl) as [_ Hhigh]. specialize (Hhigh Hwheel).
  destruct (five_suits_Done tp mid) as (a & b & c & d & e & Hfive).
  rewrite (rnd_bind_Done _ _ _ _ _ _ Hfive) in Hrun.
  apply rnd_bind_inv in Hrun as (suits & mid' & Hsuits & Hrun).
  apply redraw_suits_Done in Hsuits as [Hslen Hone]; [|done].
  injection Hrun as <- _.
  apply hand_of_zip; try done. by rewrite Hone.
Qed.

Lemma make_high_card_no_Fail fuel deck tp pos e :
  _make_high_card fuel deck tp pos ≠ Fail e.
Proof.
  unfold _make_high_card.
  destruct (shuffle_perm Rank.members tp pos) as (avail & Hsh & Hperm).
  rewrite (rnd_bind_Done _ _ _ _ _ _ Hsh). intros Hrun.
  apply rnd_bind_Fail_inv in Hrun as [Hrun|([avail' ranks] & mid & _ & Hrun)].
  - revert Hrun.
    apply (while_no_Fail
             (λ s, s.1 ≡ₚ Rank.members ∧ s.2 = sorted_ranks_desc (take 5 s.1)));
      [| |done].
    + intros [a r] Hs. destruct (redraw_ranks_cond _ Hs) as [run Hspan].
      simpl in Hspan. rewrite Hspan, bind_Ok. by eexists.
    + intros s tp' pos' Hs. by apply redraw_ranks_body_Done.
  - destruct (five_suits_Done tp mid) as (a & b & c & d & e' & Hfive).
    rewrite (rnd_bind_Done _ _ _ _ _ _ Hfive) in Hrun.
    apply rnd_bind_Fail_inv in Hrun as [Hrun|(suits & mid' & _ & Hrun)]; [|done].
    by apply redraw_suits_no_Fail in Hrun.
Qed.

End Constructors.

(** ** Synthesis of a hand of a given category *)

Section HandOfRank.

Import EvaluatedHand HandEvaluator QuestionGenerator.

(** What a constructor call can do, by target. *)
Lemma make_hand_outcome fuel target deck tp pos :
  match make_hand fuel target deck tp pos with
  | Done cs _ =>
      hand_of target cs ∨
      (target = HandRank.FLUSH ∧ is_wheel_set (map Card.rank cs) = true ∧
       hand_of HandRank.STRAIGHT_FLUSH cs)
  | Fail e =>
      target = HandRank.STRAIGHT_FLUSH ∧ e = ValueError ∧ (tp (S pos) mod 5 = 0)%nat
  | Diverge =>
      target = HandRank.FLUSH ∨ target = HandRank.STRAIGHT ∨
      target = HandRank.HIGH_CARD
  end.
Proof.
  destruct target; cbn [make_hand].
  - destruct (_make_high_card fuel deck tp pos) as [cs next|e|] eqn:Hrun.
    + left. by eapply make_high_card_Done.
    + by apply make_high_card_no_Fail in Hrun.
    + auto.
  - destruct (make_one_pair_hand deck tp pos) as (cs & next & -> & Hcs). by left.
  - destruct (make_two_pair_hand deck tp pos) as (cs & next & -> & Hcs). by left.
  - destruct (make_three_of_a_kind_hand deck tp pos) as (cs & next & -> & Hcs). by left.
  - destruct (_make_straight fuel deck tp pos) as [cs next|e|] eqn:Hrun.
    + left. by eapply make_straight_Done.
    + by apply make_straight_no_Fail in Hrun.
    + auto.
  - destruct (_make_flush fuel deck tp pos) as [cs next|e|] eqn:Hrun.
    + apply make_flush_Done in Hrun.
      destruct (is_wheel_set (map Card.rank cs)); [right|left]; done.
    + by apply make_flush_no_Fail in Hrun.
    + auto.
  - destruct (make_full_house_hand deck tp pos) as (cs & next & -> & Hcs). by left.
  - destruct (make_four_of_a_kind_hand deck tp pos) as (cs & next & -> & Hcs). by left.
  - pose proof (make_straight_flush_outcome deck tp pos) as Hsf.
    destruct (decide _) as [Hz|Hnz].
    + by rewrite Hsf.
    + destruct Hsf as (cs & next & -> & Hcs). by left.
  - destruct (make_royal_flush_hand deck tp pos) as (cs & next & -> & Hcs). by left.
Qed.



(** X11: the only error a hand constructor can raise is the [ValueError]
    of the straight-flush constructor, raised exactly when the high rank
    it draws is 5; no other constructor and no other draw fails. *)
Theorem constructors_fail_only_straight_flush fuel target deck tp pos e :
  make_hand fuel target deck tp pos = Fail e ↔
  target = HandRank.STRAIGHT_FLUSH ∧ e = ValueError ∧ (tp (S pos) mod 5 = 0)%nat.
Proof.
  split.
  - intros Hrun. pose proof (make_hand_outcome fuel target deck tp pos) as Hout.
    by rewrite Hrun in Hout.
  - intros (-> & -> & Hz). by apply make_straight_flush_five.
Qed.

Lemma hand_of_evaluate r cs :
  hand_of r cs → ∃ c cs' h, cs = c :: cs' ∧ evaluate cs = Ok (Some h) ∧ rank h = r.
Proof.
  intros (Hlen & _ & h & Hh & Hr). destruct cs as [|c cs']; [done|].
  by exists c, cs', h.
Qed.

(** What the loop over the attempts can do. *)
Lemma attempts_outcome fuel target ex n : ∀ deck tp pos,
  match attempts n fuel target ex deck tp pos with
  | Done (Some cs, _) _ => hand_of target cs
  | Done (None, _) _ => n = 0%nat ∨ target = HandRank.FLUSH
  | Fail e => target = HandRank.STRAIGHT_FLUSH ∧ e = ValueError
  | Diverge =>
      target = HandRank.FLUSH ∨ target = HandRank.STRAIGHT ∨
      target = HandRank.HIGH_CARD
  end.
Proof.
  induction n as [|n IH]; intros deck tp pos; [by left|].
  cbn [attempts]. unfold mbind, rnd_bind.
  destruct (deck_reset_Done deck tp pos) as (d1 & ->).
  pose proof (make_hand_outcome fuel target (remove_excluded d1 ex) tp (pos + 51)%nat)
    as Hmake. revert Hmake.
  destruct (make_hand fuel target (remove_excluded d1 ex) tp (pos + 51)%nat)
    as [cs p2|e|]; intros Hmake.
  2: { destruct Hmake as (Ht & He & Hz). by split. }
  2: { done. }
  destruct Hmake as [Hcs|(-> & Hwheel & Hcs)].
  - destruct (hand_of_evaluate _ _ Hcs) as (c & cs' & h & -> & Hh & Hr).
    unfold lift. rewrite Hh. cbn [rank_of]. rewrite Hr.
    by rewrite bool_decide_eq_true_2.
  - destruct (hand_of_evaluate _ _ Hcs) as (c & cs' & h & -> & Hh & Hr).
    unfold lift. rewrite Hh. cbn [rank_of]. rewrite Hr.
    rewrite bool_decide_eq_false_2 by done. cbn.
    specialize (IH (remove_excluded d1 ex) tp p2). revert IH.
    destruct (attempts n fuel HandRank.FLUSH ex (remove_excluded d1 ex) tp p2)
      as [[[cs|] d] p3|e|]; intros IH; cbn; try done. by right.
Qed.

Lemma make_hand_deck fuel target deck deck' :
  make_hand fuel target deck = make_hand fuel target deck'.
Proof. by destruct target. Qed.

Lemma reset_deck deck deck' : Deck.reset deck = Deck.reset deck'.
Proof. unfold Deck.reset. reflexivity. Qed.

(** The loop finds the same hand whatever it was told to exclude. *)
Lemma attempts_exclude fuel target ex n : ∀ deck deck' tp pos,
  found_of (attempts n fuel target ex deck tp pos)
  = found_of (attempts n fuel target None deck' tp pos).
Proof.
  induction n as [|n IH]; intros deck deck' tp pos; [done|].
  cbn [attempts]. unfold mbind, rnd_bind.
  rewrite (reset_deck deck' deck).
  destruct (Deck.reset deck tp pos) as [d1 p1|e|]; [|done|done].
  rewrite (make_hand_deck fuel target (remove_excluded d1 ex) (remove_excluded d1 None)).
  destruct (make_hand fuel target (remove_excluded d1 None) tp p1) as [cs p2|e|];
    [|done|done].
  match goal with
  | |- found_of (match ?found tp p2 with _ => _ end) = _ =>
      destruct (found tp p2) as [[|] p3|e|]; [done|apply IH|done|done]
  end.
Qed.

(** The end of [_generate_hand_of_rank]: the hand found, or five cards
    drawn from a fresh deck. *)
Lemma generate_hand_unfold fuel target exclude_cards tp pos :
  ∃ d0,
    _generate_hand_of_rank fuel target exclude_cards tp pos
    = match attempts max_attempts fuel target exclude_cards
              (remove_excluded d0 exclude_cards) tp (pos + 51)%nat with
      | Done (Some cards, _) p => Done cards p
      | Done (None, d) p =>
          match Deck.reset d tp p with
          | Done deck p' =>
              match Deck.draw deck 5 with
              | Ok (drawn, _) => Done drawn p'
              | Raise e => Fail e
              end
          | Fail e => Fail e
          | Diverge => Diverge
          end
      | Fail e => Fail e
      | Diverge => Diverge
      end.
Proof.
  unfold _generate_hand_of_rank, Deck.new.
  destruct (deck_reset_Done (Deck.mk []) tp pos) as (d0 & Hd0). exists d0.
  rewrite (rnd_bind_Done _ _ _ _ _ _ Hd0). unfold mbind at 1. unfold rnd_bind.
  generalize (attempts max_attempts fuel target exclude_cards
                (remove_excluded d0 exclude_cards) tp (pos + 51)%nat).
  intros [[[cards|] d] p|e|]; [reflexivity| |reflexivity|reflexivity].
  unfold mbind, rnd_bind. generalize (Deck.reset d tp p).
  intros [deck p'|e|]; [|reflexivity|reflexivity].
  unfold lift. generalize (Deck.draw deck 5). by intros [[drawn rest]|e].
Qed.

(** X12: the cards to exclude have no effect: [_generate_hand_of_rank]
    returns, raises or loops the same with and without them, on every
    sequence of draws. *)
Theorem generate_hand_ignores_exclude fuel target exclude_cards tp pos :
  _generate_hand_of_rank fuel target exclude_cards tp pos
  = _generate_hand_of_rank fuel target None tp pos.
Proof.
  destruct (generate_hand_unfold fuel target exclude_cards tp pos) as (d0 & ->).
  destruct (generate_hand_unfold fuel target None tp pos) as (d0' & ->).
  pose proof (attempts_exclude fuel target exclude_cards max_attempts
                (remove_excluded d0 exclude_cards) (remove_excluded d0' None)
                tp (pos + 51)%nat) as Hsame. revert Hsame.
  generalize (attempts max_attempts fuel target exclude_cards
                (remove_excluded d0 exclude_cards) tp (pos + 51)%nat).
  generalize (attempts max_attempts fuel target None
                (remove_excluded d0' None) tp (pos + 51)%nat).
  intros [[f' d'] p'|e'|] [[f d] p|e|]; cbn [found_of]; intros Hsame;
    try discriminate Hsame.
  - injection Hsame as <- <-. destruct f; [reflexivity|].
    by rewrite (reset_deck d d').
  - by injection Hsame as <-.
  - reflexivity.
Qed.

(** What [_generate_hand_of_rank] can do. *)
Lemma generate_hand_cases fuel target exclude_cards tp pos :
  match _generate_hand_of_rank fuel target exclude_cards tp pos with
  | Done cs _ =>
      length cs = 5%nat ∧ NoDup cs ∧ (target ≠ HandRank.FLUSH → hand_of target cs)
  | Fail e => target = HandRank.STRAIGHT_FLUSH ∧ e = ValueError
  | Diverge =>
      target = HandRank.FLUSH ∨ target = HandRank.STRAIGHT ∨
      target = HandRank.HIGH_CARD
  end.
Proof.
  destruct (generate_hand_unfold fuel target exclude_cards tp pos) as (d0 & ->).
  pose proof (attempts_outcome fuel target exclude_cards max_attempts
                (remove_excluded d0 exclude_cards) tp (pos + 51)%nat) as Hout.
  revert Hout.
  generalize (attempts max_attempts fuel target exclude_cards
                (remove_excluded d0 exclude_cards) tp (pos + 51)%nat).
  intros [[[cs|] d] p|e|] Hout; [| |exact Hout|exact Hout].
  - destruct Hout as (Hlen & Hnd & Hh).
    split; [exact Hlen|]. split; [exact Hnd|]. intros _. by repeat split.
  - destruct Hout as [Hn| ->]; [discriminate Hn|].
    unfold Deck.reset.
    destruct (shuffle_perm Deck.fresh_cards tp p) as (y & Hy & Hperm).
    rewrite (rnd_bind_Done _ _ _ _ _ _ Hy).
    assert (length y = 52%nat) as Hlen by (by rewrite Hperm).
    unfold mret, rnd_ret, Deck.draw. cbn [Deck.cards].
    rewrite Hlen. cbn [Nat.ltb Nat.leb]. split; [|split].
    + rewrite length_take, Hlen. reflexivity.
    + eapply sublist_NoDup; [|apply sublist_take].
      rewrite Hperm. apply fresh_cards_NoDup.
    + intros Hne. by destruct Hne.
Qed.

(** X13: what [_generate_hand_of_rank] can do.  A hand it returns is made
    of five distinct cards, and is of the category asked for unless that
    category is the flush; the only error is the [ValueError] of the
    straight flush; and only the flush, the straight and the high card,
    whose constructors loop, can keep it from returning. *)
Theorem generate_hand_outcome fuel target exclude_cards tp pos :
  match _generate_hand_of_rank fuel target exclude_cards tp pos with
  | Done cs _ =>
      length cs = 5%nat ∧ NoDup cs ∧ (target ≠ HandRank.FLUSH → hand_of target cs)
  | Fail e => target = HandRank.STRAIGHT_FLUSH ∧ e = ValueError
  | Diverge =>
      target = HandRank.FLUSH ∨ target = HandRank.STRAIGHT ∨
      target = HandRank.HIGH_CARD
  end.
Proof. apply generate_hand_cases. Qed.

(** X14: for the six categories whose constructor has no loop (royal
    flush, four of a kind, full house, three of a kind, two pair, one
    pair), [_generate_hand_of_rank] always returns, and returns a hand of
    that category. *)
Theorem generate_hand_loop_free fuel target exclude_cards tp pos :
  loop_free target = true →
  ∃ cs next,
    _generate_hand_of_rank fuel target exclude_cards tp pos = Done cs next ∧
    hand_of target cs.
Proof.
  intros Hfree.
  pose proof (generate_hand_cases fuel target exclude_cards tp pos) as Hout.
  revert Hout.
  destruct (_generate_hand_of_rank fuel target exclude_cards tp pos) as [cs next|e|];
    intros Hout.
  - exists cs, next. split; [done|]. apply Hout. by intros ->.
  - destruct Hout as [-> _]. done.
  - by destruct Hout as [-> |[-> | ->]].
Qed.

Lemma generate_hand_loop_free_witness :
  ∃ cs next,
    _generate_hand_of_rank 0 HandRank.TWO_PAIR None counting_tape 0%nat
    = Done cs next ∧ hand_of HandRank.TWO_PAIR cs.
Proof.
  apply (generate_hand_loop_free 0 HandRank.TWO_PAIR None counting_tape 0%nat).
  reflexivity.
Defined.

End HandOfRank.

(** ** Starting hands drawn at random *)

Section RandomStartingHands.

Import StartingHands.

Lemma choice_inv {A} (l : list A) tp pos a next :
  choice l tp pos = Done a next → a ∈ l ∧ next = S pos.
Proof.
  intros Hrun. destruct l as [|x l]; [done|].
  destruct (choice_Done (x :: l) tp pos) as (a' & Ha' & Hin); [done|].
  rewrite Ha' in Hrun. by injection Hrun as <- <-.
Qed.

Lemma choice_Fail {A} (l : list A) tp pos e :
  choice l tp pos = Fail e → l = [] ∧ e = IndexError.
Proof.
  intros Hrun. destruct l as [|x l].
  - by injection Hrun as <-.
  - destruct (choice_Done (x :: l) tp pos) as (a' & Ha' & Hin); [done|]. congruence.
Qed.

Lemma check_category_hands_computed : check_category_hands = true.
Proof. by vm_compute. Qed.

Lemma check_weak_hands_computed : check_weak_hands = true.
Proof. by vm_compute. Qed.

Lemma category_hands_checked cat hands notation :
  category_hands cat = Some hands → notation ∈ elements hands →
  notation_in cat notation = true.
Proof.
  intros Hcat Hin. pose proof check_category_hands_computed as Hall.
  unfold check_category_hands in Hall. rewrite forallb_forall in Hall.
  specialize (Hall cat). rewrite Hcat in Hall. rewrite forallb_forall in Hall.
  apply Hall; [|by apply list_elem_of_In].
  destruct cat; simpl; auto 10.
Qed.

Lemma weak_hands_checked i j b notation :
  (i < 13)%nat → (j < 13)%nat →
  weak_notation (Z.of_nat i) (Z.of_nat j) b = Ok notation →
  notation ∉ categorized → notation_in HandCategory.WEAK notation = true.
Proof.
  intros Hi Hj Hn Hout. pose proof check_weak_hands_computed as Hall.
  unfold check_weak_hands in Hall. rewrite forallb_forall in Hall.
  assert (In i (seq 0 13)) as Hi' by (apply in_seq; lia).
  assert (In j (seq 0 13)) as Hj' by (apply in_seq; lia).
  assert (In b [true; false]) as Hb' by (destruct b; simpl; auto).
  specialize (Hall i Hi'). rewrite forallb_forall in Hall.
  specialize (Hall j Hj'). rewrite forallb_forall in Hall.
  specialize (Hall b Hb').
  rewrite Hn in Hall. apply orb_true_iff in Hall as [Hin|Hok]; [|done].
  by apply bool_decide_eq_true in Hin.
Qed.

(** The loop that draws a weak hand returns weak hands only, and does not
    fail. *)
Lemma random_weak_hand_cases fuel : ∀ tp pos,
  match random_weak_hand fuel tp pos with
  | Done hand _ => hand_in HandCategory.WEAK hand = true
  | Fail _ => False
  | Diverge => True
  end.
Proof.
  induction fuel as [|fuel IH]; intros tp pos; [done|].
  cbn [random_weak_hand].
  rewrite (rnd_bind_Done _ _ _ _ _ _ (randint_Done 0 12 tp pos ltac:(lia))).
  rewrite (rnd_bind_Done _ _ _ _ _ _ (randint_Done 0 12 tp (S pos) ltac:(lia))).
  change (Z.to_nat (12 - 0 + 1)) with 13%nat.
  assert (tp pos mod 13 < 13)%nat as Hi by (by apply Nat.mod_upper_bound).
  assert (tp (S pos) mod 13 < 13)%nat as Hj by (by apply Nat.mod_upper_bound).
  set (i := (tp pos mod 13)%nat) in *. set (j := (tp (S pos) mod 13)%nat) in *.
  rewrite !Z.add_0_l.
  destruct (choice_Done [true; false] tp (S (S pos))) as (b & Hb & _); [done|].
  pose proof (weak_hands_checked i j b) as Hchecked. unfold weak_notation in Hchecked.
  destruct (Z.of_nat i >? Z.of_nat j).
  - destruct (str_getitem RANK_ORDER (Z.to_nat (Z.of_nat j))) as [c1|e] eqn:Hc1.
    2: { exfalso. clear -Hc1 Hj. unfold str_getitem in Hc1. rewrite Nat2Z.id in Hc1.
         destruct (Nat.ltb_spec j (String.length RANK_ORDER)) as [|Hge]; [done|].
         simpl in Hge. lia. }
    destruct (str_getitem RANK_ORDER (Z.to_nat (Z.of_nat i))) as [c2|e] eqn:Hc2.
    2: { exfalso. clear -Hc2 Hi. unfold str_getitem in Hc2. rewrite Nat2Z.id in Hc2.
         destruct (Nat.ltb_spec i (String.length RANK_ORDER)) as [|Hge]; [done|].
         simpl in Hge. lia. }
    rewrite !lift_Ok_bind, (rnd_bind_Done _ _ _ _ _ _ Hb).
    destruct (decide _) as [Hout|Hin]; [|apply IH].
    specialize (Hchecked _ Hi Hj eq_refl Hout). unfold notation_in in Hchecked.
    unfold lift. by destruct (from_notation _).
  - destruct (str_getitem RANK_ORDER (Z.to_nat (Z.of_nat i))) as [c1|e] eqn:Hc1.
    2: { exfalso. clear -Hc1 Hi. unfold str_getitem in Hc1. rewrite Nat2Z.id in Hc1.
         destruct (Nat.ltb_spec i (String.length RANK_ORDER)) as [|Hge]; [done|].
         simpl in Hge. lia. }
    destruct (str_getitem RANK_ORDER (Z.to_nat (Z.of_nat j))) as [c2|e] eqn:Hc2.
    2: { exfalso. clear -Hc2 Hj. unfold str_getitem in Hc2. rewrite Nat2Z.id in Hc2.
         destruct (Nat.ltb_spec j (String.length RANK_ORDER)) as [|Hge]; [done|].
         simpl in Hge. lia. }
    rewrite !lift_Ok_bind, (rnd_bind_Done _ _ _ _ _ _ Hb).
    destruct (decide _) as [Hout|Hin]; [|apply IH].
    specialize (Hchecked _ Hi Hj eq_refl Hout). unfold notation_in in Hchecked.
    unfold lift. by destruct (from_notation _).
Qed.

(** The cards dealt for a well-formed hand. *)
Lemma notation_to_cards_cases cat hand tp pos :
  hand_in cat hand = true →
  ∃ cards next, _notation_to_cards hand tp pos = Done cards next ∧
                get_category hand = cat ∧ dealt_for hand cards.
Proof.
  unfold hand_in. intros [Hcat Hsym]%andb_true_iff.
  apply bool_decide_eq_true in Hcat.
  destruct (Rank.from_symbol (StartingHand.card1 hand)) as [r1|] eqn:H1; [|done].
  destruct (Rank.from_symbol (StartingHand.card2 hand)) as [r2|] eqn:H2; [|done].
  destruct (notation_to_cards_shape hand r1 r2 tp pos H1 H2) as (s0 & s1 & Hrun & Hs).
  eexists _, _. split; [exact Hrun|]. split; [done|].
  exists (Card.mk r1 s0), (Card.mk r2 s1). split; [done|].
  destruct (StartingHand.suited hand) eqn:Hsuited.
  - apply bool_decide_eq_true in Hsym. subst s1.
    split; [congruence|]. by repeat split.
  - split; [congruence|]. split; [done|]. split; [done|]. by split.
Qed.

Lemma generate_random_cases fuel cat tp pos :
  match generate_random fuel (Some cat) tp pos with
  | Done (hand, cards) _ => get_category hand = cat ∧ dealt_for hand cards
  | Fail _ => False
  | Diverge => cat = HandCategory.WEAK
  end.
Proof.
  unfold generate_random. destruct (decide (cat = HandCategory.WEAK)) as [->|Hne].
  - pose proof (random_weak_hand_cases fuel tp pos) as Hweak.
    unfold mbind at 1. unfold rnd_bind. revert Hweak.
    generalize (random_weak_hand fuel tp pos). intros [hand p|e|] Hweak; try done.
    destruct (notation_to_cards_cases _ hand tp p Hweak)
      as (cards & next & Hrun & Hcat & Hdealt).
    by rewrite (rnd_bind_Done _ _ _ _ _ _ Hrun).
  - destruct (category_hands cat) as [hands|] eqn:Hcat; [|by destruct cat].
    destruct (choice_Done (elements hands) tp pos) as (notation & Hn & Hin).
    { destruct cat; try done; injection Hcat as <-; by vm_compute. }
    unfold mbind, rnd_bind, lift. cbv beta iota. rewrite Hn.
    pose proof (category_hands_checked cat hands notation Hcat Hin) as Hok.
    unfold notation_in in Hok.
    destruct (from_notation notation) as [hand|]; [|done].
    destruct (notation_to_cards_cases _ hand tp (S pos) Hok)
      as (cards & next & Hrun & Hcat' & Hdealt).
    by rewrite Hrun.
Qed.

(** X15: a starting hand drawn for a category is of that category, and
    its two cards are different cards of the ranks of its symbols, of one
    suit exactly when the hand is suited.  The draw never fails, and
    always returns for the four categories that are sets of notations;
    only the loop that looks for a weak hand can go on. *)
Theorem generate_random_in_category fuel category tp pos :
  match generate_random fuel (Some category) tp pos with
  | Done (hand, cards) _ => get_category hand = category ∧ dealt_for hand cards
  | Fail _ => False
  | Diverge => category = HandCategory.WEAK
  end.
Proof. apply generate_random_cases. Qed.

Lemma should_play_early hand :
  should_play hand "early"
  = (HandCategory.value HandCategory.STRONG <=? HandCategory.value (get_category hand)).
Proof. unfold should_play. by rewrite decide_True. Qed.

Lemma should_play_middle hand :
  should_play hand "middle"
  = (HandCategory.value HandCategory.PLAYABLE <=? HandCategory.value (get_category hand)).
Proof. unfold should_play. rewrite decide_False by done. by rewrite decide_True. Qed.

Lemma should_play_late hand :
  should_play hand "late"
  = (HandCategory.value HandCategory.MARGINAL <=? HandCategory.value (get_category hand)).
Proof.
  unfold should_play. rewrite !decide_False by done. rewrite decide_True; [done|by left].
Qed.

Lemma should_play_blinds hand :
  should_play hand "blinds"
  = (HandCategory.value HandCategory.MARGINAL <=? HandCategory.value (get_category hand)).
Proof.
  unfold should_play. rewrite !decide_False by done. rewrite decide_True; [done|by right].
Qed.

Lemma should_play_other hand position :
  position ≠ "early" → position ≠ "middle" → position ≠ "late" →
  position ≠ "blinds" →
  should_play hand position
  = (HandCategory.value HandCategory.PLAYABLE <=? HandCategory.value (get_category hand)).
Proof.
  intros He Hm Hl Hb. unfold should_play. rewrite !decide_False; [done| |done|done].
  by intros [?|?].
Qed.

(** X16: the advice of [should_play] depends on the hand through its
    category only, and widens from the early to the middle to the late
    position: a hand to play early is to play in every position, and a
    hand to play anywhere is to play late and from the blinds, which get
    the same advice; an unknown position gets the advice of the middle. *)
Theorem should_play_widens hand position :
  (∀ hand', get_category hand' = get_category hand →
            should_play hand' position = should_play hand position) ∧
  (should_play hand "early" = true → should_play hand position = true) ∧
  (should_play hand position = true → should_play hand "late" = true) ∧
  should_play hand "blinds" = should_play hand "late" ∧
  (position ∉ ["early"; "middle"; "late"; "blinds"] →
   should_play hand position = should_play hand "middle").
Proof.
  split; [intros hand' Hcat; unfold should_play; by rewrite Hcat|].
  rewrite should_play_early, should_play_late, should_play_blinds, should_play_middle.
  assert (position = "early" ∨ position = "middle" ∨ position = "late" ∨
          position = "blinds" ∨
          (position ≠ "early" ∧ position ≠ "middle" ∧ position ≠ "late" ∧
           position ≠ "blinds")) as Hpos.
  { destruct (decide (position = "early")); [tauto|].
    destruct (decide (position = "middle")); [tauto|].
    destruct (decide (position = "late")); [tauto|].
    destruct (decide (position = "blinds")); tauto. }
  assert (∀ p : string, p ∈ ["early"; "middle"; "late"; "blinds"] ↔
                        p = "early" ∨ p = "middle" ∨ p = "late" ∨ p = "blinds") as Hin.
  { intros p. rewrite !elem_of_cons, elem_of_nil. tauto. }
  rewrite Hin.
  destruct Hpos as [->|[->|[->|[->|(He & Hm & Hl & Hb)]]]];
    rewrite ?should_play_early, ?should_play_late, ?should_play_blinds,
      ?should_play_middle, ?(should_play_other hand position He Hm Hl Hb);
    destruct (get_category hand); simpl; repeat split; try done; try tauto.
Qed.

End RandomStartingHands.

(** ** Generated questions *)

Section Questions.

Import EvaluatedHand HandEvaluator QuestionGenerator.

Lemma rnd_bind_Fail {A B} (m : rnd A) (f : A → rnd B) tp pos e :
  m tp pos = Fail e → (m ≫= f) tp pos = Fail e.
Proof. unfold mbind, rnd_bind. by intros ->. Qed.

Lemma rnd_bind_Diverge {A B} (m : rnd A) (f : A → rnd B) tp pos :
  m tp pos = Diverge → (m ≫= f) tp pos = Diverge.
Proof. unfold mbind, rnd_bind. by intros ->. Qed.

Lemma evaluate_five_Some cs :
  length cs = 5%nat → ∃ h, evaluate cs = Ok (Some h).
Proof.
  intros Hlen. destruct (evaluate_five_total cs Hlen) as [h Hh].
  exists h. by rewrite (evaluate_exactly_five cs Hlen), Hh.
Qed.

(** The two categories of a which-hand-wins question are always drawn. *)
Lemma which_wins_ranks difficulty tp pos :
  ∃ rank1 rank2 next,
    (if difficulty <=? 2 then
       rank1 ← choice [HandRank.ONE_PAIR; HandRank.TWO_PAIR; HandRank.FLUSH];
       let rank2_options :=
         filter (λ r, 2 ≤ Z.abs (HandRank.value r - HandRank.value rank1))
                HandRank.members in
       rank2 ← match rank2_options with
               | [] => mret HandRank.HIGH_CARD
               | _ => choice rank2_options
               end;
       mret (rank1, rank2)
     else
       rank1 ← choice HandRank.members;
       mret (rank1, rank1)) tp pos = Done (rank1, rank2) next.
Proof.
  destruct (difficulty <=? 2).
  - destruct (choice_Done [HandRank.ONE_PAIR; HandRank.TWO_PAIR; HandRank.FLUSH] tp pos)
      as (rank1 & H1 & Hin); [done|].
    rewrite (rnd_bind_Done _ _ _ _ _ _ H1).
    assert (rank1 = HandRank.ONE_PAIR ∨ rank1 = HandRank.TWO_PAIR ∨
            rank1 = HandRank.FLUSH) as Hcases.
    { rewrite !elem_of_cons, elem_of_nil in Hin. tauto. }
    destruct Hcases as [->|[->| ->]];
      match goal with
      | |- context [filter ?P HandRank.members] =>
          let l := eval vm_compute in (filter P HandRank.members) in
          change (filter P HandRank.members) with l
      end; cbv zeta;
      match goal with
      | |- context [choice ?l] =>
          destruct (choice_Done l tp (S pos)) as (rank2 & H2 & _); [done|];
          rewrite (rnd_bind_Done _ _ _ _ _ _ H2)
      end; by eexists _, _, _.
  - destruct (choice_Done HandRank.members tp pos) as (rank1 & H1 & _); [done|].
    rewrite (rnd_bind_Done _ _ _ _ _ _ H1). by eexists _, _, _.
Qed.

Lemma which_wins_cases fuel difficulty tp pos :
  match _generate_which_wins_question fuel difficulty tp pos with
  | Done q _ =>
      GeneratedQuestion.question_type q = "which_wins" ∧
      GeneratedQuestion.difficulty q = difficulty ∧
      GeneratedQuestion.choices q = ["Hand 1"; "Hand 2"; "Tie"] ∧
      ∃ cards2 z,
        GeneratedQuestion.cards2 q = Some cards2 ∧
        length (GeneratedQuestion.cards q) = 5%nat ∧ length cards2 = 5%nat ∧
        compare_hands (GeneratedQuestion.cards q) cards2 = Ok z ∧
        GeneratedQuestion.correct_answer q = answer_of_sign z
  | Fail e => e = ValueError
  | Diverge => True
  end.
Proof.
  unfold _generate_which_wins_question.
  destruct (which_wins_ranks difficulty tp pos) as (rank1 & rank2 & p0 & Hranks).
  rewrite (rnd_bind_Done _ _ _ _ _ _ Hranks).
  pose proof (generate_hand_cases fuel rank1 None tp p0) as H1.
  destruct (_generate_hand_of_rank fuel rank1 None tp p0) as [cards1 p1|e|] eqn:Hg1.
  2: { rewrite (rnd_bind_Fail _ _ _ _ _ Hg1). by destruct H1. }
  2: { by rewrite (rnd_bind_Diverge _ _ _ _ Hg1). }
  rewrite (rnd_bind_Done _ _ _ _ _ _ Hg1).
  pose proof (generate_hand_cases fuel rank2 (Some cards1) tp p1) as H2.
  destruct (_generate_hand_of_rank fuel rank2 (Some cards1) tp p1)
    as [cards2 p2|e|] eqn:Hg2.
  2: { rewrite (rnd_bind_Fail _ _ _ _ _ Hg2). by destruct H2. }
  2: { by rewrite (rnd_bind_Diverge _ _ _ _ Hg2). }
  rewrite (rnd_bind_Done _ _ _ _ _ _ Hg2).
  destruct H1 as (Hlen1 & _ & _). destruct H2 as (Hlen2 & _ & _).
  destruct (evaluate_five_Some cards1 Hlen1) as [h1 Hh1].
  destruct (evaluate_five_Some cards2 Hlen2) as [h2 Hh2].
  rewrite Hh1, lift_Ok_bind, Hh2, lift_Ok_bind.
  assert (compare_hands cards1 cards2
          = Ok (if gt h1 h2 then 1 else if gt h2 h1 then -1 else 0)) as Hcmp.
  { unfold compare_hands. rewrite Hh1, Hh2, !bind_Ok. unfold compare_evaluated.
    assert (lt h1 h2 = gt h2 h1) as -> by (unfold lt, gt; by rewrite tuple_gt_lt).
    by destruct (gt h1 h2), (gt h2 h1). }
  destruct (gt h1 h2); [|destruct (gt h2 h1)];
    (split; [done|]; split; [done|]; split; [done|];
     eexists _, _; split; [done|]; split; [done|]; split; [done|];
     split; [exact Hcmp|done]).
Qed.

(** X17: a which-hand-wins question shows two hands of five cards and
    three choices, and its keyed answer is what [compare_hands] says of
    the two hands: "Hand 1" for 1, "Hand 2" for -1, "Tie" for 0.  The one
    error it can raise is the [ValueError] of the straight flush. *)
Theorem which_wins_answer_key fuel difficulty tp pos :
  match _generate_which_wins_question fuel difficulty tp pos with
  | Done q _ =>
      GeneratedQuestion.question_type q = "which_wins" ∧
      GeneratedQuestion.difficulty q = difficulty ∧
      GeneratedQuestion.choices q = ["Hand 1"; "Hand 2"; "Tie"] ∧
      ∃ cards2 z,
        GeneratedQuestion.cards2 q = Some cards2 ∧
        length (GeneratedQuestion.cards q) = 5%nat ∧ length cards2 = 5%nat ∧
        compare_hands (GeneratedQuestion.cards q) cards2 = Ok z ∧
        GeneratedQuestion.correct_answer q = answer_of_sign z
  | Fail e => e = ValueError
  | Diverge => True
  end.
Proof. apply which_wins_cases. Qed.

Lemma display_name_inj r r' :
  HandRank.display_name r = HandRank.display_name r' → r = r'.
Proof. by destruct r, r'. Qed.

Lemma nearby_ranks_facts target :
  NoDup (nearby_ranks target) ∧ (2 ≤ length (nearby_ranks target))%nat ∧
  target ∉ nearby_ranks target.
Proof.
  split; [|split].
  - apply NoDup_filter, (bool_decide_unpack _). by vm_compute.
  - destruct target; vm_compute; lia.
  - unfold nearby_ranks. rewrite list_elem_of_filter. by intros [[_ ?] _].
Qed.

(** The loop that fills the choices: distinct names, the answer among
    them, four at most. *)
Lemma fill_choices_Done fuel answer choices0 tp pos choices next :
  NoDup choices0 → answer ∈ choices0 → (length choices0 ≤ 4)%nat →
  while fuel (λ choices, mret (length choices <? 4)%nat) fill_choice choices0 tp pos
  = Done choices next →
  NoDup choices ∧ answer ∈ choices ∧ length choices = 4%nat.
Proof.
  intros Hnd Hin Hlen Hrun.
  apply (while_Done_cond
           (λ c, NoDup c ∧ answer ∈ c ∧ (length c ≤ 4)%nat)) in Hrun
    as [(Hnd' & Hin' & Hlen') Hcond]; [|clear|done].
  - split; [done|]. split; [done|]. injection Hcond as Hcond.
    apply Nat.ltb_ge in Hcond. lia.
  - intros c tp' pos' c1 p1 (Hnd & Hin & Hlen) Hcond Hbody.
    injection Hcond as Hcond. apply Nat.ltb_lt in Hcond.
    unfold fill_choice in Hbody.
    apply rnd_bind_inv in Hbody as (r & mid & _ & Hbody).
    destruct (decide _) as [Hnew|Hold]; injection Hbody as <- _.
    + split; [|split].
      * apply NoDup_app. split; [done|]. split; [|apply NoDup_singleton].
        intros x Hx Hx'. apply list_elem_of_singleton in Hx'. by subst.
      * apply elem_of_app. by left.
      * rewrite length_app. simpl. lia.
    + done.
Qed.

Lemma fill_choices_no_Fail fuel choices0 tp pos e :
  while fuel (λ choices, mret (length choices <? 4)%nat) fill_choice choices0 tp pos
  ≠ Fail e.
Proof.
  apply (while_no_Fail (λ _, True)); [| |done].
  - intros c _. by eexists.
  - intros c tp' pos' _. unfold fill_choice.
    destruct (choice_Done HandRank.members tp' pos') as (r & Hr & _); [done|].
    rewrite (rnd_bind_Done _ _ _ _ _ _ Hr).
    destruct (decide _); by eexists _, _.
Qed.

Lemma target_ranks_nonempty difficulty : target_ranks difficulty ≠ [].
Proof.
  unfold target_ranks. by destruct (difficulty <=? 2), (difficulty <=? 4).
Qed.

Lemma hand_ranking_cases fuel difficulty tp pos :
  match _generate_hand_ranking_question fuel difficulty tp pos with
  | Done q _ =>
      GeneratedQuestion.question_type q = "hand_ranking" ∧
      GeneratedQuestion.difficulty q = difficulty ∧
      GeneratedQuestion.cards2 q = None ∧
      length (GeneratedQuestion.choices q) = 4%nat ∧ well_posed q ∧
      ∃ target,
        target ∈ target_ranks difficulty ∧
        GeneratedQuestion.correct_answer q = HandRank.display_name target ∧
        length (GeneratedQuestion.cards q) = 5%nat ∧
        NoDup (GeneratedQuestion.cards q) ∧
        (target ≠ HandRank.FLUSH → hand_of target (GeneratedQuestion.cards q))
  | Fail e => e = ValueError
  | Diverge => True
  end.
Proof.
  unfold _generate_hand_ranking_question.
  destruct (choice_Done (target_ranks difficulty) tp pos) as (target & Ht & Hin);
    [apply target_ranks_nonempty|].
  rewrite (rnd_bind_Done _ _ _ _ _ _ Ht).
  pose proof (generate_hand_cases fuel target None tp (S pos)) as Hgen.
  destruct (_generate_hand_of_rank fuel target None tp (S pos))
    as [cards p1|e|] eqn:Hg.
  2: { rewrite (rnd_bind_Fail _ _ _ _ _ Hg). by destruct Hgen. }
  2: { by rewrite (rnd_bind_Diverge _ _ _ _ Hg). }
  rewrite (rnd_bind_Done _ _ _ _ _ _ Hg). cbv zeta.
  destruct (nearby_ranks_facts target) as (Hnnd & Hnlen & Hnt).
  destruct (sample_picks (nearby_ranks target)
              (Nat.min 2 (length (nearby_ranks target))) tp p1)
    as (picked & Hpicked & Hplen & Hpnd & Hpsub); [lia|done|].
  rewrite (rnd_bind_Done _ _ _ _ _ _ Hpicked).
  rewrite Nat.min_l in Hplen by done.
  destruct picked as [|a [|b [|? ?]]]; try done.
  set (choices0 := [HandRank.display_name target] ++ map HandRank.display_name [a; b]).
  assert (NoDup choices0) as Hnd0.
  { assert (NoDup [target; a; b]) as Hnd3.
    { apply NoDup_cons. split; [|done]. intros Hta. apply Hnt, Hpsub, Hta. }
    assert (Inj (=) (=) HandRank.display_name) as Hinj
      by (intros x y; apply display_name_inj).
    by apply (NoDup_fmap_2 HandRank.display_name) in Hnd3. }
  match goal with
  | |- context [(while fuel ?c ?b choices0 ≫= ?k) tp ?p] =>
      destruct (while fuel c b choices0 tp p) as [choices p2|e|] eqn:Hloop
  end.
  2: { by apply fill_choices_no_Fail in Hloop. }
  2: { by rewrite (rnd_bind_Diverge _ _ _ _ Hloop). }
  rewrite (rnd_bind_Done _ _ _ _ _ _ Hloop).
  apply (fill_choices_Done fuel (HandRank.display_name target)) in Hloop
    as (Hnd & Hans & Hlen); [|done|by left|simpl; lia].
  destruct (shuffle_perm choices tp p2) as (shuffled & Hsh & Hperm).
  rewrite (rnd_bind_Done _ _ _ _ _ _ Hsh).
  pose proof (Permutation_length Hperm) as Hslen.
  unfold mret, rnd_ret, well_posed. cbn [GeneratedQuestion.question_type
    GeneratedQuestion.difficulty GeneratedQuestion.cards2 GeneratedQuestion.choices
    GeneratedQuestion.correct_answer GeneratedQuestion.cards].
  split; [done|]. split; [done|]. split; [done|].
  split; [lia|]. split.
  - split; by rewrite Hperm.
  - exists target. destruct Hgen as (Hclen & Hcnd & Hhand).
    split; [done|]. split; [done|]. split; [done|]. by split.
Qed.

(** X18: a what-hand-is-this question offers four distinct choices, its
    keyed answer among them; the answer is the name of a category the
    difficulty allows; the hand shown is five distinct cards, and it is of
    the keyed category whenever that category is not the flush.  The one
    error it can raise is the [ValueError] of the straight flush. *)
Theorem hand_ranking_well_posed fuel difficulty tp pos :
  match _generate_hand_ranking_question fuel difficulty tp pos with
  | Done q _ =>
      GeneratedQuestion.question_type q = "hand_ranking" ∧
      GeneratedQuestion.difficulty q = difficulty ∧
      GeneratedQuestion.cards2 q = None ∧
      length (GeneratedQuestion.choices q) = 4%nat ∧ well_posed q ∧
      ∃ target,
        target ∈ target_ranks difficulty ∧
        GeneratedQuestion.correct_answer q = HandRank.display_name target ∧
        length (GeneratedQuestion.cards q) = 5%nat ∧
        NoDup (GeneratedQuestion.cards q) ∧
        (target ≠ HandRank.FLUSH → hand_of target (GeneratedQuestion.cards q))
  | Fail e => e = ValueError
  | Diverge => True
  end.
Proof. apply hand_ranking_cases. Qed.

Lemma categories_for_nonempty difficulty : categories_for difficulty ≠ [].
Proof.
  unfold categories_for. by destruct (difficulty <=? 2), (difficulty <=? 4).
Qed.

Lemma starting_hand_cases fuel difficulty tp pos :
  match _generate_starting_hand_question fuel difficulty tp pos with
  | Done q _ =>
      GeneratedQuestion.question_type q = "starting_hand" ∧
      GeneratedQuestion.difficulty q = difficulty ∧
      GeneratedQuestion.cards2 q = None ∧ well_posed q ∧
      ∃ hand,
        StartingHands.get_category hand ∈ categories_for difficulty ∧
        dealt_for hand (GeneratedQuestion.cards q) ∧
        if 3 <=? difficulty then
          GeneratedQuestion.choices q = ["Play"; "Fold"] ∧
          ∃ position,
            position ∈ POSITIONS ∧
            GeneratedQuestion.prompt q
            = "Should you play " +:+ StartingHand.notation hand +:+ " from "
              +:+ position +:+ " position?" ∧
            GeneratedQuestion.correct_answer q
            = if StartingHands.should_play hand position then "Play" else "Fold"
        else
          GeneratedQuestion.choices q
          = ["Premium"; "Strong"; "Playable"; "Marginal"; "Weak"] ∧
          GeneratedQuestion.prompt q
          = "How strong is " +:+ StartingHand.notation hand +:+ "?" ∧
          GeneratedQuestion.correct_answer q
          = StartingHands.get_category_name (StartingHands.get_category hand)
  | Fail _ => False
  | Diverge => True
  end.
Proof.
  unfold _generate_starting_hand_question.
  destruct (choice_Done (categories_for difficulty) tp pos) as (category & Hc & Hin);
    [apply categories_for_nonempty|].
  rewrite (rnd_bind_Done _ _ _ _ _ _ Hc).
  pose proof (generate_random_cases fuel category tp (S pos)) as Hgen.
  destruct (StartingHands.generate_random fuel (Some category) tp (S pos))
    as [[hand cards] p1|e|] eqn:Hg.
  2: { done. }
  2: { by rewrite (rnd_bind_Diverge _ _ _ _ Hg). }
  rewrite (rnd_bind_Done _ _ _ _ _ _ Hg). destruct Hgen as [Hcat Hdealt].
  destruct (3 <=? difficulty) eqn:Hd.
  - destruct (choice_Done POSITIONS tp p1) as (position & Hp & Hpin); [done|].
    rewrite (rnd_bind_Done _ _ _ _ _ _ Hp).
    unfold mret, rnd_ret, well_posed. cbn [GeneratedQuestion.question_type
      GeneratedQuestion.difficulty GeneratedQuestion.cards2 GeneratedQuestion.choices
      GeneratedQuestion.correct_answer GeneratedQuestion.cards GeneratedQuestion.prompt].
    split; [done|]. split; [done|]. split; [done|]. split.
    + split; [apply (bool_decide_unpack _); by vm_compute|].
      destruct (StartingHands.should_play hand position);
        rewrite !elem_of_cons; auto.
    + exists hand. rewrite Hcat. split; [done|]. split; [done|].
      split; [done|]. by exists position.
  - unfold mret, rnd_ret, well_posed. cbn [GeneratedQuestion.question_type
      GeneratedQuestion.difficulty GeneratedQuestion.cards2 GeneratedQuestion.choices
      GeneratedQuestion.correct_answer GeneratedQuestion.cards GeneratedQuestion.prompt].
    split; [done|]. split; [done|]. split; [done|]. split.
    + split; [apply (bool_decide_unpack _); by vm_compute|].
      destruct category; cbn [StartingHands.get_category_name];
        rewrite !elem_of_cons; auto 10.
    + exists hand. rewrite Hcat. by repeat split.
Qed.

(** X19: a starting-hand question is about a hand of a category the
    difficulty allows, dealt as two cards that match it; below difficulty
    3 the keyed answer is the name of the category of the hand in the
    prompt, from 3 on it is the advice of [should_play] for that hand and
    the position in the prompt; the keyed answer is always one of the
    choices, and the generator never raises. *)
Theorem starting_hand_answer_key fuel difficulty tp pos :
  match _generate_starting_hand_question fuel difficulty tp pos with
  | Done q _ =>
      GeneratedQuestion.question_type q = "starting_hand" ∧
      GeneratedQuestion.difficulty q = difficulty ∧
      GeneratedQuestion.cards2 q = None ∧ well_posed q ∧
      ∃ hand,
        StartingHands.get_category hand ∈ categories_for difficulty ∧
        dealt_for hand (GeneratedQuestion.cards q) ∧
        if 3 <=? difficulty then
          GeneratedQuestion.choices q = ["Play"; "Fold"] ∧
          ∃ position,
            position ∈ POSITIONS ∧
            GeneratedQuestion.prompt q
            = "Should you play " +:+ StartingHand.notation hand +:+ " from "
              +:+ position +:+ " position?" ∧
            GeneratedQuestion.correct_answer q
            = if StartingHands.should_play hand position then "Play" else "Fold"
        else
          GeneratedQuestion.choices q
          = ["Premium"; "Strong"; "Playable"; "Marginal"; "Weak"] ∧
          GeneratedQuestion.prompt q
          = "How strong is " +:+ StartingHand.notation hand +:+ "?" ∧
          GeneratedQuestion.correct_answer q
          = StartingHands.get_category_name (StartingHands.get_category hand)
  | Fail _ => False
  | Diverge => True
  end.
Proof. apply starting_hand_cases. Qed.

Lemma generators_lookup question_type :
  generators !! question_type =
  if decide (question_type = "hand_ranking") then Some _generate_hand_ranking_question
  else if decide (question_type = "which_wins") then Some _generate_which_wins_question
  else if decide (question_type = "starting_hand")
       then Some _generate_starting_hand_question
  else None.
Proof.
  unfold generators.
  destruct (decide (question_type = "hand_ranking")) as [->|H1].
  { by rewrite lookup_insert_eq. }
  rewrite lookup_insert_ne by done.
  destruct (decide (question_type = "which_wins")) as [->|H2].
  { by rewrite lookup_insert_eq. }
  rewrite lookup_insert_ne by done.
  destruct (decide (question_type = "starting_hand")) as [->|H3].
  { by rewrite lookup_singleton_eq. }
  by rewrite lookup_singleton_ne.
Qed.

Lemma answer_of_sign_choice z :
  answer_of_sign z ∈ ["Hand 1"; "Hand 2"; "Tie"].
Proof.
  unfold answer_of_sign. destruct (z =? 1), (z =? -1); rewrite !elem_of_cons; auto.
Qed.

Lemma generate_cases fuel question_type difficulty tp pos :
  match generate fuel question_type difficulty tp pos with
  | Done q _ =>
      question_type ∈ QUESTION_TYPES ∧
      GeneratedQuestion.question_type q = question_type ∧
      GeneratedQuestion.difficulty q = difficulty ∧ well_posed q
  | Fail e =>
      e = ValueError ∧
      (question_type ∉ QUESTION_TYPES ∨ question_type = "hand_ranking" ∨
       question_type = "which_wins")
  | Diverge => question_type ∈ QUESTION_TYPES
  end.
Proof.
  unfold generate, QUESTION_TYPES. rewrite generators_lookup.
  destruct (decide (question_type = "hand_ranking")) as [->|H1].
  { pose proof (hand_ranking_cases fuel difficulty tp pos) as Hq. revert Hq.
    generalize (_generate_hand_ranking_question fuel difficulty tp pos).
    intros [q p|e|] Hq.
    - destruct Hq as (Ht & Hd & _ & _ & Hw & _).
      split; [rewrite !elem_of_cons; auto|done].
    - split; [done|auto].
    - rewrite !elem_of_cons; auto. }
  destruct (decide (question_type = "which_wins")) as [->|H2].
  { pose proof (which_wins_cases fuel difficulty tp pos) as Hq. revert Hq.
    generalize (_generate_which_wins_question fuel difficulty tp pos).
    intros [q p|e|] Hq.
    - destruct Hq as (Ht & Hd & Hc & c2 & z & _ & _ & _ & _ & Ha).
      split; [rewrite !elem_of_cons; auto|]. split; [done|]. split; [done|].
      unfold well_posed. rewrite Hc, Ha. split; [|apply answer_of_sign_choice].
      apply (bool_decide_unpack _). by vm_compute.
    - split; [done|auto].
    - rewrite !elem_of_cons; auto. }
  destruct (decide (question_type = "starting_hand")) as [->|H3].
  { pose proof (starting_hand_cases fuel difficulty tp pos) as Hq. revert Hq.
    generalize (_generate_starting_hand_question fuel difficulty tp pos).
    intros [q p|e|] Hq.
    - destruct Hq as (Ht & Hd & _ & Hw & _).
      split; [rewrite !elem_of_cons; auto|done].
    - done.
    - rewrite !elem_of_cons; auto. }
  split; [done|]. left. rewrite !elem_of_cons, elem_of_nil. tauto.
Qed.

(** X20: [generate] raises [ValueError] on every question type outside
    the three it knows, whatever the draws; on the three, a question it
    returns is of the type and difficulty asked for, with distinct choices
    and the keyed answer among them.  A known type can still raise: the
    [ValueError] of the straight flush, in the two types that show
    five-card hands. *)
Theorem generate_outcome fuel question_type difficulty tp pos :
  (question_type ∉ QUESTION_TYPES →
   generate fuel question_type difficulty tp pos = Fail ValueError) ∧
  match generate fuel question_type difficulty tp pos with
  | Done q _ =>
      question_type ∈ QUESTION_TYPES ∧
      GeneratedQuestion.question_type q = question_type ∧
      GeneratedQuestion.difficulty q = difficulty ∧ well_posed q
  | Fail e =>
      e = ValueError ∧
      (question_type ∉ QUESTION_TYPES ∨ question_type = "hand_ranking" ∨
       question_type = "which_wins")
  | Diverge => question_type ∈ QUESTION_TYPES
  end.
Proof.
  split; [|apply generate_cases].
  intros Hout. pose proof (generate_cases fuel question_type difficulty tp pos) as Hq.
  revert Hq. generalize (generate fuel question_type difficulty tp pos).
  intros [q p|e|] Hq.
  - by destruct Hq as [Hin _].
  - by destruct Hq as [-> _].
  - done.
Qed.


End Questions.

(** ** The scores and the log of attempts *)

Section ScoresAndLog.

Import KnowledgeScore ProgressionEngine.

Lemma user_or_default_idem uid :
  user_or_default (Some (user_or_default uid)) = user_or_default uid.
Proof.
  unfold user_or_default. destruct uid as [u|]; [|done].
  destruct (decide (u = EmptyString)) as [->|Hne]; [done|].
  by rewrite decide_False.
Qed.

Lemma matches_key u tp s : matches u tp s = true ↔ key_of s = (u, tp).
Proof.
  unfold matches, key_of. rewrite andb_true_iff, !bool_decide_eq_true.
  split; [by intros [-> ->]|by intros [= -> ->]].
Qed.

(** The row handed out by [get_or_create_score]: the row of the user and
    topic when there is one, a new last row otherwise. *)
Lemma get_or_create_score_key db topic uid now db' i s :
  get_or_create_score db topic uid now = (db', i, s) →
  let key := (user_or_default uid, topic) in
  key_of s = key ∧ Session.question_attempts db' = Session.question_attempts db ∧
  Session.knowledge_scores db' !! i = Some s ∧
  ((Session.knowledge_scores db' = Session.knowledge_scores db ∧
    Session.knowledge_scores db !! i = Some s) ∨
   (Session.knowledge_scores db' = Session.knowledge_scores db ++ [s] ∧
    i = length (Session.knowledge_scores db) ∧ s = creation_row key now ∧
    key ∉ map key_of (Session.knowledge_scores db))).
Proof.
  intros Hget. cbv zeta. unfold get_or_create_score in Hget.
  destruct (first_index _ _) as [j|] eqn:Hidx.
  - destruct (first_index_Some _ _ _ Hidx) as (x & Hx & Hm).
    rewrite Hx in Hget. injection Hget as <- <- <-.
    apply matches_key in Hm. split; [done|]. split; [done|]. split; [done|].
    by left.
  - injection Hget as <- <- <-. split; [done|]. split; [done|]. split.
    + simpl. by rewrite lookup_app_r, Nat.sub_diag.
    + right. split; [done|]. split; [done|]. split; [done|].
      intros Hin. apply list_elem_of_In, in_map_iff in Hin as (x & Hk & Hx).
      apply list_elem_of_In in Hx.
      pose proof (first_index_None _ _ Hidx x Hx) as Hm.
      apply matches_key in Hk. congruence.
Qed.

Lemma filter_none {A} (P : A → Prop) `{∀ x, Decision (P x)} (l : list A) :
  (∀ x, x ∈ l → ¬ P x) → filter P l = [].
Proof.
  induction l as [|x l IH]; intros Hno; [done|].
  rewrite filter_cons. destruct (decide (P x)) as [HP|_].
  - destruct (Hno x); [by left|done].
  - apply IH. intros y Hy. apply Hno. by right.
Qed.

Lemma streaks_snoc l a : ∀ current best,
  streaks (l ++ [a]) current best =
  let '(c, b) := streaks l current best in
  if QuestionAttempt.correct a then (c + 1, Z.max b (c + 1)) else (0, b).
Proof.
  induction l as [|x l IH]; intros current best; simpl.
  - by destruct (QuestionAttempt.correct a).
  - destruct (QuestionAttempt.correct x); apply IH.
Qed.

(** What [record_attempt] changes. *)
Lemma record_attempt_frame db qt correct rt d uid now :
  let key := (user_or_default uid, qt) in
  let attempt := QuestionAttempt.mk (user_or_default uid) qt correct rt d now in
  let db' := (record_attempt db qt correct rt d uid now).1 in
  let s' := (record_attempt db qt correct rt d uid now).2 in
  ∃ i old rows,
    Session.question_attempts db' = Session.question_attempts db ++ [attempt] ∧
    Session.knowledge_scores db' = <[i := s']> rows ∧
    rows !! i = Some old ∧ s' = update_score old correct now ∧ key_of old = key ∧
    ((rows = Session.knowledge_scores db) ∨
     (rows = Session.knowledge_scores db ++ [old] ∧
      i = length (Session.knowledge_scores db) ∧ old = creation_row key now ∧
      key ∉ map key_of (Session.knowledge_scores db))).
Proof.
  intros key attempt db' s'. unfold db', s', record_attempt.
  destruct (get_or_create_score _ _ _ _) as [[db2 i] s] eqn:Hget.
  apply get_or_create_score_key in Hget. rewrite user_or_default_idem in Hget.
  destruct Hget as (Hkey & Hatt & Hi & Hrows). cbn [fst snd].
  exists i, s, (Session.knowledge_scores db2).
  split; [by rewrite Hatt|]. split; [done|]. split; [done|]. split; [done|].
  split; [done|]. destruct Hrows as [[Hr _]|(Hr & Hlen & Hs & Hout)].
  - by left.
  - right. by rewrite Hr.
Qed.

Lemma update_score_key s correct now : key_of (update_score s correct now) = key_of s.
Proof.
  destruct (update_score_fields s correct now) as (Hu & Ht & _).
  unfold key_of. by rewrite Hu, Ht.
Qed.

Lemma attempts_on_snoc db rows a key :
  attempts_on (Session.mk rows (Session.question_attempts db ++ [a])) key
  = attempts_on db key ++ (if decide (attempt_key a = key) then [a] else []).
Proof.
  unfold attempts_on. cbn [Session.question_attempts]. rewrite filter_app.
  reflexivity.
Qed.

Lemma counted_other db rows a s :
  attempt_key a ≠ key_of s → counted db s →
  counted (Session.mk rows (Session.question_attempts db ++ [a])) s.
Proof.
  intros Hne Hs. unfold counted. rewrite attempts_on_snoc.
  rewrite decide_False by done. by rewrite app_nil_r.
Qed.

Lemma counted_updated db rows s correct rt d now :
  counted db s →
  counted (Session.mk rows
             (Session.question_attempts db
              ++ [QuestionAttempt.mk (user_id s) (topic s) correct rt d now]))
          (update_score s correct now).
Proof.
  intros (Htotal & Hcorrect & Hstreaks). unfold counted.
  rewrite update_score_key, attempts_on_snoc. rewrite decide_True by done.
  destruct (update_score_fields s correct now) as (_ & _ & Et & Ec & Es & Eb & _).
  rewrite Et, Ec, Es, Eb, streaks_snoc, <- Hstreaks. cbn [QuestionAttempt.correct].
  unfold count_correct in *. rewrite filter_app, !length_app, filter_cons, filter_nil.
  cbn [QuestionAttempt.correct]. rewrite Htotal, Hcorrect.
  destruct correct.
  - rewrite decide_True by done. simpl. split; [lia|]. split; [lia|done].
  - rewrite decide_False by done. simpl. split; [lia|]. split; [lia|done].
Qed.

Lemma record_attempt_consistent db qt correct rt d uid now :
  consistent db → consistent (record_attempt db qt correct rt d uid now).1.
Proof.
  intros (Hnd & Hcounted & Hlogged).
  destruct (record_attempt_frame db qt correct rt d uid now)
    as (i & old & rows & Hatt & Hrows & Hi & Hs' & Hkey & Hcase).
  set (db' := (record_attempt db qt correct rt d uid now).1) in *.
  set (s' := (record_attempt db qt correct rt d uid now).2) in *.
  set (attempt := QuestionAttempt.mk (user_or_default uid) qt correct rt d now) in *.
  assert (db' = Session.mk (<[i := s']> rows) (Session.question_attempts db ++ [attempt]))
    as Hdb'.
  { destruct db' as [r a]. simpl in Hatt, Hrows. by rewrite Hatt, Hrows. }
  assert (key_of s' = key_of old) as Hkey' by (rewrite Hs'; apply update_score_key).
  assert (map key_of (<[i := s']> rows) = map key_of rows) as Hkeys.
  { change (key_of <$> <[i := s']> rows = key_of <$> rows).
    rewrite list_fmap_insert, Hkey'. apply list_insert_id.
    by rewrite list_lookup_fmap, Hi. }
  assert (NoDup (map key_of rows)) as Hnd'.
  { destruct Hcase as [->|(-> & _ & _ & Hout)]; [done|].
    rewrite map_app. apply NoDup_app. split; [done|]. split.
    - intros k Hk Hk'. apply list_elem_of_singleton in Hk'. subst k.
      by rewrite Hkey in Hk.
    - apply NoDup_singleton. }
  assert (attempt_key attempt = key_of old) as Hak by (by rewrite Hkey).
  assert (counted db old) as Hold.
  { destruct Hcase as [->|(-> & _ & -> & Hout)].
    - rewrite Forall_forall in Hcounted. apply Hcounted.
      by apply list_elem_of_lookup_2 in Hi.
    - unfold counted.
      assert (attempts_on db (key_of (creation_row (user_or_default uid, qt) now)) = [])
        as ->; [|done].
      unfold attempts_on. apply filter_none. intros a Ha Heq.
      apply Hout. change (attempt_key a = (user_or_default uid, qt)) in Heq.
      rewrite <- Heq. by apply Hlogged. }
  rewrite Hdb'. split; [|split].
  - cbn [Session.knowledge_scores]. by rewrite Hkeys.
  - cbn [Session.knowledge_scores]. apply Forall_lookup. intros j r Hr.
    destruct (decide (i = j)) as [<-|Hij].
    + rewrite list_lookup_insert_eq in Hr by (by eapply lookup_lt_Some).
      injection Hr as <-. rewrite Hs'.
      assert (attempt = QuestionAttempt.mk (user_id old) (topic old) correct rt d now)
        as ->.
      { unfold attempt. by injection Hkey as -> ->. }
      by apply counted_updated.
    + rewrite list_lookup_insert_ne in Hr by done.
      apply counted_other.
      * rewrite Hak. intros Heq.
        apply Hij. apply (NoDup_lookup (map key_of rows) i j (key_of old)); [done| |].
        -- change (map key_of rows) with (key_of <$> rows).
           by rewrite list_lookup_fmap, Hi.
        -- change (map key_of rows) with (key_of <$> rows).
           by rewrite list_lookup_fmap, Hr, Heq.
      * destruct Hcase as [->|(-> & -> & _ & _)].
        -- rewrite Forall_forall in Hcounted. apply Hcounted.
           by apply list_elem_of_lookup_2 in Hr.
        -- apply lookup_app_Some in Hr as [Hr|[Hge Hr]].
           ++ rewrite Forall_forall in Hcounted. apply Hcounted.
              by apply list_elem_of_lookup_2 in Hr.
           ++ apply list_lookup_singleton_Some in Hr as [Hz _]. lia.
  - cbn [Session.knowledge_scores Session.question_attempts]. rewrite Hkeys.
    intros a [Ha| ->%list_elem_of_singleton]%elem_of_app.
    + destruct Hcase as [->|(-> & _ & _ & _)]; [by apply Hlogged|].
      rewrite map_app. apply elem_of_app. left. by apply Hlogged.
    + rewrite Hak. apply list_elem_of_In, in_map, list_elem_of_In.
      by apply list_elem_of_lookup_2 in Hi.
Qed.

Lemma reachable_consistent db : reachable db → consistent db.
Proof.
  induction 1 as [|db qt correct rt d uid now _ IH].
  - split; [constructor|]. split; [constructor|]. by intros a ?%elem_of_nil.
  - by apply record_attempt_consistent.
Qed.

(** X22: in every session reached by recording attempts, the scores are
    the counters of the log: there is one row for a user and a topic, and a
    row for every attempt; the row's total is the number of the user's
    attempts on the topic, its correct count the number of correct ones,
    its current streak the run of correct answers that ends them and its
    best streak the longest run among them. *)
Theorem scores_count_the_log db : reachable db → consistent db.
Proof. apply reachable_consistent. Qed.

Lemma scores_count_the_log_witness : consistent two_attempts_db.
Proof.
  apply (scores_count_the_log two_attempts_db).
  unfold two_attempts_db. apply reachable_record, reachable_record, reachable_empty.
Defined.

Lemma reachable_invariant db :
  reachable db → Forall score_invariant (Session.knowledge_scores db).
Proof.
  induction 1 as [|db qt correct rt d uid now _ IH]; [constructor|].
  by apply record_attempt_rows.
Qed.

Lemma update_score_step s correct now :
  score_invariant s →
  let s' := update_score s correct now in
  total_attempts s' = total_attempts s + 1 ∧
  Z.abs (current_difficulty s' - current_difficulty s) ≤ 1 ∧
  best_streak s ≤ best_streak s'.
Proof.
  intros (_ & _ & _ & _ & Hd). cbv zeta.
  destruct (update_score_fields s correct now) as (_ & _ & Et & _ & _ & Eb & Ed).
  split; [done|]. split.
  - rewrite Ed. unfold difficulty_rule.
    destruct (_ <? _); [lia|]. destruct (_ || _); [lia|].
    destruct (Float.ltb _ _); lia.
  - rewrite Eb. destruct correct; lia.
Qed.

(** X23: what one recorded attempt changes, in a session reached by
    recording attempts: the log gets the attempt as its last entry; the
    rows of the other users and topics are untouched; the row of the user
    and topic, created if it was missing, gets one more attempt, a
    difficulty that moves by one level at most, and a best streak that
    does not go down. *)
Theorem record_attempt_step db qt correct rt d uid now :
  reachable db →
  let key := (user_or_default uid, qt) in
  let attempt := QuestionAttempt.mk (user_or_default uid) qt correct rt d now in
  let db' := (record_attempt db qt correct rt d uid now).1 in
  let s' := (record_attempt db qt correct rt d uid now).2 in
  Session.question_attempts db' = Session.question_attempts db ++ [attempt] ∧
  key_of s' = key ∧ s' ∈ Session.knowledge_scores db' ∧
  (∀ s, key_of s ≠ key →
        (s ∈ Session.knowledge_scores db' ↔ s ∈ Session.knowledge_scores db)) ∧
  ∃ old,
    (old ∈ Session.knowledge_scores db ∨
     (old = creation_row key now ∧ key ∉ map key_of (Session.knowledge_scores db))) ∧
    key_of old = key ∧
    total_attempts s' = total_attempts old + 1 ∧
    Z.abs (current_difficulty s' - current_difficulty old) ≤ 1 ∧
    best_streak old ≤ best_streak s'.
Proof.
  intros Hreach key attempt db' s'.
  destruct (record_attempt_frame db qt correct rt d uid now)
    as (i & old & rows & Hatt & Hrows & Hi & Hs' & Hkey & Hcase).
  fold db' s' attempt key in Hatt, Hrows, Hs', Hkey, Hcase.
  assert (i < length rows)%nat as Hlt by (by eapply lookup_lt_Some).
  assert (key_of s' = key) as Hkey' by (by rewrite Hs', update_score_key).
  split; [done|]. split; [done|]. split; [|split].
  - rewrite Hrows. apply (list_elem_of_lookup_2 _ i).
    by rewrite list_lookup_insert_eq.
  - intros s Hs. rewrite Hrows. split.
    + intros Hin. apply list_elem_of_lookup in Hin as [j Hj].
      destruct (decide (i = j)) as [<-|Hij].
      * rewrite list_lookup_insert_eq in Hj by done. injection Hj as <-. done.
      * rewrite list_lookup_insert_ne in Hj by done.
        destruct Hcase as [->|(-> & _ & _ & _)];
          [by apply list_elem_of_lookup_2 in Hj|].
        apply lookup_app_Some in Hj as [Hj|[_ Hj]];
          [by apply list_elem_of_lookup_2 in Hj|].
        apply list_lookup_singleton_Some in Hj as [_ <-]. done.
    + intros Hin. apply list_elem_of_lookup in Hin as [j Hj].
      assert (rows !! j = Some s) as Hj'.
      { destruct Hcase as [->|(-> & _ & _ & _)]; [done|].
        by apply lookup_app_l_Some. }
      apply (list_elem_of_lookup_2 _ j). rewrite list_lookup_insert_ne; [done|].
      intros <-. rewrite Hi in Hj'. injection Hj' as <-. done.
  - exists old. split.
    + destruct Hcase as [->|(_ & _ & Hold & Hout)].
      * left. by apply list_elem_of_lookup_2 in Hi.
      * by right.
    + split; [done|]. rewrite Hs'. apply update_score_step.
      destruct Hcase as [->|(_ & _ & -> & _)].
      * pose proof (reachable_invariant db Hreach) as Hall.
        rewrite Forall_forall in Hall. apply Hall.
        by apply list_elem_of_lookup_2 in Hi.
      * apply creation_invariant.
Qed.

Lemma record_attempt_step_witness :
  let db := two_attempts_db in
  let key := (user_or_default None, "which_wins") in
  let attempt := QuestionAttempt.mk (user_or_default None) "which_wins" true None 1 2 in
  let db' := (record_attempt db "which_wins" true None 1 None 2).1 in
  let s' := (record_attempt db "which_wins" true None 1 None 2).2 in
  Session.question_attempts db' = Session.question_attempts db ++ [attempt] ∧
  key_of s' = key ∧ s' ∈ Session.knowledge_scores db' ∧
  (∀ s, key_of s ≠ key →
        (s ∈ Session.knowledge_scores db' ↔ s ∈ Session.knowledge_scores db)) ∧
  ∃ old,
    (old ∈ Session.knowledge_scores db ∨
     (old = creation_row key 2 ∧ key ∉ map key_of (Session.knowledge_scores db))) ∧
    key_of old = key ∧
    total_attempts s' = total_attempts old + 1 ∧
    Z.abs (current_difficulty s' - current_difficulty old) ≤ 1 ∧
    best_streak old ≤ best_streak s'.
Proof.
  apply (record_attempt_step two_attempts_db "which_wins" true None 1 None 2).
  unfold two_attempts_db. apply reachable_record, reachable_record, reachable_empty.
Defined.

Lemma sorted_by_nonempty {A} (key : A → Z) (l : list A) :
  l ≠ [] → ∃ x, getitem (sorted_by key l) 0 = Ok x ∧ x ∈ l.
Proof.
  intros Hne. pose proof (sorted_by_perm key l) as Hperm.
  destruct (sorted_by key l) as [|x l'] eqn:Hs.
  - apply Permutation_nil_l in Hperm. by destruct Hne.
  - exists x. split; [done|]. rewrite <- Hperm. by left.
Qed.

(** X24: [get_recommended_topic] never raises: it always returns a topic,
    which is one of the three fixed topics or the topic of a row of the
    user; for a user without rows it is "hand_ranking". *)
Theorem recommended_topic_total db uid :
  ∃ topic,
    get_recommended_topic db uid = Ok topic ∧
    (topic ∈ TOPICS ∨ ∃ s, s ∈ scores_of db uid ∧ KnowledgeScore.topic s = topic) ∧
    (scores_of db uid = [] → topic = "hand_ranking").
Proof.
  rewrite get_recommended_topic_unfold.
  destruct (scores_of db uid) as [|s0 rows] eqn:Hscores.
  { exists "hand_ranking". split; [done|]. split; [|done]. left. by left. }
  destruct (weakest_scan_all (s0 :: rows)) as (weakest & lowest & -> & _ & Hsel).
  cbn [fst]. destruct weakest as [t|].
  - destruct Hsel as (s & Hs & -> & _). exists (KnowledgeScore.topic s).
    split; [done|]. split; [|done]. right. by exists s.
  - unfold fallback_topic. destruct (find _ TOPICS) as [t|] eqn:Hfind.
    + exists t. split; [done|]. split; [|done]. left.
      apply find_some in Hfind as [Hin _]. by apply list_elem_of_In.
    + destruct (sorted_by_nonempty KnowledgeScore.total_attempts (s0 :: rows))
        as (x & Hx & Hin); [done|].
      exists (KnowledgeScore.topic x). rewrite Hx. split; [done|].
      split; [|done]. right. by exists x.
Qed.

Lemma filter_filter_neq {A B} `{EqDecision B} (f : A → B) (u u' : B) (l : list A) :
  u' ≠ u →
  filter (λ x, f x = u') (filter (λ x, f x ≠ u) l) = filter (λ x, f x = u') l.
Proof.
  intros Hne. induction l as [|x l IH]; [done|].
  rewrite !filter_cons. destruct (decide (f x ≠ u)) as [Hx|Hx].
  - rewrite filter_cons. destruct (decide (f x = u')); by rewrite IH.
  - rewrite IH. destruct (decide (f x = u')) as [Hx'|]; [|done].
    destruct Hx. congruence.
Qed.

Lemma filter_filter_eq_neq {A B} `{EqDecision B} (f : A → B) (u : B) (l : list A) :
  filter (λ x, f x = u) (filter (λ x, f x ≠ u) l) = [].
Proof.
  apply filter_none. intros x Hx Heq. apply list_elem_of_filter in Hx as [Hne _].
  done.
Qed.

Lemma filter_idem {A} (P : A → Prop) `{∀ x, Decision (P x)} (l : list A) :
  filter P (filter P l) = filter P l.
Proof.
  induction l as [|x l IH]; [done|]. rewrite filter_cons.
  destruct (decide (P x)) as [HP|HP]; [|done].
  rewrite filter_cons, decide_True by done. by rewrite IH.
Qed.

Lemma get_recommended_topic_scores db db' uid :
  scores_of db' uid = scores_of db uid →
  get_recommended_topic db' uid = get_recommended_topic db uid.
Proof. intros Heq. by rewrite !get_recommended_topic_unfold, Heq. Qed.

(** X25: [reset_stats] returns [True] and leaves a session without any
    row or attempt of the user, who is then recommended "hand_ranking" as
    a new user is; the rows of every other user, and so the topic
    recommended to them, are what they were; and a second reset changes
    nothing. *)
Theorem reset_stats_clears_user db uid :
  let db' := (reset_stats db uid).1 in
  (reset_stats db uid).2 = true ∧
  scores_of db' uid = [] ∧
  (∀ a, a ∈ Session.question_attempts db' →
        QuestionAttempt.user_id a ≠ user_or_default uid ∧
        a ∈ Session.question_attempts db) ∧
  get_recommended_topic db' uid = Ok "hand_ranking" ∧
  (∀ uid', user_or_default uid' ≠ user_or_default uid →
           scores_of db' uid' = scores_of db uid' ∧
           get_recommended_topic db' uid' = get_recommended_topic db uid' ∧
           ∀ a, QuestionAttempt.user_id a = user_or_default uid' →
                (a ∈ Session.question_attempts db' ↔ a ∈ Session.question_attempts db)) ∧
  (reset_stats db' uid).1 = db'.
Proof.
  cbv zeta. unfold reset_stats. cbn [fst snd].
  set (u := user_or_default uid).
  assert (scores_of
            (Session.mk (filter (λ s, user_id s ≠ u) (Session.knowledge_scores db))
               (filter (λ a, QuestionAttempt.user_id a ≠ u)
                  (Session.question_attempts db))) uid = []) as Hnone.
  { unfold scores_of. cbn [Session.knowledge_scores]. fold u.
    apply (filter_filter_eq_neq user_id). }
  split; [done|]. split; [done|]. split; [|split; [|split]].
  - intros a Ha. cbn [Session.question_attempts] in Ha.
    by apply list_elem_of_filter in Ha.
  - by rewrite get_recommended_topic_unfold, Hnone.
  - intros uid' Hne.
    assert (scores_of
              (Session.mk (filter (λ s, user_id s ≠ u) (Session.knowledge_scores db))
                 (filter (λ a, QuestionAttempt.user_id a ≠ u)
                    (Session.question_attempts db))) uid' = scores_of db uid') as Hsame.
    { unfold scores_of. cbn [Session.knowledge_scores].
      by apply (filter_filter_neq user_id). }
    split; [done|]. split; [by apply get_recommended_topic_scores|].
    intros a Ha. cbn [Session.question_attempts]. rewrite list_elem_of_filter.
    split; [by intros [_ ?]|]. intros Hin. split; [|done]. by rewrite Ha.
  - cbn [Session.knowledge_scores Session.question_attempts]. f_equal.
    + apply (filter_idem (λ s, user_id s ≠ u)).
    + apply (filter_idem (λ a, QuestionAttempt.user_id a ≠ u)).
Qed.

End ScoresAndLog.
